(** * Buildbot scheduling core: debouncer, object state store, Nightly scheduler

    A shallow embedding of
    - [master/buildbot/util/debounce.py]  (modules [Debounce], [Descriptor]),
    - [master/buildbot/db/state.py]       (module [State]),
    - the Nightly scheduler exercised by
      [master/buildbot/test/unit/schedulers/test_timed_Nightly.py]
      (module [Nightly]),
    - [master/buildbot/www/hooks/poller.py] (module [Poller]),
    together with the properties the specification states about them and
    further properties of the code. *)

From Stdlib Require Import ZArith List Bool Lia String Ascii.
From stdpp Require Import base option gmap strings list fin_maps.

Import ListNotations.
Local Open Scope Z_scope.

(* ===================================================================== *)
(** ** Exceptions and results shared by the embeddings *)
(* ===================================================================== *)

(** The Python exceptions the embedded code can raise.  [RecursionError]
    is what a bounded call depth runs into. *)
Inductive exn :=
| AlreadyCalled | AlreadyCancelled | AttributeError | RecursionError
| KeyError | TypeError | RuntimeError | IntegrityError | IdNotFoundError.

Inductive res (A : Type) :=
| Ret (a : A)
| Raise (e : exn).
Arguments Ret {A} a.
Arguments Raise {A} e.

#[export] Instance res_ret : MRet res := fun _ a => Ret a.
#[export] Instance res_bind : MBind res := fun _ _ k m =>
  match m with Ret a => k a | Raise e => Raise e end.

(* ===================================================================== *)
(** ** util/debounce.py *)
(* ===================================================================== *)

Module Debounce.

(** debounce phases *)
Inductive Phase := PH_IDLE | PH_WAITING | PH_RUNNING | PH_RUNNING_QUEUED.

Definition phase_code (p : Phase) : Z :=
  match p with
  | PH_IDLE => 0 | PH_WAITING => 1 | PH_RUNNING => 2 | PH_RUNNING_QUEUED => 3
  end.

Definition phase_eqb (p q : Phase) : bool := phase_code p =? phase_code q.

(** Twisted's [DelayedCall], the object [reactor.callLater] returns.  The
    reactor and the debouncer share the one object, so its state is kept
    in one place. *)
Record DelayedCall := {
  dc_time : Z;            (* absolute time at which the call is due *)
  dc_cancelled : bool;
  dc_called : bool
}.

Definition dc_active (c : DelayedCall) : bool :=
  negb (dc_cancelled c) && negb (dc_called c).

Definition callLater (now delay : Z) : DelayedCall :=
  {| dc_time := now + delay; dc_cancelled := false; dc_called := false |}.

(** [DelayedCall.reset] and [DelayedCall.cancel] *)
Definition dc_reset (now delay : Z) (c : DelayedCall) : res DelayedCall :=
  if dc_cancelled c then Raise AlreadyCancelled
  else if dc_called c then Raise AlreadyCalled
  else Ret {| dc_time := now + delay; dc_cancelled := false; dc_called := false |}.

Definition dc_cancel (c : DelayedCall) : res DelayedCall :=
  if dc_cancelled c then Raise AlreadyCancelled
  else if dc_called c then Raise AlreadyCalled
  else Ret {| dc_time := dc_time c; dc_cancelled := true; dc_called := false |}.

(** What one call of the wrapped [function] does: return a plain value,
    raise, or hand back a Deferred that has not fired yet. *)
Inductive outcome := Returns | Raises | Pending.

(** The slots of [Debouncer] ([function] and [get_reactor] are the
    environment below). Completion deferreds are named by numbers. *)
Record Debouncer := {
  wait : Z;
  until_idle : bool;
  phase : Phase;
  timer : option DelayedCall;
  stopped : bool;
  completeDeferreds : list nat
}.

(** The debouncer together with what surrounds it: the reactor clock, the
    number of times [function] was called, how many of its Deferreds are
    still outstanding, the failures handed to [log.err], the completion
    deferreds that were called back (oldest first) and the next fresh
    deferred. *)
Record World := {
  self : Debouncer;
  seconds : Z;
  invocations : nat;
  in_flight : nat;
  logged : nat;
  fired : list nat;
  next_deferred : nat
}.

Definition init (wait0 : Z) (until_idle0 : bool) : Debouncer :=
  {| wait := wait0; until_idle := until_idle0; phase := PH_IDLE;
     timer := None; stopped := false; completeDeferreds := [] |}.

Definition boot (wait0 : Z) (until_idle0 : bool) : World :=
  {| self := init wait0 until_idle0; seconds := 0; invocations := 0;
     in_flight := 0; logged := 0; fired := []; next_deferred := 0 |}.

Definition set_phase (p : Phase) (d : Debouncer) : Debouncer :=
  {| wait := wait d; until_idle := until_idle d; phase := p;
     timer := timer d; stopped := stopped d;
     completeDeferreds := completeDeferreds d |}.

Definition set_timer (t : option DelayedCall) (d : Debouncer) : Debouncer :=
  {| wait := wait d; until_idle := until_idle d; phase := phase d;
     timer := t; stopped := stopped d;
     completeDeferreds := completeDeferreds d |}.

Definition set_stopped (b : bool) (d : Debouncer) : Debouncer :=
  {| wait := wait d; until_idle := until_idle d; phase := phase d;
     timer := timer d; stopped := b;
     completeDeferreds := completeDeferreds d |}.

Definition set_completeDeferreds (l : list nat) (d : Debouncer) : Debouncer :=
  {| wait := wait d; until_idle := until_idle d; phase := phase d;
     timer := timer d; stopped := stopped d;
     completeDeferreds := l |}.

Definition with_self (d : Debouncer) (w : World) : World :=
  {| self := d; seconds := seconds w; invocations := invocations w;
     in_flight := in_flight w; logged := logged w; fired := fired w;
     next_deferred := next_deferred w |}.

Definition upd_self (f : Debouncer -> Debouncer) (w : World) : World :=
  with_self (f (self w)) w.

(** [self.timer.reset(self.wait)] / [self.timer.cancel()] on a slot that
    may still hold [None] *)
Definition timer_reset (now delay : Z) (t : option DelayedCall) : res DelayedCall :=
  match t with
  | None => Raise AttributeError
  | Some c => dc_reset now delay c
  end.

Definition timer_cancel (t : option DelayedCall) : res DelayedCall :=
  match t with
  | None => Raise AttributeError
  | Some c => dc_cancel c
  end.

(** [Debouncer.__call__] *)
Definition call (w : World) : res World :=
  let d := self w in
  if stopped d then Ret w
  else match phase d with
       | PH_IDLE =>
           Ret (upd_self (fun d => set_phase PH_WAITING
                            (set_timer (Some (callLater (seconds w) (wait d))) d)) w)
       | PH_WAITING =>
           if until_idle d then
             c ← timer_reset (seconds w) (wait d) (timer d);
             Ret (upd_self (set_timer (Some c)) w)
           else Ret w
       | PH_RUNNING => Ret (upd_self (set_phase PH_RUNNING_QUEUED) w)
       | PH_RUNNING_QUEUED => Ret w
       end.

(** [while self.completeDeferreds: self.completeDeferreds.pop(0).callback(None)] *)
Definition release (w : World) : World :=
  {| self := set_completeDeferreds [] (self w); seconds := seconds w;
     invocations := invocations w; in_flight := in_flight w;
     logged := logged w;
     fired := fired w ++ completeDeferreds (self w);
     next_deferred := next_deferred w |}.

(** The callback [retry] that [invoke] attaches to the function's
    Deferred; [invoke_again] is the [self.invoke()] it may call. *)
Definition retry_with (invoke_again : World -> res World) (w : World) : res World :=
  let queued := phase_eqb (phase (self w)) PH_RUNNING_QUEUED in
  let w := upd_self (set_phase PH_IDLE) w in
  if queued && stopped (self w) then invoke_again w
  else
    let w := release w in
    if queued then call w else Ret w.

Definition count_invocation (w : World) : World :=
  {| self := self w; seconds := seconds w; invocations := S (invocations w);
     in_flight := in_flight w; logged := logged w; fired := fired w;
     next_deferred := next_deferred w |}.

Definition add_in_flight (w : World) : World :=
  {| self := self w; seconds := seconds w; invocations := invocations w;
     in_flight := S (in_flight w); logged := logged w; fired := fired w;
     next_deferred := next_deferred w |}.

Definition sub_in_flight (w : World) : World :=
  {| self := self w; seconds := seconds w; invocations := invocations w;
     in_flight := pred (in_flight w); logged := logged w; fired := fired w;
     next_deferred := next_deferred w |}.

Definition log_err (w : World) : World :=
  {| self := self w; seconds := seconds w; invocations := invocations w;
     in_flight := in_flight w; logged := S (logged w); fired := fired w;
     next_deferred := next_deferred w |}.

Section WithFunction.

(** [function k] is what the k-th call of the wrapped function does.  The
    function and the callbacks of the completion deferreds do not call
    back into the debouncer. *)
Variable function : nat -> outcome.

(** [Debouncer.invoke].  A Deferred that has already fired runs [retry]
    at once, inside [invoke]; [depth] bounds the nesting of
    [invoke -> retry -> invoke]. *)
Fixpoint invoke_rec (depth : nat) (w : World) : res World :=
  match depth with
  | O => Raise RecursionError
  | S depth' =>
      let w := upd_self (set_phase PH_RUNNING) w in
      let k := invocations w in
      let w := count_invocation w in
      match function k with
      | Pending => Ret (add_in_flight w)
      | Returns => retry_with (invoke_rec depth') w
      | Raises => retry_with (invoke_rec depth') (log_err w)
      end
  end.

Definition recursion_limit : nat := 1000.

Definition invoke (w : World) : res World := invoke_rec recursion_limit w.

Definition retry (w : World) : res World := retry_with invoke w.

(** [Debouncer.start] *)
Definition start (w : World) : World := upd_self (set_stopped false) w.

(** What [stop] returns: [defer.succeed(None)] or a fresh Deferred. *)
Inductive stop_result := Succeeded | Waiting (d : nat).

Definition new_deferred (w : World) : nat * World :=
  (next_deferred w,
   {| self := self w; seconds := seconds w; invocations := invocations w;
      in_flight := in_flight w; logged := logged w; fired := fired w;
      next_deferred := S (next_deferred w) |}).

(** [Debouncer.stop] *)
Definition stop (w : World) : res (stop_result * World) :=
  let w := upd_self (set_stopped true) w in
  w ← (if phase_eqb (phase (self w)) PH_WAITING then
         c ← timer_cancel (timer (self w));
         invoke (upd_self (set_timer (Some c)) w)
       else Ret w);
  if phase_eqb (phase (self w)) PH_RUNNING
     || phase_eqb (phase (self w)) PH_RUNNING_QUEUED then
    let '(d, w) := new_deferred w in
    Ret (Waiting d,
         upd_self (fun s => set_completeDeferreds (completeDeferreds s ++ [d]) s) w)
  else Ret (Succeeded, w).

(** *** The reactor driving the debouncer *)

(** The Deferred of a running function fires ([failed]: with a Failure,
    which [log.err] consumes); [retry] runs. *)
Definition function_done (failed : bool) (w : World) : res World :=
  retry (sub_in_flight (if failed then log_err w else w)).

Definition set_seconds (t : Z) (w : World) : World :=
  {| self := self w; seconds := t; invocations := invocations w;
     in_flight := in_flight w; logged := logged w; fired := fired w;
     next_deferred := next_deferred w |}.

(** The clock moves on by [dt]; a due, still active timer is marked
    called and [invoke] runs. *)
Definition clock_advance (dt : Z) (w : World) : res World :=
  let w := set_seconds (seconds w + dt) w in
  match timer (self w) with
  | Some c =>
      if dc_active c && (dc_time c <=? seconds w) then
        invoke (upd_self (set_timer
                  (Some {| dc_time := dc_time c; dc_cancelled := false;
                           dc_called := true |})) w)
      else Ret w
  | None => Ret w
  end.

Inductive event :=
| Trigger                 (* the debounced method is called *)
| Stop
| Start
| Advance (dt : Z)
| Done (failed : bool).   (* the running function's Deferred fires *)

Definition step (e : event) (w : World) : res World :=
  match e with
  | Trigger => call w
  | Stop => '(_, w) ← stop w; Ret w
  | Start => Ret (start w)
  | Advance dt => clock_advance dt w
  | Done failed =>
      if (0 <? in_flight w)%nat then function_done failed w else Ret w
  end.

Fixpoint run (es : list event) (w : World) : res World :=
  match es with
  | [] => Ret w
  | e :: es => w ← step e w; run es w
  end.

(** [invoke] spelled out: with a function that does not re-enter the
    debouncer, the [retry] that runs inside [invoke] sees PH_RUNNING. *)
Definition invoke_flat (w : World) : res World :=
  let w1 := count_invocation (upd_self (set_phase PH_RUNNING) w) in
  match function (invocations w) with
  | Pending => Ret (add_in_flight w1)
  | Returns => Ret (release (upd_self (set_phase PH_IDLE) w1))
  | Raises => Ret (release (upd_self (set_phase PH_IDLE) (log_err w1)))
  end.

(** The states a debouncer can be in: what some sequence of events makes
    of a fresh one. *)
Definition reachable (w : World) : Prop :=
  exists wait0 until_idle0 es, run es (boot wait0 until_idle0) = Ret w.

End WithFunction.

Definition timer_is_active (d : Debouncer) : bool :=
  match timer d with
  | Some c => dc_active c
  | None => false
  end.

Definition timer_is_cancelled (d : Debouncer) : bool :=
  match timer d with
  | Some c => dc_cancelled c
  | None => false
  end.

(** A waiting debouncer has a live timer, and every deferred handed out
    so far is older than the next fresh one. *)
Definition wf (w : World) : Prop :=
  (phase (self w) = PH_WAITING -> timer_is_active (self w) = true)
  /\ List.Forall (fun d => (d < next_deferred w)%nat)
                 (completeDeferreds (self w) ++ fired w).

(** A run is outstanding and the completion deferred [d] waits for it. *)
Definition draining (d : nat) (w : World) : Prop :=
  (phase (self w) = PH_RUNNING \/ phase (self w) = PH_RUNNING_QUEUED)
  /\ timer_is_active (self w) = false
  /\ In d (completeDeferreds (self w))
  /\ ~ In d (fired w)
  /\ (0 < in_flight w)%nat.

(** The completion deferred [d] has been called back, or a run is
    outstanding and [d] waits for it. *)
Definition kept (d : nat) (w : World) : Prop := In d (fired w) \/ draining d w.

Definition is_done (e : event) : bool :=
  match e with Done _ => true | _ => false end.

Definition is_start (e : event) : bool :=
  match e with Start => true | _ => false end.

End Debounce.

(* ===================================================================== *)
(** ** db/state.py *)
(* ===================================================================== *)

Module State.

(** Python values as far as the state store looks at them: the JSON
    shapes, and [PyObject] for anything [json.dumps] refuses. *)
#[warnings="-register-all"] Inductive pyvalue :=
| PyNone
| PyBool (b : bool)
| PyInt (z : Z)
| PyStr (s : string)
| PyList (l : list pyvalue)
| PyDict (d : list (string * pyvalue))
| PyObject (addr : nat).

(** [v is None] *)
Definition is_None (v : pyvalue) : bool :=
  match v with PyNone => true | _ => false end.

(** A row of the [objects] table. *)
Record ObjectRow := {
  o_id : Z;
  o_name : string;
  o_class_name : string
}.

(** The database: table [objects] with its auto-increment counter and its
    unique key (name, class_name), and table [object_state], whose unique
    key (objectid, name) maps to the column [value_json]. *)
Record DB := {
  objects : list ObjectRow;
  objects_next_id : Z;
  object_state : gmap (Z * string) string
}.

Inductive stmt :=
| SelectObject (name class_name : string)
| InsertObject (name class_name : string)
| SelectState (objectid : Z) (name : string)
| UpdateState (objectid : Z) (name : string) (value_json : string)
| InsertState (objectid : Z) (name : string) (value_json : string)
| Commit
| Rollback.

(** A connection: the database it talks to and the statements it has
    executed so far, oldest first. *)
Record Conn := {
  db : DB;
  executed : list stmt
}.

(** Code running on a connection: a result or an exception, and the
    connection afterwards. *)
Definition M (A : Type) : Type := Conn -> res A * Conn.

Definition ret {A} (a : A) : M A := fun c => (Ret a, c).
Definition raise {A} (e : exn) : M A := fun c => (Raise e, c).
Definition bind {A B} (m : M A) (k : A -> M B) : M B :=
  fun c => match m c with
           | (Ret a, c') => k a c'
           | (Raise e, c') => (Raise e, c')
           end.

Declare Scope conn_scope.
Delimit Scope conn_scope with conn.
Notation "x <- m ;; k" := (bind m (fun x => k))
  (at level 100, m at next level, right associativity) : conn_scope.
Notation "m ;;; k" := (bind m (fun _ => k))
  (at level 100, right associativity) : conn_scope.
Local Open Scope conn_scope.

(** [try: m  except <handled>: h] *)
Definition try_except {A} (m : M A) (handled : exn -> bool) (h : M A) : M A :=
  fun c => match m c with
           | (Raise e, c') => if handled e then h c' else (Raise e, c')
           | r => r
           end.

Definition is_IdNotFoundError (e : exn) : bool :=
  match e with IdNotFoundError => true | _ => false end.

(** [(sqlalchemy.exc.IntegrityError, sqlalchemy.exc.ProgrammingError)]:
    what the database raises for a violated unique key. *)
Definition is_IntegrityError (e : exn) : bool :=
  match e with IntegrityError => true | _ => false end.

Definition log (s : stmt) (c : Conn) : Conn :=
  {| db := db c; executed := executed c ++ [s] |}.

Definition with_db (d : DB) (c : Conn) : Conn :=
  {| db := d; executed := executed c |}.

Definition commit : M unit := fun c => (Ret tt, log Commit c).
Definition rollback : M unit := fun c => (Ret tt, log Rollback c).

(** *** Statements on [objects] *)

Definition object_matches (name class_name : string) (r : ObjectRow) : bool :=
  String.eqb (o_name r) name && String.eqb (o_class_name r) class_name.

(** [SELECT id FROM objects WHERE name = .. AND class_name = ..] followed
    by [fetchone()] *)
Definition execute_select_object (name class_name : string) : M (option Z) :=
  fun c => (Ret (o_id <$> List.find (object_matches name class_name) (objects (db c))),
            log (SelectObject name class_name) c).

(** [INSERT INTO objects (name, class_name) VALUES ..]; the result is
    [inserted_primary_key[0]]. *)
Definition execute_insert_object (name class_name : string) : M Z :=
  fun c =>
    let d := db c in
    let c := log (InsertObject name class_name) c in
    if existsb (object_matches name class_name) (objects d) then
      (Raise IntegrityError, c)
    else
      let i := objects_next_id d in
      (Ret i,
       with_db {| objects := objects d ++
                    [{| o_id := i; o_name := name; o_class_name := class_name |}];
                  objects_next_id := i + 1;
                  object_state := object_state d |} c).

(** *** Statements on [object_state] *)

Definition execute_select_state (objectid : Z) (name : string) : M (option string) :=
  fun c => (Ret (object_state (db c) !! (objectid, name)),
            log (SelectState objectid name) c).

Definition set_object_state (m : gmap (Z * string) string) (d : DB) : DB :=
  {| objects := objects d; objects_next_id := objects_next_id d;
     object_state := m |}.

(** [UPDATE object_state SET value_json = .. WHERE ..]; the result is
    [rowcount]. *)
Definition execute_update_state (objectid : Z) (name : string)
    (value_json : string) : M Z :=
  fun c =>
    let d := db c in
    let c := log (UpdateState objectid name value_json) c in
    match object_state d !! (objectid, name) with
    | Some _ =>
        (Ret 1, with_db (set_object_state
                           (<[(objectid, name) := value_json]> (object_state d)) d) c)
    | None => (Ret 0, c)
    end.

Definition execute_insert_state (objectid : Z) (name : string)
    (value_json : string) : M unit :=
  fun c =>
    let d := db c in
    let c := log (InsertState objectid name value_json) c in
    match object_state d !! (objectid, name) with
    | Some _ => (Raise IntegrityError, c)
    | None =>
        (Ret tt, with_db (set_object_state
                            (<[(objectid, name) := value_json]> (object_state d)) d) c)
    end.

(** [ObjDict(id=..)] *)
Record ObjDict := { objdict_id : Z }.

(** The [default] argument of [getState]: the class [Thunk] stands for
    "no default given". *)
Inductive Default := Thunk | Given (v : pyvalue).

Section WithEnvironment.

(** [json.loads] ([None]: ValueError) and [json.dumps] ([None]: TypeError
    or ValueError). *)
Variable json_loads : string -> option pyvalue.
Variable json_dumps : pyvalue -> option string.

(** [ensureLength] and [checkLength] of [base.DBConnectorComponent]
    ([db/base.py]), for the columns [objects.name], [objects.class_name]
    and [object_state.name]: the first shortens a value that is too long,
    the second refuses it. *)
Variable ensureLength_objects_name : string -> string.
Variable checkLength_objects_class_name : string -> bool.
Variable ensureLength_object_state_name : string -> string.

(** [_test_timing_hook]: what other processes do to the database at that
    moment ([pass] is the identity). *)
Variable _test_timing_hook : DB -> DB.

Definition timing_hook : M unit :=
  fun c => (Ret tt, with_db (_test_timing_hook (db c)) c).

Definition checkLength (ok : bool) : M unit :=
  if ok then ret tt else raise RuntimeError.

(** The local functions [select] and [insert] of [thdGetObjectId] *)
Definition select (name class_name : string) : M Z :=
  row <- execute_select_object name class_name ;;
  match row with
  | None => raise IdNotFoundError
  | Some i => ret i
  end.

Definition insert (name class_name : string) : M Z :=
  i <- execute_insert_object name class_name ;;
  commit ;;;
  ret i.

(** [StateConnectorComponent.thdGetObjectId] *)
Definition thdGetObjectId (name class_name : string) : M ObjDict :=
  let name := ensureLength_objects_name name in
  checkLength (checkLength_objects_class_name class_name) ;;;
  try_except
    (i <- select name class_name ;; ret {| objdict_id := i |})
    is_IdNotFoundError
    (timing_hook ;;;
     try_except
       (i <- insert name class_name ;; ret {| objdict_id := i |})
       is_IntegrityError
       (rollback ;;;
        i <- select name class_name ;; ret {| objdict_id := i |})).

(** [StateConnectorComponent.thdGetState] *)
Definition thdGetState (objectid : Z) (name : string) (default : Default)
  : M pyvalue :=
  row <- execute_select_state objectid name ;;
  match row with
  | None =>
      match default with
      | Thunk => raise KeyError
      | Given v => ret v
      end
  | Some value_json =>
      match json_loads value_json with
      | Some v => ret v
      | None => raise TypeError
      end
  end.

(** [StateConnectorComponent.thdSetState] *)
Definition thdSetState (objectid : Z) (name : string) (value : pyvalue)
  : M unit :=
  match json_dumps value with
  | None => raise TypeError
  | Some value_json =>
      let name := ensureLength_object_state_name name in
      let update : M bool :=
        rowcount <- execute_update_state objectid name value_json ;;
        commit ;;;
        ret (0 <? rowcount) in
      let insert : M unit :=
        execute_insert_state objectid name value_json ;;;
        commit in
      updated <- update ;;
      if (updated : bool) then ret tt
      else
        timing_hook ;;;
        try_except insert is_IntegrityError rollback
  end.

(** The function [thd] of [StateConnectorComponent.atomicCreateState];
    [thd_create_callback] is any code the caller passes in. *)
Definition atomicCreateState (objectid : Z) (name : string)
    (thd_create_callback : M pyvalue) : M pyvalue :=
  res <- thdGetState objectid name (Given PyNone) ;;
  if is_None res then
    res <- thd_create_callback ;;
    match json_dumps res with
    | None => raise TypeError
    | Some value_json =>
        timing_hook ;;;
        try_except
          (execute_insert_state objectid name value_json ;;;
           commit ;;;
           ret res)
          is_IntegrityError
          (rollback ;;;
           thdGetState objectid name Thunk)
    end
  else ret res.

End WithEnvironment.

(** *** Several callers of [thdGetObjectId] on one database

    A caller is between two of its statements: before the first select,
    before the insert, before the second select, or finished. *)
Inductive pc :=
| AtSelect
| AtInsert
| AtReselect
| Returned (i : Z)
| Failed (e : exn).

(** The next statement of a caller resolving (name, class_name), with
    the control flow of [thdGetObjectId] around it. *)
Definition caller_step (name class_name : string) (p : pc) : M pc :=
  match p with
  | AtSelect =>
      row <- execute_select_object name class_name ;;
      match row with
      | Some i => ret (Returned i)
      | None => ret AtInsert
      end
  | AtInsert =>
      try_except
        (i <- execute_insert_object name class_name ;;
         commit ;;;
         ret (Returned i))
        is_IntegrityError
        (rollback ;;; ret AtReselect)
  | AtReselect =>
      row <- execute_select_object name class_name ;;
      match row with
      | Some i => ret (Returned i)
      | None => ret (Failed IdNotFoundError)
      end
  | Returned i => ret (Returned i)
  | Failed e => ret (Failed e)
  end.

(** The database and the callers sharing it. *)
Record System := {
  conn : Conn;
  callers : list pc
}.

(** Caller [i] executes its next statement. *)
Definition schedule_one (name class_name : string) (i : nat) (s : System) : System :=
  match callers s !! i with
  | None => s
  | Some p =>
      match caller_step name class_name p (conn s) with
      | (Ret p', c) => {| conn := c; callers := <[i := p']> (callers s) |}
      | (Raise e, c) => {| conn := c; callers := <[i := Failed e]> (callers s) |}
      end
  end.

(** A schedule names the caller that moves next, step after step. *)
Definition schedule (name class_name : string) (sched : list nat) (s : System) : System :=
  fold_left (fun s i => schedule_one name class_name i s) sched s.

(** Every row of [object_state] in [d] is in [d'] with the same value. *)
Definition keeps_rows (d d' : DB) : Prop :=
  forall k v, object_state d !! k = Some v -> object_state d' !! k = Some v.

(** The id [select] finds for (name, class_name) in the database. *)
Definition current_id (name class_name : string) (d : DB) : option Z :=
  o_id <$> List.find (object_matches name class_name) (objects d).

(** How far a caller has come. *)
Definition progress (p : pc) : nat :=
  match p with
  | AtSelect => 0
  | AtInsert => 1
  | AtReselect => 2
  | Returned _ | Failed _ => 3
  end.

(** What holds of every caller while callers of [thdGetObjectId] share
    the database: a returned id is the one stored for the pair, and a
    caller whose insert was refused finds a row. *)
Definition consistent (name class_name : string) (s : System) : Prop :=
  forall i p, callers s !! i = Some p ->
    match p with
    | Returned x => current_id name class_name (db (conn s)) = Some x
    | AtReselect => current_id name class_name (db (conn s)) <> None
    | Failed _ => False
    | AtSelect | AtInsert => True
    end.

(** A codec for the JSON atoms [null], [true], [false] and the strings
    of digits, enough to run the definitions on examples. *)
Definition atom_loads (s : string) : option pyvalue :=
  if String.eqb s "null" then Some PyNone
  else if String.eqb s "true" then Some (PyBool true)
  else if String.eqb s "false" then Some (PyBool false)
  else if String.eqb s "0" then Some (PyInt 0)
  else if String.eqb s "1" then Some (PyInt 1)
  else if String.eqb s "2" then Some (PyInt 2)
  else None.

Definition atom_dumps (v : pyvalue) : option string :=
  match v with
  | PyNone => Some "null"%string
  | PyBool true => Some "true"%string
  | PyBool false => Some "false"%string
  | PyInt 0 => Some "0"%string
  | PyInt 1 => Some "1"%string
  | PyInt 2 => Some "2"%string
  | _ => None
  end.

(** What a caller may rely on at its program point. *)
Definition good (name class_name : string) (p : pc) (d : DB) : Prop :=
  match p with
  | Returned x => current_id name class_name d = Some x
  | AtReselect => current_id name class_name d <> None
  | Failed _ => False
  | AtSelect | AtInsert => True
  end.

(** Databases and environments for the examples. *)
Definition empty_db : DB :=
  {| objects := []; objects_next_id := 1; object_state := ∅ |}.

Definition connect (d : DB) : Conn := {| db := d; executed := [] |}.

(** another process stores ["2"] under (132, "k") *)
Definition racing_writer (d : DB) : DB :=
  set_object_state (<[(132, "k"%string) := "2"%string]> (object_state d)) d.

(** a database in which (132, "k") holds the JSON text [null] *)
Definition null_stored : DB :=
  {| objects := []; objects_next_id := 1;
     object_state := {[ (132, "k"%string) := "null"%string ]} |}.

(** another master inserts ("test", "Nightly") first *)
Definition racing_master (d : DB) : DB :=
  {| objects := objects d ++ [{| o_id := objects_next_id d; o_name := "test";
                                 o_class_name := "Nightly" |}];
     objects_next_id := objects_next_id d + 1;
     object_state := object_state d |}.

End State.

(* ===================================================================== *)
(** ** The Nightly scheduler of test_timed_Nightly.py *)
(* ===================================================================== *)

Module Nightly.

(** *** Wall-clock time *)

Record struct_tm := {
  tm_year : Z;
  tm_mon : Z;      (* 1..12 *)
  tm_mday : Z;     (* 1..31 *)
  tm_hour : Z;
  tm_min : Z;
  tm_sec : Z;
  tm_wday : Z      (* Monday is 0 *)
}.

(** Year, month and day of the day that lies [days] days after
    1970-01-01 (proleptic Gregorian calendar). *)
Definition civil_from_days (days : Z) : Z * Z * Z :=
  let z := days + 719468 in
  let era := z / 146097 in
  let doe := z - era * 146097 in
  let yoe := (doe - doe / 1460 + doe / 36524 - doe / 146096) / 365 in
  let doy := doe - (365 * yoe + yoe / 4 - yoe / 100) in
  let mp := (5 * doy + 2) / 153 in
  let d := doy - (153 * mp + 2) / 5 + 1 in
  let m := if mp <? 10 then mp + 3 else mp - 9 in
  let y := yoe + era * 400 + (if m <=? 2 then 1 else 0) in
  (y, m, d).

Definition gmtime (t : Z) : struct_tm :=
  let days := t / 86400 in
  let rem := t mod 86400 in
  let '(y, m, d) := civil_from_days days in
  {| tm_year := y; tm_mon := m; tm_mday := d;
     tm_hour := rem / 3600; tm_min := (rem mod 3600) / 60;
     tm_sec := rem mod 60;
     tm_wday := (days + 3) mod 7 |}.

(** [time.localtime] on a host whose zone lies [timezone] seconds west
    of UTC ([time.timezone]) at every instant: a zone of one fixed
    offset, whose rules never changed and that has no daylight saving
    time at [t]. *)
Definition localtime (timezone : Z) (t : Z) : struct_tm :=
  gmtime (t - timezone).

(** [time.localtime] on any host: the zone is [utcoffset t] seconds east
    of UTC at the instant [t], which need not be [- time.timezone] (the
    offset the zone has now, outside daylight saving time). *)
Definition localtime_at (utcoffset : Z -> Z) (t : Z) : struct_tm :=
  gmtime (t + utcoffset t).

(** *** Calendar specifications *)

(** Modelled from the spec: one field of a calendar spec of the Nightly
    scheduler ([schedulers/timed.py] is not among the sources): ['*'] or
    a list of allowed values. *)
Inductive field := Any | OneOf (l : list Z).

(** Modelled from the spec: set membership of a value in a field of a
    calendar spec ([schedulers/timed.py] is not among the sources). *)
Definition allows (f : field) (v : Z) : bool :=
  match f with
  | Any => true
  | OneOf l => existsb (Z.eqb v) l
  end.

(** Modelled from the spec: a calendar spec of the Nightly scheduler
    ([schedulers/timed.py] is not among the sources), with the keyword
    names the tests pass to its constructor. *)
Record Calendar := {
  minute : field;
  hour : field;
  dayOfMonth : field;
  month : field;
  dayOfWeek : field
}.

(** Modelled from the spec: the calendar match of the Nightly scheduler
    ([schedulers/timed.py] is not among the sources).  All fields are to
    hold at once; a restricted day-of-month and a restricted day-of-week
    are alternatives of each other; fire times are whole minutes. *)
Definition day_allowed (cal : Calendar) (tm : struct_tm) : bool :=
  match dayOfMonth cal, dayOfWeek cal with
  | OneOf dm, OneOf dw =>
      existsb (Z.eqb (tm_mday tm)) dm || existsb (Z.eqb (tm_wday tm)) dw
  | dm, dw => allows dm (tm_mday tm) && allows dw (tm_wday tm)
  end.

(** Modelled from the spec: when a local time satisfies a calendar spec
    of the Nightly scheduler ([schedulers/timed.py] is not among the
    sources). *)
Definition matches (cal : Calendar) (tm : struct_tm) : bool :=
  (tm_sec tm =? 0)
  && allows (minute cal) (tm_min tm)
  && allows (hour cal) (tm_hour tm)
  && allows (month cal) (tm_mon tm)
  && day_allowed cal tm.

(** Modelled from the spec: the search behind the next-fire computation
    ([schedulers/timed.py] is not among the sources): the first matching
    time among [t], [t+1], ... ([horizon] of them). *)
Fixpoint first_match (timezone : Z) (cal : Calendar) (horizon : nat) (t : Z)
  : option Z :=
  match horizon with
  | O => None
  | S h =>
      if matches cal (localtime timezone t) then Some t
      else first_match timezone cal h (t + 1)
  end.

(** Modelled from the spec: the next-fire computation of the Nightly
    scheduler ([schedulers/timed.py] is not among the sources): the
    smallest time strictly greater than [now] that matches the calendar,
    looked for up to [horizon] seconds ahead. *)
Definition getNextBuildTime (timezone : Z) (cal : Calendar) (horizon : nat)
    (now : Z) : option Z :=
  first_match timezone cal horizon (now + 1).

(** *** The scheduler *)

(** Modelled from the spec: the configuration of a Nightly scheduler
    ([schedulers/timed.py] is not among the sources), as far as the
    tests set it: the calendar, the force calendar ([force_at_minute]),
    [onlyIfChanged] and [branch]; [timezone] is the host's
    [time.timezone], [horizon] bounds the search for the next fire. *)
Record Config := {
  calendar : Calendar;
  force_at : option Calendar;
  onlyIfChanged : bool;
  branch : option string;
  timezone : Z;
  horizon : nat
}.

(** A change as [makeFakeChange] builds it, by what the scheduler reads. *)
Record Change := {
  number : Z;
  change_branch : option string
}.

(** The calls the tests record in [addBuildsetCalls], by what varies
    between them. *)
Inductive BuildsetCall :=
| addBuildsetForSourceStampsWithDefaults (codebases : list string)
| addBuildsetForChanges (changeids : list Z).

(** Modelled from the spec: the state of a Nightly scheduler
    ([schedulers/timed.py] is not among the sources): the bookmarks of
    section 3 of the specification, what the scheduler keeps in memory
    while it is active, and the calls the tests record. *)
Record Scheduler := {
  enabled : bool;
  (* bookmarks kept in the object state store *)
  last_build : option Z;
  last_only_if_changed : option bool;
  classifications : list (Z * bool);   (* pending changes, in arrival order *)
  (* kept in memory while active *)
  is_first_build : bool;
  lastActuated : option Z;
  actuateAt : option Z;                (* the pending calendar timer *)
  (* what the tests observe *)
  addBuildsetCalls : list BuildsetCall;
  addBuildsetCallTimes : list Z
}.

(** A scheduler as [attachScheduler] and [set_fake_state] leave it:
    attached, not yet activated, over the given bookmarks. *)
Definition attach (last_build0 : option Z) (last_only_if_changed0 : option bool)
    (classifications0 : list (Z * bool)) : Scheduler :=
  {| enabled := true; last_build := last_build0;
     last_only_if_changed := last_only_if_changed0;
     classifications := classifications0;
     is_first_build := false; lastActuated := None; actuateAt := None;
     addBuildsetCalls := []; addBuildsetCallTimes := [] |}.

Definition option_eqb {A} (eqb : A -> A -> bool) (x y : option A) : bool :=
  match x, y with
  | None, None => true
  | Some a, Some b => eqb a b
  | _, _ => false
  end.

(** Modelled from the spec: the handlers of the Nightly scheduler
    ([schedulers/timed.py] is not among the sources), after section 4.3
    of the specification; where its wording leaves a choice, the
    expectations of [test_timed_Nightly.py] decide.  Pinned source stamps
    ([createAbsoluteSourceStamps], [lastCodebases]) are left out.

    [scheduleNextBuild] sets the timer: the next fire is looked for from
    the last one (from [now] when there was none) and is never in the
    past, so that a fire missed while the scheduler was down is made up
    for at once, as
    [test_iterations_onlyIfChanged_unimp_changes_existing_sched_changed_only_if_changed]
    expects. *)
Definition scheduleNextBuild (cfg : Config) (now : Z) (s : Scheduler) : Scheduler :=
  let base := match lastActuated s with Some t => t | None => now end in
  let at_ := match getNextBuildTime (timezone cfg) (calendar cfg) (horizon cfg) base with
             | Some t => Some (Z.max t now)
             | None => None
             end in
  {| enabled := enabled s; last_build := last_build s;
     last_only_if_changed := last_only_if_changed s;
     classifications := classifications s;
     is_first_build := is_first_build s; lastActuated := lastActuated s;
     actuateAt := at_;
     addBuildsetCalls := addBuildsetCalls s;
     addBuildsetCallTimes := addBuildsetCallTimes s |}.

(** Modelled from the spec: activation of the Nightly scheduler
    ([schedulers/timed.py] is not among the sources): read [last_build]
    (absent: a new scheduler), schedule the timer; a scheduler that is
    not change-sensitive drops the pending classifications. *)
Definition activate (cfg : Config) (now : Z) (s : Scheduler) : Scheduler :=
  if negb (enabled s) then s
  else
    scheduleNextBuild cfg now
      {| enabled := enabled s; last_build := last_build s;
         last_only_if_changed := last_only_if_changed s;
         classifications := if onlyIfChanged cfg then classifications s else [];
         is_first_build := match last_build s with None => true | Some _ => false end;
         lastActuated := last_build s;
         actuateAt := None;
         addBuildsetCalls := addBuildsetCalls s;
         addBuildsetCallTimes := addBuildsetCallTimes s |}.

(** Modelled from the spec: deactivation of the Nightly scheduler
    ([schedulers/timed.py] is not among the sources): the timer is
    cancelled, the bookmarks stay. *)
Definition deactivate (s : Scheduler) : Scheduler :=
  if negb (enabled s) then s
  else
    {| enabled := enabled s; last_build := last_build s;
       last_only_if_changed := last_only_if_changed s;
       classifications := classifications s;
       is_first_build := is_first_build s; lastActuated := lastActuated s;
       actuateAt := None;
       addBuildsetCalls := addBuildsetCalls s;
       addBuildsetCallTimes := addBuildsetCallTimes s |}.

(** Modelled from the spec: the change handler of the Nightly scheduler
    ([schedulers/timed.py] is not among the sources): a change on another
    branch is ignored, any other is recorded with its importance. *)
Definition gotChange (cfg : Config) (change : Change) (important : bool)
    (s : Scheduler) : Scheduler :=
  if option_eqb String.eqb (change_branch change) (branch cfg) then
    {| enabled := enabled s; last_build := last_build s;
       last_only_if_changed := last_only_if_changed s;
       classifications := classifications s ++ [(number change, important)];
       is_first_build := is_first_build s; lastActuated := lastActuated s;
       actuateAt := actuateAt s;
       addBuildsetCalls := addBuildsetCalls s;
       addBuildsetCallTimes := addBuildsetCallTimes s |}
  else s.

(** Modelled from the spec: the policy-transition test of the Nightly
    scheduler ([schedulers/timed.py] is not among the sources): a policy
    was recorded and differs from the configured one.  A bookmark that
    was never written counts as matching, as
    [test_iterations_onlyIfChanged_no_changes_existing_scheduler_update_to_v3_5_0]
    expects. *)
Definition policy_changed (cfg : Config) (s : Scheduler) : bool :=
  match last_only_if_changed s with
  | Some recorded => negb (Bool.eqb recorded (onlyIfChanged cfg))
  | None => false
  end.

(** Modelled from the spec: the force calendar of the Nightly scheduler
    ([schedulers/timed.py] is not among the sources): a fire is forced
    when its time matches the force calendar, as the two [force_at] tests
    expect. *)
Definition forced (cfg : Config) (fire_time : Z) : bool :=
  match force_at cfg with
  | Some cal => matches cal (localtime (timezone cfg) fire_time)
  | None => false
  end.

(** Modelled from the spec: the emit decision of the Nightly scheduler
    ([schedulers/timed.py] is not among the sources).  Section 4.3 names
    an important pending change, a force fire and a policy transition;
    the first fire of a new scheduler is the fourth cause, as
    [test_iterations_onlyIfChanged_no_changes_new_scheduler] expects. *)
Definition should_emit (cfg : Config) (fire_time : Z) (s : Scheduler) : bool :=
  if onlyIfChanged cfg then
    existsb snd (classifications s)
    || forced cfg fire_time
    || policy_changed cfg s
    || is_first_build s
  else true.

(** Modelled from the spec: the fire action of the Nightly scheduler
    ([schedulers/timed.py] is not among the sources); [seconds] is the
    reactor clock, [fire_time] the time the timer was set for. *)
Definition startBuild (cfg : Config) (seconds fire_time : Z) (s : Scheduler)
  : Scheduler :=
  if negb (enabled s) then s
  else if should_emit cfg fire_time s then
    let with_changes :=
      onlyIfChanged cfg && negb (Nat.eqb (List.length (classifications s)) 0) in
    {| enabled := enabled s; last_build := last_build s;
       last_only_if_changed := Some (onlyIfChanged cfg);
       classifications := if with_changes then [] else classifications s;
       is_first_build := false; lastActuated := lastActuated s;
       actuateAt := actuateAt s;
       addBuildsetCalls :=
         addBuildsetCalls s ++
           [if with_changes
            then addBuildsetForChanges (map fst (classifications s))
            else addBuildsetForSourceStampsWithDefaults [""%string]];
       addBuildsetCallTimes := addBuildsetCallTimes s ++ [seconds] |}
  else
    {| enabled := enabled s; last_build := last_build s;
       last_only_if_changed := Some (onlyIfChanged cfg);
       classifications := classifications s;
       is_first_build := false; lastActuated := lastActuated s;
       actuateAt := actuateAt s;
       addBuildsetCalls := addBuildsetCalls s;
       addBuildsetCallTimes := addBuildsetCallTimes s |}.

(** Modelled from the spec: the timer callback of the Nightly scheduler
    ([schedulers/timed.py] is not among the sources): record the fire in
    [last_build], evaluate it, schedule the next one. *)
Definition actuate (cfg : Config) (seconds : Z) (s : Scheduler) : Scheduler :=
  match actuateAt s with
  | None => s
  | Some fire_time =>
      let s := {| enabled := enabled s; last_build := Some fire_time;
                  last_only_if_changed := last_only_if_changed s;
                  classifications := classifications s;
                  is_first_build := is_first_build s;
                  lastActuated := Some fire_time;
                  actuateAt := None;
                  addBuildsetCalls := addBuildsetCalls s;
                  addBuildsetCallTimes := addBuildsetCallTimes s |} in
      scheduleNextBuild cfg seconds (startBuild cfg seconds fire_time s)
  end.

(** *** The test reactor and the loops of the tests *)

(** The timers that are due at [seconds] run, at most [fuel] of them. *)
Fixpoint run_due (fuel : nat) (cfg : Config) (seconds : Z) (s : Scheduler)
  : Scheduler :=
  match fuel with
  | O => s
  | S fuel' =>
      match actuateAt s with
      | Some t =>
          if t <=? seconds then run_due fuel' cfg seconds (actuate cfg seconds s)
          else s
      | None => s
      end
  end.

(** [reactor.advance(dt)] from clock [seconds]: each fire moves the
    timer on by a second or more, so [dt + 1] runs are enough. *)
Definition advance (cfg : Config) (seconds dt : Z) (s : Scheduler) : Z * Scheduler :=
  (seconds + dt, run_due (S (Z.to_nat dt)) cfg (seconds + dt) s).

(** [time_offset] and [long_ago_time] of the test class *)
Definition localtime_offset (timezone : Z) : Z := timezone mod 3600.
Definition time_offset (timezone : Z) : Z := 86400 * 10 + localtime_offset timezone.
Definition long_ago_time : Z := 86400.

(** [while changes_at and seconds >= time_offset + changes_at[0][0]: ...] *)
Fixpoint inject (cfg : Config) (seconds : Z) (changes_at : list (Z * Change * bool))
    (s : Scheduler) : list (Z * Change * bool) * Scheduler :=
  match changes_at with
  | (at_, newchange, important) :: rest =>
      if time_offset (timezone cfg) + at_ <=? seconds then
        inject cfg seconds rest (gotChange cfg newchange important s)
      else (changes_at, s)
  | [] => ([], s)
  end.

(** [while self.reactor.seconds() < self.time_offset + limit: ...], the
    loop of the end-to-end tests: changes that are due are delivered, the
    clock moves on by a minute; at most [rounds] times. *)
Fixpoint minute_loop (rounds : nat) (cfg : Config) (limit seconds : Z)
    (changes_at : list (Z * Change * bool)) (s : Scheduler) : Z * Scheduler :=
  match rounds with
  | O => (seconds, s)
  | S rounds' =>
      if seconds <? time_offset (timezone cfg) + limit then
        let '(changes_at, s) := inject cfg seconds changes_at s in
        let '(seconds, s) := advance cfg seconds 60 s in
        minute_loop rounds' cfg limit seconds changes_at s
      else (seconds, s)
  end.

(** An end-to-end test: the bookmarks are set, the service starts at
    [time_offset], [reactor.advance(0)], then the loop up to [limit]. *)
Definition run_test (cfg : Config) (limit : Z) (is_new_scheduler : bool)
    (last_only_if_changed0 : option bool)
    (classifications0 : list (Z * bool))
    (changes_at : list (Z * Change * bool)) : Scheduler :=
  let seconds := time_offset (timezone cfg) in
  let s := attach (if is_new_scheduler then None else Some long_ago_time)
                  last_only_if_changed0 classifications0 in
  let s := activate cfg seconds s in
  let '(seconds, s) := advance cfg seconds 0 s in
  snd (minute_loop (S (Z.to_nat (limit / 60))) cfg limit seconds changes_at s).

(** [do_test_iterations_onlyIfChanged] followed by
    [do_test_iterations_onlyIfChanged_test], and the loop of
    [test_iterations_simple]: half an hour. *)
Definition do_test_iterations (cfg : Config) : bool -> option bool ->
    list (Z * bool) -> list (Z * Change * bool) -> Scheduler :=
  run_test cfg (30 * 60).

(** [makeScheduler(name='test', builderNames=['test'], branch=..,
    minute=.., onlyIfChanged=.., force_at_minute=..)] *)
Definition minutes (l : list Z) : Calendar :=
  {| minute := OneOf l; hour := Any; dayOfMonth := Any; month := Any;
     dayOfWeek := Any |}.

Definition makeScheduler (tz : Z) (branch0 : option string) (minute0 : list Z)
    (onlyIfChanged0 : bool) (force_at_minute : option (list Z)) : Config :=
  {| calendar := minutes minute0;
     force_at := minutes <$> force_at_minute;
     onlyIfChanged := onlyIfChanged0;
     branch := branch0;
     timezone := tz;
     horizon := 3600 |}.

(** [makeFakeChange(number=.., branch=..)] *)
Definition makeFakeChange (number0 : Z) (branch0 : option string) : Change :=
  {| number := number0; change_branch := branch0 |}.

(** What happens to an active scheduler: its calendar timer fires while
    the reactor clock reads [seconds], or a change is delivered. *)
Inductive signal :=
| Tick (seconds : Z)
| GotChange (change : Change) (important : bool).

Definition deliver (cfg : Config) (e : signal) (s : Scheduler) : Scheduler :=
  match e with
  | Tick seconds => actuate cfg seconds s
  | GotChange change important => gotChange cfg change important s
  end.

Definition play (cfg : Config) (es : list signal) (s : Scheduler) : Scheduler :=
  fold_left (fun s e => deliver cfg e s) es s.

(** The configurations, changes and expected calls of the tests. *)
Definition simple_config (tz : Z) : Config :=
  makeScheduler tz None [10; 20; 21; 40; 50; 51] false None.

Definition onlyIfChanged_config (tz : Z) (force_at_minute : option (list Z)) : Config :=
  makeScheduler tz None [5; 25; 45] true force_at_minute.

Definition mixed_changes : list (Z * Change * bool) :=
  [(120, makeFakeChange 500 None, false);
   (130, makeFakeChange 501 (Some "offbranch"%string), true);
   (1200, makeFakeChange 502 None, true);
   (1201, makeFakeChange 503 None, false);
   (1202, makeFakeChange 504 (Some "offbranch"%string), true)].

Definition unimportant_changes : list (Z * Change * bool) :=
  [(60, makeFakeChange 500 None, false);
   (600, makeFakeChange 501 None, false)].

Definition latest : BuildsetCall := addBuildsetForSourceStampsWithDefaults [""%string].

(** The call times as the tests report them, relative to [time_offset]. *)
Definition reported_times (cfg : Config) (s : Scheduler) : list Z :=
  map (fun t => t - time_offset (timezone cfg)) (addBuildsetCallTimes s).

(** Nothing important is pending, the recorded policy does not differ
    from the configured one and the first build is behind. *)
Definition settled (cfg : Config) (s : Scheduler) : Prop :=
  is_first_build s = false
  /\ policy_changed cfg s = false
  /\ existsb snd (classifications s) = false.

(** An enabled scheduler past its first build, with matching policy, with
    [cl] pending, that has requested no build yet. *)
Definition waiting_with (cfg : Config) (cl : list (Z * bool)) (s : Scheduler) : Prop :=
  enabled s = true /\ is_first_build s = false
  /\ policy_changed cfg s = false
  /\ classifications s = cl /\ addBuildsetCalls s = [].

(** The changes among [es] that are on the configured branch, with
    their importance, in the order they arrive. *)
Definition pending_of (cfg : Config) (es : list signal) : list (Z * bool) :=
  flat_map (fun e =>
              match e with
              | GotChange change important =>
                  if option_eqb String.eqb (change_branch change) (branch cfg)
                  then [(number change, important)] else []
              | Tick _ => []
              end) es.

(** The five changes of the mixed-changes scenario in their order: on
    the branch and unimportant, off the branch, on the branch and
    important, on the branch and unimportant, off the branch; the timer
    fires [ts1] .. [ts4] fall between them. *)
Definition arrivals (cfg : Config) (n1 n2 n3 n4 n5 : Z) (b2 b5 : option string)
    (ts1 ts2 ts3 ts4 : list Z) : list signal :=
  [GotChange {| number := n1; change_branch := branch cfg |} false] ++
  map Tick ts1 ++
  [GotChange {| number := n2; change_branch := b2 |} true] ++
  map Tick ts2 ++
  [GotChange {| number := n3; change_branch := branch cfg |} true] ++
  map Tick ts3 ++
  [GotChange {| number := n4; change_branch := branch cfg |} false] ++
  map Tick ts4 ++
  [GotChange {| number := n5; change_branch := b5 |} true].

(** Every absolute time the scheduler holds, moved by [delta]. *)
Definition shift (delta : Z) (s : Scheduler) : Scheduler :=
  {| enabled := enabled s;
     last_build := Z.add delta <$> last_build s;
     last_only_if_changed := last_only_if_changed s;
     classifications := classifications s;
     is_first_build := is_first_build s;
     lastActuated := Z.add delta <$> lastActuated s;
     actuateAt := Z.add delta <$> actuateAt s;
     addBuildsetCalls := addBuildsetCalls s;
     addBuildsetCallTimes := map (Z.add delta) (addBuildsetCallTimes s) |}.

End Nightly.

(* ===================================================================== *)
(** ** The debouncer: invariants, bursts of triggers, the descriptor *)
(* ===================================================================== *)

Module DebounceAux.
Import Debounce.

(** The wrapped function has been called and its Deferred has not fired. *)
Definition is_running (d : Debouncer) : bool :=
  phase_eqb (phase d) PH_RUNNING || phase_eqb (phase d) PH_RUNNING_QUEUED.

(** The timer is live exactly while waiting, and a Deferred of the
    function is outstanding exactly while running. *)
Definition balanced (w : World) : Prop :=
  (timer_is_active (self w) = true <-> phase (self w) = PH_WAITING)
  /\ in_flight w = (if is_running (self w) then 1 else 0)%nat.

Definition set_logged (n : nat) (w : World) : World :=
  {| self := self w; seconds := seconds w; invocations := invocations w;
     in_flight := in_flight w; logged := n; fired := fired w;
     next_deferred := next_deferred w |}.

(** A function that returns where [function] raises, and the events of a
    run in which no Deferred fails. *)
Definition calm (o : outcome) : outcome :=
  match o with Raises => Returns | _ => o end.

Definition calm_event (e : event) : event :=
  match e with Done _ => Done false | _ => e end.

(** Two results that agree up to what was handed to [log.err]. *)
Definition same_but_logged (r1 r2 : res World) : Prop :=
  match r1, r2 with
  | Ret w1, Ret w2 => set_logged 0 w1 = set_logged 0 w2
  | Raise e1, Raise e2 => e1 = e2
  | _, _ => False
  end.

(** Triggers that follow a first one, each after a pause. *)
Fixpoint bursts (dts : list Z) : list event :=
  match dts with
  | [] => []
  | dt :: dts => Advance dt :: Trigger :: bursts dts
  end.

Fixpoint total (dts : list Z) : Z :=
  match dts with
  | [] => 0
  | dt :: dts => dt + total dts
  end.

End DebounceAux.

(** [_Descriptor] and [method] of [util/debounce.py] *)
Module Descriptor.
Import Debounce.

(** The attributes of an instance that hold debouncers, by name.  The
    debouncer is one shared object: what a caller does to the debouncer
    [__get__] returned is an update of the attribute. *)
Abbreviation instance := (gmap string Debouncer).

(** [_Descriptor] ([fn] and [get_reactor] are the environment of
    [Debounce]) *)
Record _Descriptor := {
  d_wait : Z;
  attrName : string;
  d_until_idle : bool
}.

(** [_Descriptor.__get__]: the debouncer handed out and the instance
    afterwards. *)
Definition __get__ (d : _Descriptor) (inst : instance) : Debouncer * instance :=
  match inst !! attrName d with
  | Some db => (db, inst)
  | None =>
      let db := init (d_wait d) (d_until_idle d) in
      (db, <[attrName d := db]> inst)
  end.

(** [method(wait, until_idle)(fn)], with [fn_name] for [fn.__name__] *)
Definition method (wait0 : Z) (until_idle0 : bool) (fn_name : string) : _Descriptor :=
  {| d_wait := wait0;
     attrName := String.append "__debounce_" (String.append fn_name "__");
     d_until_idle := until_idle0 |}.

End Descriptor.

(* ===================================================================== *)
(** ** The state store: ids, and callers of atomicCreateState *)
(* ===================================================================== *)

Module StateAux.
Import State.
Local Open Scope conn_scope.

(** The auto-increment counter of [objects] is ahead of every id in the
    table, and no id is used twice (the primary key). *)
Definition ids_fresh (d : DB) : Prop :=
  List.Forall (fun r => o_id r < objects_next_id d) (objects d)
  /\ List.NoDup (List.map o_id (objects d)).

(** *** Several callers of [atomicCreateState] on one row

    A caller is before its first read, before its insert (holding the
    value its callback made and the encoding), before the second read,
    or finished. *)
Inductive creator :=
| ToRead
| ToInsert (res : pyvalue) (value_json : string)
| ToReread
| Got (v : pyvalue)
| GaveUp (e : exn).

(** The next statement of a caller of [atomicCreateState] whose callback
    returns [value], with the control flow of [thd] around it. *)
Definition creator_step (json_loads : string -> option pyvalue)
    (json_dumps : pyvalue -> option string) (objectid : Z) (name : string)
    (value : pyvalue) (p : creator) : M creator :=
  match p with
  | ToRead =>
      res <- thdGetState json_loads objectid name (Given PyNone) ;;
      if is_None res then
        match json_dumps value with
        | None => raise TypeError
        | Some value_json => ret (ToInsert value value_json)
        end
      else ret (Got res)
  | ToInsert res value_json =>
      try_except
        (execute_insert_state objectid name value_json ;;;
         commit ;;;
         ret (Got res))
        is_IntegrityError
        (rollback ;;; ret ToReread)
  | ToReread =>
      v <- thdGetState json_loads objectid name Thunk ;;
      ret (Got v)
  | Got v => ret (Got v)
  | GaveUp e => ret (GaveUp e)
  end.

(** The connection and the callers sharing it, each with the value its
    callback returns. *)
Record Creators := {
  shared : Conn;
  creators : list (pyvalue * creator)
}.

(** Caller [i] executes its next statement. *)
Definition create_one (json_loads : string -> option pyvalue)
    (json_dumps : pyvalue -> option string) (objectid : Z) (name : string)
    (i : nat) (s : Creators) : Creators :=
  match creators s !! i with
  | None => s
  | Some (value, p) =>
      match creator_step json_loads json_dumps objectid name value p (shared s) with
      | (Ret p', c) =>
          {| shared := c; creators := <[i := (value, p')]> (creators s) |}
      | (Raise e, c) =>
          {| shared := c; creators := <[i := (value, GaveUp e)]> (creators s) |}
      end
  end.

Definition create_schedule (json_loads : string -> option pyvalue)
    (json_dumps : pyvalue -> option string) (objectid : Z) (name : string)
    (sched : list nat) (s : Creators) : Creators :=
  fold_left (fun s i => create_one json_loads json_dumps objectid name i s) sched s.

(** What a caller may rely on at its program point. *)
Definition creator_good (json_loads : string -> option pyvalue)
    (json_dumps : pyvalue -> option string) (objectid : Z) (name : string)
    (p : creator) (d : DB) : Prop :=
  match p with
  | ToRead => True
  | ToInsert res value_json =>
      json_dumps res = Some value_json /\ json_loads value_json = Some res
  | ToReread => object_state d !! (objectid, name) <> None
  | Got v => exists value_json,
      object_state d !! (objectid, name) = Some value_json
      /\ json_loads value_json = Some v
  | GaveUp _ => False
  end.

Definition creator_progress (p : creator) : nat :=
  match p with
  | ToRead => 0
  | ToInsert _ _ => 1
  | ToReread => 2
  | Got _ | GaveUp _ => 3
  end.

(** The row decodes if it is there, every callback value survives the
    codec, and every caller is at a good point. *)
Definition creators_consistent (json_loads : string -> option pyvalue)
    (json_dumps : pyvalue -> option string) (objectid : Z) (name : string)
    (s : Creators) : Prop :=
  (forall value_json,
     object_state (db (shared s)) !! (objectid, name) = Some value_json ->
     exists v, json_loads value_json = Some v)
  /\ forall i value p, creators s !! i = Some (value, p) ->
       (exists value_json, json_dumps value = Some value_json
                           /\ json_loads value_json = Some value)
       /\ creator_good json_loads json_dumps objectid name p (db (shared s)).

End StateAux.

(* ===================================================================== *)
(** ** www/hooks/poller.py *)
(* ===================================================================== *)

Module Poller.

(** A member of [change_svc], as far as [getChanges] looks at it:
    whether it is a [ReconfigurablePollingChangeSource], and its [name]
    ([None]: no such attribute). *)
Record Source := {
  is_polling_source : bool;
  source_name : option string
}.

Definition mem (n : string) (l : list string) : bool := existsb (String.eqb n) l.

(** The loop over [change_svc]: [poller] is [req.args[b'poller']] when
    the request has that argument, [allowed] is [options[b'allowed']]
    when the options are a dict with that key. *)
Definition keep (poller allowed : option (list string)) (source : Source) : bool :=
  is_polling_source source &&
  match source_name source with
  | None => false
  | Some n =>
      match poller with Some requested => mem n requested | None => true end
      && match allowed with Some l => mem n l | None => true end
  end.

Definition pollers (change_svc : list Source) (poller allowed : option (list string))
  : list Source :=
  List.filter (keep poller allowed) change_svc.

Definition names (l : list Source) : list string :=
  omap source_name l.

(** [set(req.args[b'poller']) - set(unicode2bytes(s.name) for s in pollers)],
    in the order of the request *)
Definition missing (requested : list string) (found : list Source) : list string :=
  List.filter (fun n => negb (mem n (names found))) requested.

(** What [getChanges] does: it raises ValueError naming the missing
    pollers, or calls [force()] on the pollers in turn and returns. *)
Inductive result :=
| ValueError (not_found : list string)
| Forced (sources : list Source).

(** [PollingHandler.getChanges] *)
Definition getChanges (change_svc : list Source)
    (poller allowed : option (list string)) : result :=
  let found := pollers change_svc poller allowed in
  match poller with
  | Some requested =>
      match missing requested found with
      | [] => Forced found
      | not_found => ValueError not_found
      end
  | None => Forced found
  end.

End Poller.

(* ===================================================================== *)
(** ** Properties of the debouncer *)
(* ===================================================================== *)

Module DebounceFacts.
Import Debounce.

Section Facts.
Variable function : nat -> outcome.

Lemma phase_eqb_eq p q : phase_eqb p q = true <-> p = q.
Proof. destruct p, q; cbv; split; congruence. Qed.

Lemma retry_with_not_queued k w :
  phase (self w) <> PH_RUNNING_QUEUED ->
  retry_with k w = Ret (release (upd_self (set_phase PH_IDLE) w)).
Proof.
  intros Hp. unfold retry_with.
  destruct (phase_eqb (phase (self w)) PH_RUNNING_QUEUED) eqn:E.
  - apply phase_eqb_eq in E. contradiction.
  - reflexivity.
Qed.

Lemma invoke_rec_flat n w : invoke_rec function (S n) w = invoke_flat function w.
Proof.
  unfold invoke_flat. cbn [invoke_rec].
  destruct (function _); try reflexivity;
    apply retry_with_not_queued; cbn; discriminate.
Qed.

(** [invoke] never runs into the recursion limit. *)
Lemma invoke_flat_eq w : invoke function w = invoke_flat function w.
Proof. apply invoke_rec_flat. Qed.

Lemma function_done_running failed w :
  phase (self w) = PH_RUNNING ->
  function_done function failed w =
    Ret (release (upd_self (set_phase PH_IDLE)
           (sub_in_flight (if failed then log_err w else w)))).
Proof.
  intros Hp. unfold function_done, retry.
  apply retry_with_not_queued. destruct failed; cbn; rewrite Hp; discriminate.
Qed.

Lemma run_app es1 es2 w :
  run function (es1 ++ es2) w = (w' ← run function es1 w; run function es2 w').
Proof.
  revert w. induction es1 as [|e es1 IH]; intros w; cbn; [reflexivity|].
  destruct (step function e w); cbn; [apply IH | reflexivity].
Qed.

Lemma run_triggers_stopped n w :
  stopped (self w) = true -> run function (repeat Trigger n) w = Ret w.
Proof.
  intros Hs. induction n as [|n IH]; cbn; [reflexivity|].
  unfold call. rewrite Hs. cbn. exact IH.
Qed.

End Facts.

Local Arguments invoke : simpl never.
(** *** Every reachable state is well formed, and no event raises *)

Section WellFormed.
Variable function : nat -> outcome.

Lemma Forall_lt_S (l : list nat) n :
  List.Forall (fun d => (d < n)%nat) l -> List.Forall (fun d => (d < S n)%nat) l.
Proof. apply List.Forall_impl. intros; lia. Qed.

Ltac ids :=
  repeat match goal with
         | H : List.Forall _ (_ ++ _) |- _ => apply List.Forall_app in H; destruct H
         | H : List.Forall _ (_ :: _) |- _ => inversion H; subst; clear H
         | |- List.Forall _ (_ ++ _) => apply List.Forall_app; split
         | |- List.Forall _ (_ :: _) => constructor
         | |- List.Forall _ [] => constructor
         | |- List.Forall (fun d => (d < S _)%nat) _ => apply Forall_lt_S
         end; try assumption; try lia.

Ltac break w :=
  destruct w as [[wt ui ph tm st cd] sec inv infl lg fr nd].

Lemma wf_boot wait0 ui0 : wf (boot wait0 ui0).
Proof. split; [discriminate | constructor]. Qed.

Lemma call_wf w : wf w -> exists w', call w = Ret w' /\ wf w'.
Proof.
  break w. intros [Ht Hi]. unfold call, wf in *. cbn in *.
  destruct st; [eexists; split; [reflexivity | split; assumption]|].
  destruct ph; cbn.
  - eexists; split; [reflexivity|]. split; cbn; [reflexivity | ids].
  - specialize (Ht eq_refl). unfold timer_is_active in Ht. cbn in Ht.
    destruct tm as [[t c k]|]; [|discriminate].
    unfold dc_active in Ht. cbn in Ht. destruct c, k; try discriminate.
    destruct ui; cbn; eexists; (split; [reflexivity|]); split; cbn; try reflexivity; ids.
  - eexists; split; [reflexivity|]. split; cbn; [discriminate | ids].
  - eexists; split; [reflexivity|]. split; cbn; [discriminate | ids].
Qed.

Lemma invoke_wf w :
  List.Forall (fun d => (d < next_deferred w)%nat)
              (completeDeferreds (self w) ++ fired w) ->
  exists w', invoke function w = Ret w' /\ wf w'
    /\ (phase (self w') = PH_RUNNING \/ phase (self w') = PH_IDLE).
Proof.
  break w. intros Hi. rewrite invoke_flat_eq. unfold invoke_flat. cbn in *.
  destruct (function inv); eexists; (split; [reflexivity|]); (split; [split|]); cbn;
    try discriminate; try (left; reflexivity); try (right; reflexivity); ids.
Qed.

Lemma retry_wf w : wf w -> exists w', retry function w = Ret w' /\ wf w'.
Proof.
  intros Hw. unfold retry, retry_with.
  destruct (phase_eqb (phase (self w)) PH_RUNNING_QUEUED
            && stopped (self (upd_self (set_phase PH_IDLE) w))) eqn:E.
  - destruct (invoke_wf (upd_self (set_phase PH_IDLE) w)) as (w' & H1 & H2 & _).
    { apply Hw. }
    eauto.
  - destruct (phase_eqb (phase (self w)) PH_RUNNING_QUEUED) eqn:Eq.
    + apply call_wf. destruct Hw as [_ Hi]. break w.
      split; cbn in *; [discriminate | ids].
    + eexists; split; [reflexivity|]. destruct Hw as [_ Hi]. break w.
      split; cbn in *; [discriminate | ids].
Qed.

Lemma function_done_wf failed w :
  wf w -> exists w', function_done function failed w = Ret w' /\ wf w'.
Proof.
  intros Hw. apply retry_wf. destruct Hw as [Ht Hi]. break w.
  destruct failed; split; cbn in *; auto.
Qed.

Lemma stop_wf w : wf w -> exists h w', stop function w = Ret (h, w') /\ wf w'.
Proof.
  intros [Ht Hi]. unfold stop.
  destruct (phase_eqb (phase (self (upd_self (set_stopped true) w))) PH_WAITING) eqn:E.
  - apply phase_eqb_eq in E. cbn in E. specialize (Ht E).
    unfold timer_is_active in Ht. break w. cbn in *.
    destruct tm as [[t c k]|]; [|discriminate].
    unfold dc_active in Ht. cbn in Ht. destruct c, k; try discriminate.
    cbn -[invoke].
    match goal with |- context [invoke function ?x] =>
      destruct (invoke_wf x) as (w' & H1 & [H2 H2'] & H3) end.
    { cbn. exact Hi. }
    rewrite H1. cbn. destruct w' as [[? ? ph' ? ? ?] ? ? ? ? ? ?]. cbn in *.
    destruct H3 as [-> | ->]; cbn; do 2 eexists; (split; [reflexivity|]);
      split; cbn; try discriminate; ids.
  - cbn. break w. cbn in *.
    destruct ph; try discriminate; cbn; do 2 eexists; (split; [reflexivity|]);
      split; cbn; try discriminate; ids.
Qed.
End WellFormed.

Section Reachable.
Variable function : nat -> outcome.
Lemma clock_advance_wf dt w :
  wf w -> exists w', clock_advance function dt w = Ret w' /\ wf w'.
Proof.
  intros [Ht Hi]. unfold clock_advance.
  destruct (timer (self (set_seconds (seconds w + dt) w))) as [c|] eqn:Etm.
  - destruct (dc_active c && (dc_time c <=? seconds (set_seconds (seconds w + dt) w))).
    + match goal with |- context [invoke function ?x] =>
        destruct (invoke_wf function x) as (w' & H1 & H2 & _) end.
      { exact Hi. }
      eauto.
    + eexists; split; [reflexivity|]. split; [exact Ht | exact Hi].
  - eexists; split; [reflexivity|]. split; [exact Ht | exact Hi].
Qed.

Lemma step_wf e w : wf w -> exists w', step function e w = Ret w' /\ wf w'.
Proof.
  intros Hw. destruct e; cbn -[stop clock_advance function_done].
  - now apply call_wf.
  - destruct (stop_wf function w Hw) as (h & w' & H1 & H2). rewrite H1. cbn. eauto.
  - eexists; split; [reflexivity|]. destruct Hw as [Ht Hi]. split; [exact Ht | exact Hi].
  - now apply clock_advance_wf.
  - destruct (in_flight w); [eauto | now apply function_done_wf].
Qed.

Lemma run_wf es w : wf w -> exists w', run function es w = Ret w' /\ wf w'.
Proof.
  revert w. induction es as [|e es IH]; intros w Hw; cbn -[step]; [eauto|].
  destruct (step_wf e w Hw) as (w1 & H1 & Hw1). rewrite H1. cbn -[step]. now apply IH.
Qed.

Lemma reachable_wf w : reachable function w -> wf w.
Proof.
  intros (wait0 & ui0 & es & Hr).
  destruct (run_wf es _ (wf_boot wait0 ui0)) as (w' & H1 & Hw).
  congruence.
Qed.
End Reachable.

(** *** While a run is outstanding *)

Section Draining.
Variable function : nat -> outcome.

Lemma draining_step d e w :
  draining d w -> is_done e = false ->
  exists w', step function e w = Ret w' /\ draining d w'
    /\ (is_start e = false -> stopped (self w) = true -> phase (self w) = PH_RUNNING ->
        stopped (self w') = true /\ phase (self w') = PH_RUNNING).
Proof.
  intros (Hp & Ht & Hc & Hf & Hn) He.
  destruct w as [[wt ui ph tm st cd] sec inv infl lg fr nd]. cbn in *.
  destruct e; try discriminate; cbn.
  - unfold call; cbn.
    destruct st; [eexists; split; [reflexivity|]; repeat split; auto|].
    destruct Hp as [-> | ->]; cbn; eexists; (split; [reflexivity|]);
      repeat split; cbn; auto; try discriminate.
  - unfold stop; cbn.
    destruct Hp as [-> | ->]; cbn; eexists; (split; [reflexivity|]);
      repeat split; cbn; auto; try (apply List.in_or_app; auto); try discriminate.
  - eexists; split; [reflexivity|]. repeat split; cbn; auto; try discriminate.
  - unfold clock_advance; cbn. unfold timer_is_active in Ht; cbn in Ht.
    destruct tm as [c|]; [rewrite Ht; cbn|];
      eexists; (split; [reflexivity|]); repeat split; cbn; auto.
Qed.

Lemma draining_run d es w :
  draining d w -> forallb (fun e => negb (is_done e)) es = true ->
  exists w', run function es w = Ret w' /\ draining d w'.
Proof.
  revert w. induction es as [|e es IH]; intros w Hd Hes; cbn -[step]; [eauto|].
  cbn in Hes. apply andb_prop in Hes as [He Hes]. apply negb_true_iff in He.
  destruct (draining_step d e w Hd He) as (w1 & H1 & Hd1 & _).
  rewrite H1. cbn -[step]. now apply IH.
Qed.

Lemma draining_run_stopped d es w :
  draining d w -> stopped (self w) = true -> phase (self w) = PH_RUNNING ->
  forallb (fun e => negb (is_done e || is_start e)) es = true ->
  exists w', run function es w = Ret w' /\ draining d w'
    /\ stopped (self w') = true /\ phase (self w') = PH_RUNNING.
Proof.
  revert w. induction es as [|e es IH]; intros w Hd Hs Hp Hes; cbn -[step]; [eauto|].
  cbn in Hes. apply andb_prop in Hes as [He Hes].
  apply negb_true_iff, orb_false_iff in He as [He1 He2].
  destruct (draining_step d e w Hd He1) as (w1 & H1 & Hd1 & Hk).
  destruct (Hk He2 Hs Hp) as [Hs1 Hp1].
  rewrite H1. cbn -[step]. now apply IH.
Qed.

Lemma draining_done d failed w :
  draining d w -> phase (self w) = PH_RUNNING ->
  exists w', step function (Done failed) w = Ret w' /\ In d (fired w').
Proof.
  intros (_ & _ & Hc & _ & Hn) Hp. cbn -[function_done].
  destruct (in_flight w) eqn:E; [lia|]. cbn -[function_done].
  rewrite function_done_running by assumption.
  eexists; split; [reflexivity|].
  destruct failed; cbn; apply List.in_or_app; right; assumption.
Qed.
End Draining.

(** *** A completion deferred is never lost *)

Section Kept.
Variable function : nat -> outcome.

Lemma call_fired w w' : call w = Ret w' -> fired w' = fired w.
Proof.
  destruct w as [[wt ui ph tm st cd] sec inv infl lg fr nd]. unfold call. cbn.
  destruct st; [intros [= <-]; reflexivity|].
  destruct ph; cbn; try (intros [= <-]; reflexivity).
  destruct ui; [|intros [= <-]; reflexivity].
  destruct (timer_reset sec wt tm); cbn; [intros [= <-]; reflexivity | discriminate].
Qed.

Lemma invoke_fired w w' :
  invoke function w = Ret w' -> forall d, In d (fired w) -> In d (fired w').
Proof.
  rewrite invoke_flat_eq. unfold invoke_flat.
  destruct (function (invocations w)); intros [= <-] d Hd; cbn;
    try (apply List.in_or_app; left); exact Hd.
Qed.

Lemma retry_fired w w' :
  retry function w = Ret w' -> forall d, In d (fired w) -> In d (fired w').
Proof.
  unfold retry, retry_with.
  destruct (phase_eqb (phase (self w)) PH_RUNNING_QUEUED
            && stopped (self (upd_self (set_phase PH_IDLE) w))).
  - intros H d Hd. eapply invoke_fired; [exact H | exact Hd].
  - destruct (phase_eqb (phase (self w)) PH_RUNNING_QUEUED).
    + intros H d Hd. rewrite (call_fired _ _ H). cbn.
      apply List.in_or_app. left. exact Hd.
    + intros [= <-] d Hd. cbn. apply List.in_or_app. left. exact Hd.
Qed.

Lemma step_fired e w w' :
  step function e w = Ret w' -> forall d, In d (fired w) -> In d (fired w').
Proof.
  destruct e; cbn -[stop clock_advance function_done].
  - intros H d Hd. now rewrite (call_fired _ _ H).
  - unfold stop.
    destruct (phase_eqb (phase (self (upd_self (set_stopped true) w))) PH_WAITING).
    + destruct (timer_cancel _) as [c|]; cbn -[invoke]; [|discriminate].
      destruct (invoke function _) as [w1|] eqn:E; cbn; [|discriminate].
      pose proof (invoke_fired _ _ E) as Hf.
      destruct (phase_eqb (phase (self w1)) PH_RUNNING
                || phase_eqb (phase (self w1)) PH_RUNNING_QUEUED);
        cbn; intros H d Hd; injection H as H; subst w'; cbn; apply Hf; exact Hd.
    + cbn.
      destruct (phase_eqb (phase (self w)) PH_RUNNING
                || phase_eqb (phase (self w)) PH_RUNNING_QUEUED);
        cbn; intros H d Hd; injection H as H; subst w'; exact Hd.
  - intros [= <-] d Hd. exact Hd.
  - unfold clock_advance.
    destruct (timer (self (set_seconds (seconds w + dt) w))) as [c|];
      [|intros [= <-] d Hd; exact Hd].
    destruct (dc_active c && _); [|intros [= <-] d Hd; exact Hd].
    intros H d Hd. eapply invoke_fired; [exact H | exact Hd].
  - destruct (in_flight w); [intros [= <-] d Hd; exact Hd|].
    unfold function_done. intros H d Hd. eapply retry_fired; [exact H|].
    destruct failed; exact Hd.
Qed.

Lemma draining_done_kept d failed w :
  draining d w ->
  exists w', step function (Done failed) w = Ret w' /\ kept d w'.
Proof.
  intros (Hp & Ht & Hc & Hf & Hn).
  destruct w as [[wt ui ph tm st cd] sec inv infl lg fr nd]. cbn in *.
  destruct infl as [|infl]; [lia|]. cbn -[invoke].
  unfold function_done, retry, retry_with.
  destruct Hp as [-> | ->].
  - destruct failed; (eexists; split; [reflexivity|]);
      left; cbn; apply List.in_or_app; right; exact Hc.
  - destruct st.
    + assert (Hinv : forall w0,
                phase (self w0) = PH_IDLE -> timer_is_active (self w0) = false ->
                In d (completeDeferreds (self w0)) -> ~ In d (fired w0) ->
                exists w', invoke function w0 = Ret w' /\ kept d w').
      { intros w0 H1 H2 H3 H4. rewrite invoke_flat_eq. unfold invoke_flat.
        destruct (function (invocations w0)); eexists; (split; [reflexivity|]).
        - left. cbn. apply List.in_or_app. right. exact H3.
        - left. cbn. apply List.in_or_app. right. exact H3.
        - right. repeat split; cbn; auto; lia. }
      destruct failed; cbn -[invoke]; apply Hinv; cbn; auto.
    + unfold call. destruct failed; cbn; eexists; (split; [reflexivity|]);
        left; cbn; apply List.in_or_app; right; exact Hc.
Qed.

Lemma kept_step d e w :
  wf w -> kept d w -> exists w', step function e w = Ret w' /\ wf w' /\ kept d w'.
Proof.
  intros Hw Hk. destruct (step_wf function e w Hw) as (w' & H1 & Hw').
  exists w'. split; [exact H1|]. split; [exact Hw'|].
  destruct Hk as [Hf | Hd].
  - left. eapply step_fired; eauto.
  - destruct (is_done e) eqn:E.
    + destruct e; try discriminate.
      destruct (draining_done_kept d failed w Hd) as (w2 & H2 & Hk2). congruence.
    + destruct (draining_step function d e w Hd E) as (w2 & H2 & Hd2 & _).
      right. congruence.
Qed.

Lemma kept_run d es : forall w,
  wf w -> kept d w -> exists w', run function es w = Ret w' /\ kept d w'.
Proof.
  induction es as [|e es IH]; intros w Hw Hk; cbn -[step]; [eauto|].
  destruct (kept_step d e w Hw Hk) as (w1 & H1 & Hw1 & Hk1).
  rewrite H1. cbn -[step]. now apply IH.
Qed.
End Kept.


(** C10.  A trigger on a stopped debouncer returns at once and leaves the
    whole state as it was, whatever the phase; any number of such
    triggers is forgotten, so that after [start] the state is the one
    [start] alone would have produced. *)
Theorem stopped_trigger_is_dropped (function : nat -> outcome) (w : World) :
  stopped (self w) = true ->
  call w = Ret w
  /\ (forall n, run function (repeat Trigger n) w = Ret w)
  /\ (forall n, run function (repeat Trigger n ++ [Start]) w = Ret (start w))
  /\ stopped (self (start w)) = false.
Proof.
  intros Hs. repeat split.
  - unfold call. now rewrite Hs.
  - intros n. now apply run_triggers_stopped.
  - intros n. rewrite run_app, run_triggers_stopped by assumption. reflexivity.
Qed.

Lemma stopped_trigger_is_dropped_witness :
  let w := {| self := {| wait := 5; until_idle := true; phase := PH_RUNNING;
                         timer := None; stopped := true;
                         completeDeferreds := [0%nat] |};
              seconds := 7; invocations := 1; in_flight := 1; logged := 0;
              fired := []; next_deferred := 1 |} in
  call w = Ret w.
Proof.
  intros w.
  exact (proj1 (stopped_trigger_is_dropped (fun _ => Pending) w eq_refl)).
Defined.

(** C1, amended.  When the action completes in phase PH_RUNNING_QUEUED:
    - on a stopped debouncer the action is invoked again at once, the
      phase never becomes PH_WAITING, the timer is not touched and no
      completion deferred is called back; they are called back when the
      queued run finishes;
    - on a debouncer that is not stopped all completion deferreds are
      called back, a new timer for [wait] is started and the phase is
      PH_WAITING; the action is not invoked then, and the queued run
      happens when that timer fires: a clock advance that stays short of
      [wait] invokes nothing, one that reaches it invokes the action
      once. *)
Theorem completion_while_queued (function : nat -> outcome) (failed : bool)
    (w : World) :
  phase (self w) = PH_RUNNING_QUEUED ->
  (stopped (self w) = true ->
   exists w',
     function_done function failed w = Ret w'
     /\ invocations w' = S (invocations w)
     /\ phase (self w') <> PH_WAITING
     /\ timer (self w') = timer (self w)
     /\ (function (invocations w) = Pending ->
         phase (self w') = PH_RUNNING
         /\ completeDeferreds (self w') = completeDeferreds (self w)
         /\ fired w' = fired w
         /\ forall failed', exists w'',
              function_done function failed' w' = Ret w''
              /\ phase (self w'') = PH_IDLE
              /\ completeDeferreds (self w'') = []
              /\ fired w'' = fired w ++ completeDeferreds (self w))
     /\ (function (invocations w) <> Pending ->
         phase (self w') = PH_IDLE
         /\ completeDeferreds (self w') = []
         /\ fired w' = fired w ++ completeDeferreds (self w)))
  /\ (stopped (self w) = false ->
      exists w',
        function_done function failed w = Ret w'
        /\ invocations w' = invocations w
        /\ phase (self w') = PH_WAITING
        /\ timer (self w') = Some (callLater (seconds w) (wait (self w)))
        /\ completeDeferreds (self w') = []
        /\ fired w' = fired w ++ completeDeferreds (self w)
        /\ forall dt, exists w'',
             clock_advance function dt w' = Ret w''
             /\ invocations w'' =
                  (if wait (self w) <=? dt then S (invocations w)
                   else invocations w)
             /\ (dt < wait (self w) -> w'' = set_seconds (seconds w + dt) w')
             /\ (wait (self w) <= dt -> phase (self w'') <> PH_WAITING)).
Proof.
  intros Hq. split; intros Hs.
  - assert (Hd : function_done function failed w =
                 invoke_flat function
                   (upd_self (set_phase PH_IDLE)
                      (sub_in_flight (if failed then log_err w else w)))).
    { unfold function_done, retry, retry_with.
      destruct failed; cbn -[invoke]; rewrite Hq, Hs; cbn -[invoke];
        apply DebounceFacts.invoke_flat_eq. }
    rewrite Hd. unfold invoke_flat.
    replace (invocations _) with (invocations w) by (destruct failed; reflexivity).
    destruct failed;
      (destruct (function (invocations w)) eqn:Ef; eexists; (split; [reflexivity|]);
       (repeat split; try reflexivity; try discriminate; try congruence);
       intros failed'; eexists;
       (split; [apply DebounceFacts.function_done_running; reflexivity|]);
       repeat split; destruct failed'; reflexivity).
  - assert (Hd : function_done function failed w =
                 Ret (upd_self (fun d => set_phase PH_WAITING
                         (set_timer (Some (callLater (seconds w) (wait d))) d))
                        (release (upd_self (set_phase PH_IDLE)
                           (sub_in_flight (if failed then log_err w else w)))))).
    { unfold function_done, retry, retry_with, call.
      destruct failed; cbn; rewrite Hq, Hs; reflexivity. }
    rewrite Hd. eexists. split; [reflexivity|].
    split; [destruct failed; reflexivity|]. split; [reflexivity|].
    split; [destruct failed; reflexivity|]. split; [reflexivity|].
    split; [destruct failed; reflexivity|].
    intros dt. unfold clock_advance.
    replace (timer (self (set_seconds _ _)))
      with (Some (callLater (seconds w) (wait (self w))))
      by (destruct failed; reflexivity).
    replace (dc_active (callLater (seconds w) (wait (self w)))
             && (dc_time (callLater (seconds w) (wait (self w)))
                 <=? seconds (set_seconds _ _)))
      with (wait (self w) <=? dt).
    2:{ destruct failed; cbn;
          (destruct (wait (self w) <=? dt) eqn:E; symmetry;
           [apply Z.leb_le; apply Z.leb_le in E | apply Z.leb_gt; apply Z.leb_gt in E];
           lia). }
    destruct (wait (self w) <=? dt) eqn:E.
    + apply Z.leb_le in E.
      rewrite DebounceFacts.invoke_flat_eq. unfold invoke_flat.
      destruct failed;
        (destruct (function _); eexists; (split; [reflexivity|]);
         (split; [reflexivity|]); (split; [intros; lia | intros _; discriminate])).
    + apply Z.leb_gt in E. eexists. split; [reflexivity|].
      split; [destruct failed; reflexivity|].
      split; [intros _; destruct failed; reflexivity | intros; lia].
Qed.

(** The state after: trigger, timer elapsed, stop, start, trigger; the
    action is running, one run is queued, one party waits for completion. *)
Definition queued_not_stopped : World :=
  {| self := {| wait := 5; until_idle := false; phase := PH_RUNNING_QUEUED;
                timer := Some {| dc_time := 5; dc_cancelled := false;
                                 dc_called := true |};
                stopped := false; completeDeferreds := [0%nat] |};
     seconds := 5; invocations := 1; in_flight := 1; logged := 0;
     fired := []; next_deferred := 1 |}.

Lemma completion_while_queued_witness :
  exists w',
    function_done (fun _ => Pending) false queued_not_stopped = Ret w'
    /\ invocations w' = 1%nat
    /\ phase (self w') = PH_WAITING
    /\ timer (self w') = Some (callLater 5 5)
    /\ completeDeferreds (self w') = []
    /\ fired w' = [0%nat]
    /\ (exists w'', clock_advance (fun _ => Pending) 4 w' = Ret w''
                    /\ invocations w'' = 1%nat)
    /\ (exists w'', clock_advance (fun _ => Pending) 5 w' = Ret w''
                    /\ invocations w'' = 2%nat).
Proof.
  destruct (proj2 (completion_while_queued (fun _ => Pending) false
                     queued_not_stopped eq_refl) eq_refl)
    as (w' & H1 & H2 & H3 & H4 & H5 & H6 & H7).
  exists w'. do 6 (split; [assumption|]). split.
  - destruct (H7 4) as (w'' & Ha & Hb & _). exists w''. split; [exact Ha | exact Hb].
  - destruct (H7 5) as (w'' & Ha & Hb & _). exists w''. split; [exact Ha | exact Hb].
Defined.

(** C1 as the specification words it fails on a debouncer that is not
    stopped: after trigger, timer, stop, start, trigger the phase is
    PH_RUNNING_QUEUED; when the action then completes it is not invoked
    again, the phase is PH_WAITING and the waiting deferred is called
    back before the queued run has even started. *)
Lemma completion_while_queued_counterexample :
  run (fun _ => Pending) [Trigger; Advance 5; Stop; Start; Trigger]
      (boot 5 false) = Ret queued_not_stopped
  /\ exists w',
       function_done (fun _ => Pending) false queued_not_stopped = Ret w'
       /\ invocations w' = invocations queued_not_stopped
       /\ phase (self w') = PH_WAITING
       /\ fired w' = [0%nat]
       /\ ~ (invocations w' = S (invocations queued_not_stopped)
             /\ phase (self w') <> PH_WAITING
             /\ fired w' = fired queued_not_stopped).
Proof.
  split; [reflexivity|].
  eexists. split; [reflexivity|].
  repeat split. intros (H & _). discriminate H.
Qed.

(** C9.  On a debouncer in phase PH_WAITING, [stop] sets [stopped],
    cancels the timer and invokes the action at once.  If the action is
    still running when [stop] returns, the phase is PH_RUNNING and the
    handle is a fresh deferred: it is not called back by anything that
    happens before the action completes, it is called back when the
    action completes, and whatever happens it has either been called back
    or a run, the first or one queued since, is still outstanding.  If the action completed inside the call, the phase
    is PH_IDLE and the handle has already succeeded.  In phase PH_IDLE
    [stop] only sets [stopped] and the handle has already succeeded. *)
Theorem stop_flushes_pending_call (function : nat -> outcome) (w : World) :
  reachable function w ->
  (phase (self w) = PH_WAITING ->
   exists h w',
     stop function w = Ret (h, w')
     /\ stopped (self w') = true
     /\ timer_is_cancelled (self w') = true
     /\ invocations w' = S (invocations w)
     /\ (function (invocations w) = Pending ->
         phase (self w') = PH_RUNNING
         /\ exists d,
              h = Waiting d
              /\ ~ In d (fired w')
              /\ (forall es,
                    forallb (fun e => negb (is_done e)) es = true ->
                    exists w'', run function es w' = Ret w'' /\ ~ In d (fired w''))
              /\ (forall es failed,
                    forallb (fun e => negb (is_done e || is_start e)) es = true ->
                    exists w'', run function (es ++ [Done failed]) w' = Ret w''
                                /\ In d (fired w''))
              /\ (forall es,
                    exists w'', run function es w' = Ret w''
                                /\ (In d (fired w'') \/ draining d w'')))
     /\ (function (invocations w) <> Pending ->
         phase (self w') = PH_IDLE /\ h = Succeeded
         /\ fired w' = fired w ++ completeDeferreds (self w)))
  /\ (phase (self w) = PH_IDLE ->
      stop function w = Ret (Succeeded, upd_self (set_stopped true) w)).
Proof.
  intros Hr. apply reachable_wf in Hr. destruct Hr as [Ht Hi].
  destruct w as [[wt ui ph tm st cd] sec inv infl lg fr nd]. cbn in *.
  split; intros ->; [|reflexivity].
  specialize (Ht eq_refl). unfold timer_is_active in Ht. cbn in Ht.
  destruct tm as [[t c k]|]; [|discriminate].
  destruct c, k; try discriminate. clear Ht.
  unfold stop. cbn -[invoke]. rewrite invoke_flat_eq. unfold invoke_flat. cbn.
  destruct (function inv) eqn:Ef; cbn; do 2 eexists;
    do 4 (split; [reflexivity|]); (split; intros Hf; try congruence);
    try (repeat split; reflexivity).
  split; [reflexivity|]. eexists. split; [reflexivity|].
  assert (Hfresh : ~ In nd fr).
  { intros Hin. apply List.Forall_app in Hi as [_ Hi].
    rewrite List.Forall_forall in Hi. specialize (Hi _ Hin). lia. }
  match goal with |- context [run function _ ?x] =>
    assert (Hd : draining nd x) end.
  { repeat split; cbn; auto; try lia. apply List.in_or_app. right. left. reflexivity. }
  repeat split.
  - exact Hfresh.
  - intros es Hes. destruct (draining_run function nd es _ Hd Hes) as (w'' & H1 & H2).
    exists w''. split; [exact H1|]. apply H2.
  - intros es failed Hes.
    destruct (draining_run_stopped function nd es _ Hd eq_refl eq_refl Hes)
      as (w1 & H1 & H2 & H3 & H4).
    destruct (draining_done function nd failed w1 H2 H4) as (w2 & H5 & H6).
    exists w2. split; [|exact H6].
    rewrite run_app, H1. cbn -[step]. rewrite H5. reflexivity.
  - intros es. apply kept_run; [|right; exact Hd].
    split; cbn; [discriminate|].
    apply List.Forall_app in Hi as [Hi1 Hi2].
    repeat (apply List.Forall_app; split);
      try (eapply List.Forall_impl; [|eassumption]; cbn; intros; lia).
    constructor; [lia | constructor].
Qed.

Lemma stop_flushes_pending_call_witness :
  exists h w',
    stop (fun _ => Pending)
         (upd_self (fun d => set_phase PH_WAITING
                      (set_timer (Some (callLater 0 5)) d)) (boot 5 false))
    = Ret (h, w')
    /\ stopped (self w') = true
    /\ timer_is_cancelled (self w') = true
    /\ invocations w' = 1%nat.
Proof.
  assert (Hr : reachable (fun _ => Pending)
                 (upd_self (fun d => set_phase PH_WAITING
                      (set_timer (Some (callLater 0 5)) d)) (boot 5 false))).
  { exists 5, false, [Trigger]. reflexivity. }
  destruct (stop_flushes_pending_call (fun _ => Pending) _ Hr) as [H _].
  destruct (H eq_refl) as (h & w' & H1 & H2 & H3 & H4 & _).
  exists h, w'. repeat split; assumption.
Defined.

End DebounceFacts.

(* ===================================================================== *)
(** ** Properties of the object state store *)
(* ===================================================================== *)

Module StateFacts.
Import State.
Local Open Scope conn_scope.

Section GetState.
Variable json_loads : string -> option pyvalue.

Lemma thdGetState_absent objectid name default c :
  object_state (db c) !! (objectid, name) = None ->
  thdGetState json_loads objectid name default c =
    (match default with Thunk => Raise KeyError | Given v => Ret v end,
     log (SelectState objectid name) c).
Proof.
  intros H. unfold thdGetState, bind, execute_select_state.
  rewrite H. destruct default; reflexivity.
Qed.

Lemma thdGetState_present objectid name default c value_json :
  object_state (db c) !! (objectid, name) = Some value_json ->
  thdGetState json_loads objectid name default c =
    (match json_loads value_json with Some v => Ret v | None => Raise TypeError end,
     log (SelectState objectid name) c).
Proof.
  intros H. unfold thdGetState, bind, execute_select_state.
  rewrite H. destruct (json_loads value_json); reflexivity.
Qed.

Lemma thdGetState_reads_only objectid name default c :
  db (snd (thdGetState json_loads objectid name default c)) = db c
  /\ executed (snd (thdGetState json_loads objectid name default c)) =
       executed c ++ [SelectState objectid name].
Proof.
  destruct (object_state (db c) !! (objectid, name)) eqn:E.
  - rewrite (thdGetState_present _ _ _ _ _ E). split; reflexivity.
  - rewrite (thdGetState_absent _ _ _ _ E). split; reflexivity.
Qed.
End GetState.

(** C8.  With no row stored under (objectid, name), [thdGetState] raises
    KeyError when no default is given and returns the default when one
    is; with a row stored, the result is decoded from the row whatever
    the default; in every case the database is left as it was and the
    only statement executed is the select. *)
Theorem thdGetState_default (json_loads : string -> option pyvalue)
    (objectid : Z) (name : string) (c : Conn) :
  (object_state (db c) !! (objectid, name) = None ->
   thdGetState json_loads objectid name Thunk c =
     (Raise KeyError, log (SelectState objectid name) c)
   /\ forall v, thdGetState json_loads objectid name (Given v) c =
                  (Ret v, log (SelectState objectid name) c))
  /\ (forall value_json,
        object_state (db c) !! (objectid, name) = Some value_json ->
        forall default,
          thdGetState json_loads objectid name default c =
            (match json_loads value_json with
             | Some v => Ret v
             | None => Raise TypeError
             end,
             log (SelectState objectid name) c))
  /\ (forall default,
        db (snd (thdGetState json_loads objectid name default c)) = db c
        /\ executed (snd (thdGetState json_loads objectid name default c)) =
             executed c ++ [SelectState objectid name]).
Proof.
  split; [|split].
  - intros H. split; [|intros v].
    + exact (thdGetState_absent json_loads objectid name Thunk c H).
    + exact (thdGetState_absent json_loads objectid name (Given v) c H).
  - intros value_json H default. now apply thdGetState_present.
  - intros default. apply thdGetState_reads_only.
Qed.

Lemma thdGetState_default_witness :
  thdGetState atom_loads 132 "last_build" Thunk (connect empty_db) =
    (Raise KeyError, log (SelectState 132 "last_build") (connect empty_db))
  /\ thdGetState atom_loads 132 "last_build" (Given (PyInt 0)) (connect empty_db) =
    (Ret (PyInt 0), log (SelectState 132 "last_build") (connect empty_db)).
Proof.
  destruct (thdGetState_default atom_loads 132 "last_build" (connect empty_db))
    as (H & _ & _).
  destruct (H eq_refl) as [H1 H2]. split; [exact H1 | exact (H2 (PyInt 0))].
Defined.

Section Atomic.
Variable json_loads : string -> option pyvalue.
Variable json_dumps : pyvalue -> option string.
Variable hook : DB -> DB.

Lemma is_None_false v : v <> PyNone -> is_None v = false.
Proof. destruct v; cbn; congruence. Qed.

Lemma atomicCreateState_present objectid name cb c value_json v :
  object_state (db c) !! (objectid, name) = Some value_json ->
  json_loads value_json = Some v -> v <> PyNone ->
  atomicCreateState json_loads json_dumps hook objectid name cb c =
    (Ret v, log (SelectState objectid name) c).
Proof.
  intros H Hl Hv. unfold atomicCreateState, bind at 1.
  rewrite (thdGetState_present _ _ _ _ _ _ H), Hl.
  rewrite (is_None_false _ Hv). reflexivity.
Qed.

Lemma atomicCreateState_absent objectid name cb c res c1 value_json :
  object_state (db c) !! (objectid, name) = None ->
  cb (log (SelectState objectid name) c) = (Ret res, c1) ->
  json_dumps res = Some value_json ->
  atomicCreateState json_loads json_dumps hook objectid name cb c =
    match object_state (hook (db c1)) !! (objectid, name) with
    | None =>
        (Ret res,
         log Commit
           (with_db (set_object_state
                       (<[(objectid, name) := value_json]>
                          (object_state (hook (db c1)))) (hook (db c1)))
              (log (InsertState objectid name value_json)
                 (with_db (hook (db c1)) c1))))
    | Some winner =>
        (match json_loads winner with Some v => Ret v | None => Raise TypeError end,
         log (SelectState objectid name)
           (log Rollback
              (log (InsertState objectid name value_json)
                 (with_db (hook (db c1)) c1))))
    end.
Proof.
  intros H Hcb Hd. unfold atomicCreateState, bind at 1.
  rewrite (thdGetState_absent _ _ _ _ _ H). cbn [is_None].
  unfold bind at 1. rewrite Hcb, Hd.
  unfold bind at 1, timing_hook, try_except.
  unfold bind at 1, execute_insert_state. cbn [db log with_db].
  destruct (object_state (hook (db c1)) !! (objectid, name)) eqn:E.
  - cbn [is_IntegrityError]. unfold bind, rollback.
    rewrite (thdGetState_present json_loads objectid name Thunk _ s); [reflexivity|].
    exact E.
  - reflexivity.
Qed.
End Atomic.

Section Keeps.
Variable json_loads : string -> option pyvalue.
Variable json_dumps : pyvalue -> option string.
Variable hook : DB -> DB.

Lemma keeps_rows_refl d : keeps_rows d d.
Proof. intros k v H. exact H. Qed.

Lemma keeps_rows_trans d1 d2 d3 :
  keeps_rows d1 d2 -> keeps_rows d2 d3 -> keeps_rows d1 d3.
Proof. intros H1 H2 k v H. apply H2, H1, H. Qed.

Lemma keeps_rows_insert_absent d k v :
  object_state d !! k = None ->
  keeps_rows d (set_object_state (<[k := v]> (object_state d)) d).
Proof.
  intros Hk k' v' H. cbn.
  destruct (decide (k = k')) as [->|Hne]; [congruence|].
  now rewrite lookup_insert_ne.
Qed.

Lemma atomicCreateState_keeps_rows objectid name cb c :
  (forall c0, keeps_rows (db c0) (db (snd (cb c0)))) ->
  (forall d, keeps_rows d (hook d)) ->
  keeps_rows (db c)
    (db (snd (atomicCreateState json_loads json_dumps hook objectid name cb c))).
Proof.
  intros Hcb Hh. unfold atomicCreateState, bind at 1.
  pose proof (thdGetState_reads_only json_loads objectid name (Given PyNone) c) as [Hdb _].
  destruct (thdGetState json_loads objectid name (Given PyNone) c) as [[v|e] c0];
    cbn [snd] in Hdb |- *; [|rewrite Hdb; apply keeps_rows_refl].
  destruct (is_None v); [|cbn; rewrite Hdb; apply keeps_rows_refl].
  rewrite <- Hdb. clear Hdb. unfold bind at 1.
  specialize (Hcb c0). destruct (cb c0) as [[res|e] c1]; cbn [snd] in Hcb |- *;
    [|exact Hcb].
  destruct (json_dumps res) as [value_json|]; [|exact Hcb].
  eapply keeps_rows_trans; [exact Hcb|].
  eapply keeps_rows_trans; [apply (Hh (db c1))|].
  unfold bind at 1, timing_hook, try_except.
  unfold bind at 1, execute_insert_state. cbn [db log with_db].
  destruct (object_state (hook (db c1)) !! (objectid, name)) eqn:E.
  - cbn [is_IntegrityError]. unfold bind, rollback.
    match goal with |- context [thdGetState ?l ?o ?n ?d ?x] =>
      pose proof (thdGetState_reads_only l o n d x) as [Hdb _] end.
    rewrite Hdb. apply keeps_rows_refl.
  - cbn. now apply keeps_rows_insert_absent.
Qed.
End Keeps.

(** C3, amended.  [atomicCreateState] reads first: a stored value other
    than JSON [null] is returned as it is, whatever the callback would do.
    With no row stored the callback runs and its value is inserted; when
    another writer got in between, the insert is refused, the own value is
    dropped and the stored one is read again and returned.  Rows that
    exist are never changed by the call. *)
Theorem atomicCreateState_keeps_first_value
    (json_loads : string -> option pyvalue)
    (json_dumps : pyvalue -> option string) (hook : DB -> DB)
    (objectid : Z) (name : string) (thd_create_callback : M pyvalue) (c : Conn) :
  let run := atomicCreateState json_loads json_dumps hook objectid name
               thd_create_callback c in
  (forall value_json v,
     object_state (db c) !! (objectid, name) = Some value_json ->
     json_loads value_json = Some v -> v <> PyNone ->
     run = (Ret v, log (SelectState objectid name) c))
  /\ (object_state (db c) !! (objectid, name) = None ->
      forall res c1 value_json,
        thd_create_callback (log (SelectState objectid name) c) = (Ret res, c1) ->
        json_dumps res = Some value_json ->
        match object_state (hook (db c1)) !! (objectid, name) with
        | None =>
            fst run = Ret res
            /\ db (snd run) =
                 set_object_state
                   (<[(objectid, name) := value_json]> (object_state (hook (db c1))))
                   (hook (db c1))
        | Some winner =>
            fst run = match json_loads winner with
                      | Some v => Ret v
                      | None => Raise TypeError
                      end
            /\ db (snd run) = hook (db c1)
        end)
  /\ ((forall c0, keeps_rows (db c0) (db (snd (thd_create_callback c0)))) ->
      (forall d, keeps_rows d (hook d)) ->
      keeps_rows (db c) (db (snd run))).
Proof.
  intros run. split; [|split].
  - intros value_json v H Hl Hv. now apply atomicCreateState_present with value_json.
  - intros H res c1 value_json Hcb Hd. unfold run.
    rewrite (atomicCreateState_absent json_loads json_dumps hook objectid name
               thd_create_callback c res c1 value_json H Hcb Hd).
    destruct (object_state (hook (db c1)) !! (objectid, name)); split; reflexivity.
  - apply atomicCreateState_keeps_rows.
Qed.

Lemma atomicCreateState_keeps_first_value_witness :
  fst (atomicCreateState atom_loads atom_dumps racing_writer 132 "k"
         (ret (PyInt 1)) (connect empty_db)) = Ret (PyInt 2)
  /\ object_state
       (db (snd (atomicCreateState atom_loads atom_dumps racing_writer 132 "k"
                   (ret (PyInt 1)) (connect empty_db)))) !! (132, "k"%string)
     = Some "2"%string.
Proof.
  destruct (atomicCreateState_keeps_first_value atom_loads atom_dumps
              racing_writer 132 "k" (ret (PyInt 1)) (connect empty_db))
    as (_ & H & _).
  specialize (H eq_refl (PyInt 1) _ "1"%string eq_refl eq_refl).
  cbn in H. destruct H as [H1 H2]. split; [exact H1|]. rewrite H2. reflexivity.
Defined.

(** C3 as the specification words it fails for a stored JSON [null]: a
    row is present, yet the callback is invoked (its exception comes out),
    and an insert is attempted before the stored [None] is returned. *)
Lemma atomicCreateState_counterexample :
  object_state null_stored !! (132, "k"%string) = Some "null"%string
  /\ atom_loads "null" = Some PyNone
  /\ fst (atomicCreateState atom_loads atom_dumps (fun d => d) 132 "k"
            (raise RuntimeError) (connect null_stored)) = Raise RuntimeError
  /\ atomicCreateState atom_loads atom_dumps (fun d => d) 132 "k"
       (ret (PyInt 1)) (connect null_stored)
     = (Ret PyNone,
        {| db := null_stored;
           executed := [SelectState 132 "k"; InsertState 132 "k" "1"; Rollback;
                        SelectState 132 "k"] |}).
Proof. repeat split; reflexivity. Qed.

Section Callers.
Variables name class_name : string.

Local Abbreviation cur := (current_id name class_name).

Lemma existsb_find {A} (f : A -> bool) l :
  existsb f l = match List.find f l with Some _ => true | None => false end.
Proof. induction l as [|a l IH]; cbn; [reflexivity|]. destruct (f a); auto. Qed.

Lemma find_app_Some {A} (f : A -> bool) l l' a :
  List.find f l = Some a -> List.find f (l ++ l') = Some a.
Proof. induction l as [|b l IH]; cbn; [discriminate|]. destruct (f b); auto. Qed.

Lemma find_app_None {A} (f : A -> bool) l l' :
  List.find f l = None -> List.find f (l ++ l') = List.find f l'.
Proof.
  induction l as [|b l IH]; cbn; [reflexivity|].
  destruct (f b); [discriminate|auto].
Qed.

Lemma object_matches_refl i :
  object_matches name class_name
    {| o_id := i; o_name := name; o_class_name := class_name |} = true.
Proof. unfold object_matches. cbn. now rewrite !String.eqb_refl. Qed.

Local Abbreviation good := (State.good name class_name).

Lemma good_mono p d d' :
  (forall x, cur d = Some x -> cur d' = Some x) -> good p d -> good p d'.
Proof.
  intros Hm. destruct p; cbn; auto.
  intros H. destruct (cur d) as [x|] eqn:E; [|congruence].
  rewrite (Hm x eq_refl). discriminate.
Qed.

Lemma caller_step_spec p c :
  good p (db c) ->
  exists p' c',
    caller_step name class_name p c = (Ret p', c')
    /\ (forall x, cur (db c) = Some x -> cur (db c') = Some x)
    /\ good p' (db c')
    /\ (progress p < progress p' \/ (progress p = 3 /\ p' = p))%nat.
Proof.
  intros Hg. destruct p; cbn [good caller_step] in Hg |- *.
  - unfold bind, execute_select_object. fold (cur (db c)).
    destruct (cur (db c)) as [x|] eqn:E; do 2 eexists;
      (split; [reflexivity|]); cbn [good progress db log];
      (split; [intros; congruence|]); (split; [auto|]); left; lia.
  - unfold try_except, bind at 1, execute_insert_object. cbn [db log].
    rewrite existsb_find.
    destruct (List.find (object_matches name class_name) (objects (db c))) as [r|] eqn:E.
    + cbn [is_IntegrityError]. do 2 eexists. split; [reflexivity|].
      cbn [good progress db log].
      split; [auto|]. split; [|left; lia].
      unfold current_id. rewrite E. discriminate.
    + do 2 eexists. split; [reflexivity|].
      cbn [good progress db log with_db objects].
      unfold current_id. cbn [objects]. rewrite E.
      rewrite (find_app_None _ _ _ E). cbn [List.find].
      rewrite object_matches_refl.
      split; [discriminate|]. split; [reflexivity|]. left; lia.
  - unfold bind, execute_select_object. fold (cur (db c)).
    destruct (cur (db c)) as [x|] eqn:E; [|congruence].
    do 2 eexists. split; [reflexivity|]. cbn [good progress db log].
    split; [intros; congruence|]. split; [auto|]. left; lia.
  - do 2 eexists. split; [reflexivity|]. cbn [good progress].
    split; [auto|]. split; [auto|]. right; split; reflexivity.
  - contradiction.
Qed.

Lemma consistent_good s :
  consistent name class_name s <->
  (forall i p, callers s !! i = Some p -> good p (db (conn s))).
Proof.
  unfold consistent. split; intros H i p Hp; specialize (H i p Hp);
    destruct p; exact H.
Qed.

Lemma schedule_one_consistent i s :
  consistent name class_name s ->
  consistent name class_name (schedule_one name class_name i s)
  /\ (forall x, cur (db (conn s)) = Some x ->
                cur (db (conn (schedule_one name class_name i s))) = Some x)
  /\ length (callers (schedule_one name class_name i s)) = length (callers s)
  /\ (forall j, j <> i ->
        callers (schedule_one name class_name i s) !! j = callers s !! j)
  /\ (forall p, callers s !! i = Some p ->
        exists p', callers (schedule_one name class_name i s) !! i = Some p'
                   /\ (progress p < progress p' \/ (progress p = 3 /\ p' = p))%nat).
Proof.
  intros Hc. rewrite consistent_good in Hc. unfold schedule_one.
  destruct (callers s !! i) as [p|] eqn:Ei.
  - destruct (caller_step_spec p (conn s) (Hc i p Ei)) as (p' & c' & H1 & H2 & H3 & H4).
    rewrite H1. cbn. split; [|split; [|split; [|split]]].
    + apply consistent_good. cbn. intros j q Hq.
      destruct (decide (i = j)) as [->|Hne].
      * rewrite list_lookup_insert_eq in Hq by (eapply lookup_lt_Some; eauto).
        congruence.
      * rewrite list_lookup_insert_ne in Hq by assumption.
        eapply good_mono; [exact H2 | eauto].
    + exact H2.
    + apply length_insert.
    + intros j Hj. now rewrite list_lookup_insert_ne by congruence.
    + intros q Hq. exists p'. split.
      * rewrite list_lookup_insert_eq by (eapply lookup_lt_Some; eauto). reflexivity.
      * congruence.
  - split; [exact (proj2 (consistent_good s) Hc)|].
    split; [auto|]. split; [auto|]. split; [auto|]. intros p Hp. discriminate.
Qed.

Lemma schedule_consistent sched s :
  consistent name class_name s ->
  consistent name class_name (schedule name class_name sched s)
  /\ length (callers (schedule name class_name sched s)) = length (callers s).
Proof.
  revert s. unfold schedule.
  induction sched as [|i sched IH]; intros s Hc; cbn; [auto|].
  destruct (schedule_one_consistent i s Hc) as (H1 & _ & H3 & _).
  destruct (IH _ H1) as [H4 H5]. split; [exact H4 | congruence].
Qed.

Lemma schedule_progress sched : forall s i p,
  consistent name class_name s ->
  callers s !! i = Some p ->
  exists p', callers (schedule name class_name sched s) !! i = Some p'
    /\ (Nat.min 3 (progress p + count_occ Nat.eq_dec sched i) <= progress p')%nat.
Proof.
  unfold schedule.
  induction sched as [|j sched IH]; intros s i p Hc Hp; cbn [fold_left count_occ].
  - exists p. split; [exact Hp | lia].
  - destruct (schedule_one_consistent j s Hc) as (H1 & _ & _ & H4 & H5).
    destruct (Nat.eq_dec j i) as [->|Hne].
    + destruct (H5 p Hp) as (p1 & Hp1 & Hpr).
      destruct (IH _ i p1 H1 Hp1) as (p' & Hp' & Hle).
      exists p'. split; [exact Hp'|].
      destruct Hpr as [Hpr | [Hpr ->]]; lia.
    + assert (Hp1 : callers (schedule_one name class_name j s) !! i = Some p)
        by (rewrite H4 by congruence; exact Hp).
      destruct (IH _ i p H1 Hp1) as (p' & Hp' & Hle).
      exists p'. split; [exact Hp' | exact Hle].
Qed.

Lemma consistent_start c n :
  consistent name class_name {| conn := c; callers := replicate n AtSelect |}.
Proof.
  intros i p Hp. cbn in Hp. apply lookup_replicate in Hp as [-> _]. exact I.
Qed.

End Callers.

Section Sequential.
Variable ensureLength_objects_name : string -> string.
Variable checkLength_objects_class_name : string -> bool.
Variable hook : DB -> DB.

Lemma thdGetObjectId_result name class_name c :
  checkLength_objects_class_name class_name = true ->
  let name' := ensureLength_objects_name name in
  thdGetObjectId ensureLength_objects_name checkLength_objects_class_name hook
    name class_name c =
  match current_id name' class_name (db c) with
  | Some i => (Ret {| objdict_id := i |}, log (SelectObject name' class_name) c)
  | None =>
      let c1 := with_db (hook (db c)) (log (SelectObject name' class_name) c) in
      match current_id name' class_name (hook (db c)) with
      | Some j =>
          (Ret {| objdict_id := j |},
           log (SelectObject name' class_name)
             (log Rollback (log (InsertObject name' class_name) c1)))
      | None =>
          (Ret {| objdict_id := objects_next_id (hook (db c)) |},
           log Commit
             (with_db
                {| objects := objects (hook (db c)) ++
                     [{| o_id := objects_next_id (hook (db c));
                         o_name := name'; o_class_name := class_name |}];
                   objects_next_id := objects_next_id (hook (db c)) + 1;
                   object_state := object_state (hook (db c)) |}
                (log (InsertObject name' class_name) c1)))
      end
  end.
Proof.
  intros Hck name'. unfold thdGetObjectId. fold name'. rewrite Hck.
  unfold checkLength, bind at 1, ret at 1.
  unfold try_except at 1, bind at 1, select at 1, bind at 1, execute_select_object.
  fold (current_id name' class_name (db c)).
  destruct (current_id name' class_name (db c)) as [i|] eqn:E; [reflexivity|].
  cbn [raise is_IdNotFoundError].
  unfold bind at 1, timing_hook, try_except at 1, bind at 1, insert, bind at 1,
    execute_insert_object.
  cbn [db log with_db]. rewrite existsb_find.
  unfold current_id.
  destruct (List.find (object_matches name' class_name) (objects (hook (db c))))
    as [r|] eqn:E2.
  - cbn [is_IntegrityError]. unfold bind at 1, rollback, bind at 1, select, bind,
      execute_select_object. cbn [db log with_db]. rewrite E2. reflexivity.
  - reflexivity.
Qed.

Lemma thdGetObjectId_too_long name class_name c :
  checkLength_objects_class_name class_name = false ->
  thdGetObjectId ensureLength_objects_name checkLength_objects_class_name hook
    name class_name c = (Raise RuntimeError, c).
Proof. intros H. unfold thdGetObjectId. rewrite H. reflexivity. Qed.

End Sequential.

(** C7.  When the class name passes the length check, [thdGetObjectId]
    returns an id and never raises, whatever other processes do at the
    timing hook: an existing row is returned without an insert, and when
    the insert is refused because a row appeared in between, that row's id
    is selected again.  For any number of callers whose statements
    interleave in any order, no caller fails, all returned ids are the one
    id stored for the pair, and a caller has returned after three of its
    own steps. *)
Theorem thdGetObjectId_converges
    (ensureLength_objects_name : string -> string)
    (checkLength_objects_class_name : string -> bool)
    (hook : DB -> DB) (name class_name : string) (c : Conn) :
  checkLength_objects_class_name class_name = true ->
  let name' := ensureLength_objects_name name in
  (exists i c',
     thdGetObjectId ensureLength_objects_name checkLength_objects_class_name
       hook name class_name c = (Ret {| objdict_id := i |}, c')
     /\ current_id name' class_name (db c') = Some i
     /\ (forall j, current_id name' class_name (db c) = Some j ->
                   i = j /\ db c' = db c)
     /\ (current_id name' class_name (db c) = None ->
         forall j, current_id name' class_name (hook (db c)) = Some j ->
                   i = j /\ db c' = hook (db c)
                   /\ executed c' =
                        executed c ++
                          [SelectObject name' class_name;
                           InsertObject name' class_name;
                           Rollback;
                           SelectObject name' class_name]))
  /\ (forall n sched,
        let s := schedule name' class_name sched
                   {| conn := c; callers := replicate n AtSelect |} in
        (forall i p, callers s !! i = Some p ->
           (forall e, p <> Failed e)
           /\ (forall x, p = Returned x ->
                         current_id name' class_name (db (conn s)) = Some x))
        /\ (forall i j x y,
              callers s !! i = Some (Returned x) ->
              callers s !! j = Some (Returned y) -> x = y)
        /\ (forall i, (i < n)%nat ->
              (3 <= count_occ Nat.eq_dec sched i)%nat ->
              exists x, callers s !! i = Some (Returned x))).
Proof.
  intros Hck name'. split.
  - rewrite (thdGetObjectId_result _ _ hook name class_name c Hck). fold name'.
    destruct (current_id name' class_name (db c)) as [i|] eqn:E.
    { do 2 eexists. split; [reflexivity|]. cbn [db log].
      repeat split; try congruence. }
    cbn zeta.
    destruct (current_id name' class_name (hook (db c))) as [j|] eqn:E2.
    { do 2 eexists. split; [reflexivity|]. cbn [db log with_db].
      repeat split; try congruence.
      cbn [executed log with_db]. now rewrite <- !app_assoc. }
    do 2 eexists. split; [reflexivity|]. cbn [db log with_db].
    split; [|split; [discriminate|intros _ j Hj; discriminate]].
    unfold current_id in *. cbn [objects].
    destruct (List.find (object_matches name' class_name) (objects (hook (db c))))
      eqn:E3; [discriminate|].
    rewrite (find_app_None _ _ _ E3). cbn [List.find].
    now rewrite object_matches_refl.
  - intros n sched s.
    destruct (schedule_consistent name' class_name sched _
                (consistent_start name' class_name c n)) as [Hc Hlen].
    fold s in Hc, Hlen.
    assert (Hret : forall i p, callers s !! i = Some p ->
              (forall e, p <> Failed e)
              /\ (forall x, p = Returned x ->
                    current_id name' class_name (db (conn s)) = Some x)).
    { intros i p Hp. specialize (Hc i p Hp). split.
      - intros e ->. exact Hc.
      - intros x ->. exact Hc. }
    split; [exact Hret|]. split.
    + intros i j x y Hi Hj.
      destruct (Hret i _ Hi) as [_ H1]. destruct (Hret j _ Hj) as [_ H2].
      specialize (H1 x eq_refl). specialize (H2 y eq_refl). congruence.
    + intros i Hi Hcount.
      assert (Hstart : callers {| conn := c; callers := replicate n AtSelect |} !! i
                       = Some AtSelect).
      { cbn. apply lookup_replicate. split; [reflexivity | exact Hi]. }
      destruct (schedule_progress name' class_name sched _ i AtSelect
                  (consistent_start name' class_name c n) Hstart)
        as (p' & Hp' & Hle).
      fold s in Hp'. cbn [progress] in Hle.
      destruct (Hret i p' Hp') as [Hnf _].
      destruct p' as [| | |x|e]; cbn [progress] in Hle; try lia.
      * exists x. exact Hp'.
      * exfalso. now apply (Hnf e).
Qed.


Lemma thdGetObjectId_converges_witness :
  exists c',
    thdGetObjectId (fun s => s) (fun _ => true) racing_master "test" "Nightly"
      (connect empty_db) = (Ret {| objdict_id := 1 |}, c')
    /\ db c' = racing_master empty_db.
Proof.
  destruct (thdGetObjectId_converges (fun s => s) (fun _ => true) racing_master
              "test" "Nightly" (connect empty_db) eq_refl)
    as ((i & c' & H1 & _ & _ & H4) & _).
  destruct (H4 eq_refl 1 eq_refl) as (-> & H5 & _).
  exists c'. split; assumption.
Defined.

(** [caller_step] cuts [thdGetObjectId] at its statements. *)
Lemma thdGetObjectId_as_steps
    (ensureLength_objects_name : string -> string)
    (checkLength_objects_class_name : string -> bool)
    (hook : DB -> DB) (name class_name : string) (c : Conn) :
  checkLength_objects_class_name class_name = true ->
  let name' := ensureLength_objects_name name in
  thdGetObjectId ensureLength_objects_name checkLength_objects_class_name
    hook name class_name c =
  match caller_step name' class_name AtSelect c with
  | (Ret (Returned i), c1) => (Ret {| objdict_id := i |}, c1)
  | (Ret _, c1) =>
      match caller_step name' class_name AtInsert (with_db (hook (db c1)) c1) with
      | (Ret (Returned i), c2) => (Ret {| objdict_id := i |}, c2)
      | (Ret _, c2) =>
          match caller_step name' class_name AtReselect c2 with
          | (Ret (Returned i), c3) => (Ret {| objdict_id := i |}, c3)
          | (_, c3) => (Raise IdNotFoundError, c3)
          end
      | (Raise e, c2) => (Raise e, c2)
      end
  | (Raise e, c1) => (Raise e, c1)
  end.
Proof.
  intros Hck name'.
  rewrite (thdGetObjectId_result _ _ hook name class_name c Hck). fold name'.
  cbn [caller_step]. unfold bind at 1, execute_select_object.
  fold (current_id name' class_name (db c)).
  destruct (current_id name' class_name (db c)) as [i|] eqn:E; [reflexivity|].
  cbn [ret db log with_db].
  unfold try_except, bind at 1, execute_insert_object. cbn [db log with_db].
  rewrite existsb_find. unfold current_id.
  destruct (List.find (object_matches name' class_name) (objects (hook (db c))))
    as [r|] eqn:E2.
  - cbn [is_IntegrityError]. unfold bind, rollback, execute_select_object, ret.
    cbn [db log with_db]. rewrite E2. reflexivity.
  - reflexivity.
Qed.

End StateFacts.

(* ===================================================================== *)
(** ** Properties of the Nightly scheduler *)
(* ===================================================================== *)

Module NightlyFacts.
Import Nightly.

Section NextFire.
Variables (tz : Z) (cal : Calendar).

Lemma first_match_spec h : forall t0 t,
  first_match tz cal h t0 = Some t ->
  t0 <= t < t0 + Z.of_nat h
  /\ matches cal (localtime tz t) = true
  /\ forall t', t0 <= t' < t -> matches cal (localtime tz t') = false.
Proof.
  induction h as [|h IH]; intros t0 t H; cbn [first_match] in H; [discriminate|].
  destruct (matches cal (localtime tz t0)) eqn:E.
  - injection H as <-. repeat split; try lia. exact E.
  - destruct (IH _ _ H) as (H1 & H2 & H3). repeat split; try lia; [exact H2|].
    intros t' Ht'. destruct (Z.eq_dec t' t0) as [->|Hne]; [exact E|].
    apply H3. lia.
Qed.

Lemma first_match_complete h : forall t0 t,
  t0 <= t < t0 + Z.of_nat h -> matches cal (localtime tz t) = true ->
  exists t1, first_match tz cal h t0 = Some t1 /\ t1 <= t.
Proof.
  induction h as [|h IH]; intros t0 t Ht Hm; [lia|]. cbn [first_match].
  destruct (matches cal (localtime tz t0)) eqn:E.
  - exists t0. split; [reflexivity | lia].
  - destruct (Z.eq_dec t t0) as [->|Hne]; [congruence|].
    apply (IH (t0 + 1) t); [lia | exact Hm].
Qed.

Lemma getNextBuildTime_spec h now t :
  getNextBuildTime tz cal h now = Some t ->
  now < t
  /\ matches cal (localtime tz t) = true
  /\ forall t', now < t' < t -> matches cal (localtime tz t') = false.
Proof.
  intros H. apply first_match_spec in H as (H1 & H2 & H3).
  repeat split; [lia | exact H2 | intros t' Ht'; apply H3; lia].
Qed.

Lemma getNextBuildTime_complete h now t :
  now < t <= now + Z.of_nat h -> matches cal (localtime tz t) = true ->
  exists t1, getNextBuildTime tz cal h now = Some t1 /\ t1 <= t.
Proof.
  intros Ht Hm. apply first_match_complete; [lia | exact Hm].
Qed.

End NextFire.

Section Traces.
Variable cfg : Config.
Hypothesis Honly : onlyIfChanged cfg = true.

Lemma activate_existing now lb recorded pending :
  let s := activate cfg now (attach (Some lb) recorded pending) in
  enabled s = true /\ is_first_build s = false
  /\ last_only_if_changed s = recorded
  /\ classifications s = pending
  /\ addBuildsetCalls s = [].
Proof. cbn. rewrite Honly. repeat split. Qed.

Lemma enabled_actuate seconds s : enabled (actuate cfg seconds s) = enabled s.
Proof.
  unfold actuate. destruct (actuateAt s); [|reflexivity].
  cbn. unfold startBuild. cbn.
  destruct (enabled s) eqn:E; cbn; [|reflexivity].
  destruct (should_emit _ _ _); reflexivity.
Qed.

Lemma option_eqb_string_refl (b : option string) : option_eqb String.eqb b b = true.
Proof. destruct b; cbn; [apply String.eqb_refl | reflexivity]. Qed.

Lemma option_eqb_string_neq (a b : option string) :
  a <> b -> option_eqb String.eqb a b = false.
Proof.
  intros H. destruct a as [a|], b as [b|]; cbn; try reflexivity; try congruence.
  apply String.eqb_neq. congruence.
Qed.

Lemma waiting_gotChange_on cl n important s :
  waiting_with cfg cl s ->
  waiting_with cfg (cl ++ [(n, important)])
    (gotChange cfg {| number := n; change_branch := branch cfg |} important s).
Proof.
  intros (H0 & H1 & H2 & H3 & H4). unfold gotChange. cbn.
  rewrite option_eqb_string_refl. repeat split; cbn; auto. now rewrite H3.
Qed.

Lemma gotChange_off n b important s :
  b <> branch cfg ->
  gotChange cfg {| number := n; change_branch := b |} important s = s.
Proof.
  intros H. unfold gotChange. cbn. now rewrite option_eqb_string_neq.
Qed.

Lemma play_app es1 es2 s : play cfg (es1 ++ es2) s = play cfg es2 (play cfg es1 s).
Proof. apply fold_left_app. Qed.

(** the tick at which the pending changes are built *)
Lemma waiting_fire cl seconds fire_time s :
  waiting_with cfg cl s -> existsb snd cl = true -> actuateAt s = Some fire_time ->
  let s' := actuate cfg seconds s in
  settled cfg s' /\ classifications s' = []
  /\ addBuildsetCalls s' = [addBuildsetForChanges (map fst cl)].
Proof.
  intros (H0 & H1 & H2 & H3 & H4) Hcl Hat. unfold actuate. rewrite Hat.
  cbn zeta. unfold startBuild, should_emit. cbn.
  rewrite H0, Honly, H3, Hcl, H4. cbn.
  destruct cl as [|c cl]; [discriminate|]. cbn. unfold settled, policy_changed. cbn.
  rewrite Honly. repeat split.
Qed.

(** the tick at which a recorded policy of [false] is caught up on *)
Lemma catch_up_fire seconds fire_time s :
  enabled s = true -> last_only_if_changed s = Some false ->
  classifications s = [] -> addBuildsetCalls s = [] ->
  actuateAt s = Some fire_time ->
  let s' := actuate cfg seconds s in
  settled cfg s' /\ classifications s' = [] /\ addBuildsetCalls s' = [latest].
Proof.
  intros H0 H2 H3 H4 Hat. unfold actuate. rewrite Hat.
  cbn zeta. unfold startBuild, should_emit, policy_changed. cbn.
  rewrite H0, Honly, H2, H3, H4. cbn. rewrite orb_true_r. cbn.
  unfold settled, policy_changed. cbn. rewrite Honly. repeat split.
Qed.

Hypothesis Hforce : force_at cfg = None.

Lemma startBuild_settled seconds fire_time s :
  settled cfg s ->
  let s' := startBuild cfg seconds fire_time s in
  settled cfg s' /\ addBuildsetCalls s' = addBuildsetCalls s
  /\ classifications s' = classifications s.
Proof.
  intros (H1 & H2 & H3). unfold startBuild, should_emit, forced.
  rewrite Honly, Hforce, H1, H2, H3. cbn.
  destruct (enabled s); cbn; [|repeat split; assumption].
  split; [|split; reflexivity].
  unfold settled, policy_changed; cbn. rewrite Honly. repeat split. exact H3.
Qed.

Lemma actuate_settled seconds s :
  settled cfg s ->
  let s' := actuate cfg seconds s in
  settled cfg s' /\ addBuildsetCalls s' = addBuildsetCalls s
  /\ classifications s' = classifications s.
Proof.
  intros Hs. unfold actuate. destruct (actuateAt s) as [ft|]; [|auto].
  match goal with |- context [startBuild cfg seconds ft ?x] =>
    destruct (startBuild_settled seconds ft x Hs) as (H1 & H2 & H3) end.
  cbn zeta. split; [exact H1|]. split; [exact H2 | exact H3].
Qed.

Lemma ticks_settled ticks : forall s,
  settled cfg s ->
  let s' := play cfg (map Tick ticks) s in
  settled cfg s' /\ addBuildsetCalls s' = addBuildsetCalls s
  /\ classifications s' = classifications s.
Proof.
  unfold play. induction ticks as [|t ticks IH]; intros s Hs; cbn; [auto|].
  destruct (actuate_settled t s Hs) as (H1 & H2 & H3).
  destruct (IH _ H1) as (H4 & H5 & H6).
  repeat split; try apply H4; congruence.
Qed.

Lemma waiting_settled cl s :
  waiting_with cfg cl s -> existsb snd cl = false -> settled cfg s.
Proof. intros (_ & H1 & H2 & H3 & _) Hcl. repeat split; auto. now rewrite H3. Qed.

Lemma waiting_ticks cl ticks : forall s,
  waiting_with cfg cl s -> existsb snd cl = false ->
  waiting_with cfg cl (play cfg (map Tick ticks) s).
Proof.
  induction ticks as [|t ticks IH]; intros s Hw Hcl; [exact Hw|].
  cbn. apply IH; [|exact Hcl].
  destruct (actuate_settled t s (waiting_settled cl s Hw Hcl))
    as ((H1 & H2 & _) & H4 & H5).
  destruct Hw as (He & _ & _ & H8 & H9).
  repeat split; try assumption; try congruence.
  now rewrite enabled_actuate.
Qed.

End Traces.

(** C4, amended.  With [onlyIfChanged] set and no change ever delivered:
    a scheduler without a force calendar that finds a [last_build] and a
    recorded [last_only_if_changed] of [true] requests no build, however
    often its timer fires; a scheduler that finds no [last_build]
    requests no build when it is activated, and its timer is set for the
    next time after [now] that matches the calendar. *)
Theorem onlyIfChanged_without_changes (cfg : Config) (now : Z) :
  onlyIfChanged cfg = true ->
  (force_at cfg = None ->
   forall lb ticks,
     addBuildsetCalls
       (play cfg (map Tick ticks)
          (activate cfg now (attach (Some lb) (Some true) []))) = [])
  /\ (forall recorded,
        let s := activate cfg now (attach None recorded []) in
        addBuildsetCalls s = []
        /\ actuateAt s =
             getNextBuildTime (timezone cfg) (calendar cfg) (horizon cfg) now
        /\ forall t, actuateAt s = Some t ->
             now < t
             /\ matches (calendar cfg) (localtime (timezone cfg) t) = true
             /\ forall t', now < t' < t ->
                  matches (calendar cfg) (localtime (timezone cfg) t') = false).
Proof.
  intros Honly. split.
  - intros Hforce lb ticks.
    destruct (activate_existing cfg Honly now lb (Some true) [])
      as (H0 & H1 & H2 & H3 & H4).
    apply (waiting_ticks cfg Honly Hforce [] ticks); [|reflexivity].
    repeat split; try assumption.
    unfold policy_changed. rewrite H2, Honly. reflexivity.
  - intros recorded s.
    assert (Hat : actuateAt s =
              getNextBuildTime (timezone cfg) (calendar cfg) (horizon cfg) now).
    { subst s. cbn.
      destruct (getNextBuildTime _ _ _ now) as [t|] eqn:E; [|reflexivity].
      apply getNextBuildTime_spec in E as (E & _). f_equal. lia. }
    split; [reflexivity|]. split; [exact Hat|].
    intros t Ht. rewrite Hat in Ht. now apply getNextBuildTime_spec in Ht.
Qed.

Lemma onlyIfChanged_without_changes_witness :
  addBuildsetCalls
    (play (onlyIfChanged_config 0 None) (map Tick [864000; 864300; 865500])
       (activate (onlyIfChanged_config 0 None) (time_offset 0)
          (attach (Some long_ago_time) (Some true) []))) = [].
Proof.
  exact (proj1 (onlyIfChanged_without_changes (onlyIfChanged_config 0 None)
                  (time_offset 0) eq_refl) eq_refl long_ago_time
           [864000; 864300; 865500]).
Defined.

(** C4 as the specification words it fails when a force calendar is
    configured: [test_iterations_onlyIfChanged_no_changes_force_at] has
    an existing scheduler with matching recorded policy and no change at
    all, and one build is requested, at 1500 s. *)
Lemma onlyIfChanged_without_changes_counterexample :
  let cfg := onlyIfChanged_config 0 (Some [23; 25; 27]) in
  let s := do_test_iterations cfg false (Some true) [] [] in
  onlyIfChanged cfg = true
  /\ addBuildsetCalls s = [latest]
  /\ reported_times cfg s = [1500].
Proof. vm_compute. repeat split. Qed.

(** C2, amended.  With [onlyIfChanged] set: a fire that finds
    [last_only_if_changed] recorded as [false] requests exactly one build
    and records [true]; a fire of a scheduler past its first build that
    finds the bookmark never recorded, no important change pending and no
    force calendar match requests no build.  Hence an existing scheduler
    (a [last_build] found at activation) with no force calendar and no
    change: recorded as [false], it requests one build at its first fire
    and none later; never recorded, it requests none at all. *)
Theorem policy_change_catch_up (cfg : Config) :
  onlyIfChanged cfg = true ->
  (forall seconds fire_time s,
     enabled s = true ->
     last_only_if_changed s = Some false ->
     let s' := startBuild cfg seconds fire_time s in
     addBuildsetCalls s' =
       addBuildsetCalls s ++
         [match classifications s with
          | [] => latest
          | _ :: _ => addBuildsetForChanges (map fst (classifications s))
          end]
     /\ last_only_if_changed s' = Some true)
  /\ (forall seconds fire_time s,
        is_first_build s = false ->
        existsb snd (classifications s) = false ->
        forced cfg fire_time = false ->
        last_only_if_changed s = None ->
        addBuildsetCalls (startBuild cfg seconds fire_time s) = addBuildsetCalls s)
  /\ (force_at cfg = None ->
      forall now lb,
        let existing recorded := activate cfg now (attach (Some lb) recorded []) in
        (forall seconds ticks,
           actuateAt (existing (Some false)) <> None ->
           addBuildsetCalls
             (play cfg (map Tick (seconds :: ticks)) (existing (Some false)))
           = [latest])
        /\ (forall ticks,
              addBuildsetCalls (play cfg (map Tick ticks) (existing None)) = [])).
Proof.
  intros Honly. split; [|split].
  - intros seconds fire_time s He Hrec. unfold startBuild, should_emit, policy_changed.
    rewrite He, Honly, Hrec. cbn. rewrite orb_true_r. cbn.
    destruct (classifications s); split; reflexivity.
  - intros seconds fire_time s Hf Hcl Hfo Hrec.
    unfold startBuild, should_emit, policy_changed.
    rewrite Honly, Hf, Hcl, Hfo, Hrec. cbn.
    destruct (enabled s); reflexivity.
  - intros Hforce now lb existing. subst existing. cbn beta. split.
    + intros seconds ticks Hat.
      destruct (actuateAt (activate cfg now (attach (Some lb) (Some false) [])))
        as [ft|] eqn:E; [|congruence].
      destruct (activate_existing cfg Honly now lb (Some false) [])
        as (H0 & H1 & H2 & H3 & H4).
      destruct (catch_up_fire cfg Honly seconds ft _ H0 H2 H3 H4 E) as (S1 & S2 & S3).
      cbn [map play fold_left deliver].
      destruct (ticks_settled cfg Honly Hforce ticks _ S1) as (_ & T2 & _).
      unfold play in T2. rewrite T2. exact S3.
    + intros ticks.
      destruct (activate_existing cfg Honly now lb None []) as (H0 & H1 & H2 & H3 & H4).
      assert (Hs : settled cfg (activate cfg now (attach (Some lb) None []))).
      { split; [exact H1|]. split.
        - unfold policy_changed. now rewrite H2.
        - now rewrite H3. }
      destruct (ticks_settled cfg Honly Hforce ticks _ Hs) as (_ & T2 & _).
      rewrite T2. exact H4.
Qed.

Lemma policy_change_catch_up_witness :
  addBuildsetCalls
    (play (onlyIfChanged_config 0 None) (map Tick (864000 :: [864300; 865500]))
       (activate (onlyIfChanged_config 0 None) (time_offset 0)
          (attach (Some long_ago_time) (Some false) []))) = [latest].
Proof.
  apply (proj1 (proj2 (proj2 (policy_change_catch_up (onlyIfChanged_config 0 None)
                  eq_refl)) eq_refl (time_offset 0) long_ago_time)).
  vm_compute. discriminate.
Defined.

(** C2 as the specification words it fails for the unset bookmark:
    [test_iterations_onlyIfChanged_no_changes_existing_scheduler_update_to_v3_5_0]
    runs an existing scheduler without a recorded [last_only_if_changed]
    through the half hour, and no build is requested. *)
Lemma policy_change_catch_up_counterexample :
  let cfg := onlyIfChanged_config 0 None in
  let s := do_test_iterations cfg false None [] [] in
  onlyIfChanged cfg = true
  /\ classifications s = []
  /\ addBuildsetCalls s = []
  /\ last_build s = Some (1500 + time_offset 0).
Proof. vm_compute. repeat split. Qed.

Section Arrival.
Variable cfg : Config.

Lemma scheduleNextBuild_keeps now s :
  enabled (scheduleNextBuild cfg now s) = enabled s
  /\ classifications (scheduleNextBuild cfg now s) = classifications s
  /\ addBuildsetCalls (scheduleNextBuild cfg now s) = addBuildsetCalls s.
Proof. repeat split. Qed.

Lemma gotChange_keeps change important s :
  enabled (gotChange cfg change important s) = enabled s
  /\ actuateAt (gotChange cfg change important s) = actuateAt s
  /\ addBuildsetCalls (gotChange cfg change important s) = addBuildsetCalls s
  /\ classifications (gotChange cfg change important s) =
       classifications s ++ pending_of cfg [GotChange change important].
Proof.
  unfold gotChange, pending_of. cbn.
  destruct (option_eqb String.eqb (change_branch change) (branch cfg)); cbn;
    rewrite ?app_nil_r; repeat split.
Qed.

Lemma gotChange_calls change important s :
  addBuildsetCalls (gotChange cfg change important s) = addBuildsetCalls s.
Proof. apply gotChange_keeps. Qed.

Lemma gotChange_enabled change important s :
  enabled (gotChange cfg change important s) = enabled s.
Proof. apply gotChange_keeps. Qed.

Lemma gotChange_actuateAt change important s :
  actuateAt (gotChange cfg change important s) = actuateAt s.
Proof. apply gotChange_keeps. Qed.

(** A fire requests one build or none; when it requests none, what is
    pending stays pending. *)
Lemma actuate_calls seconds s :
  exists extra,
    addBuildsetCalls (actuate cfg seconds s) = addBuildsetCalls s ++ extra
    /\ (extra = [] -> classifications (actuate cfg seconds s) = classifications s).
Proof.
  unfold actuate. destruct (actuateAt s) as [ft|];
    [|exists []; split; [now rewrite app_nil_r | reflexivity]].
  cbn zeta. unfold startBuild. cbn [enabled classifications addBuildsetCalls].
  destruct (enabled s); cbn [negb];
    [|exists []; split; [now rewrite app_nil_r | reflexivity]].
  destruct (should_emit cfg ft _).
  - eexists. split; [reflexivity|]. discriminate.
  - exists []. split; [now rewrite app_nil_r | reflexivity].
Qed.

Lemma deliver_calls e s :
  exists extra,
    addBuildsetCalls (deliver cfg e s) = addBuildsetCalls s ++ extra
    /\ (extra = [] ->
        classifications (deliver cfg e s) = classifications s ++ pending_of cfg [e]).
Proof.
  destruct e as [seconds|change important]; cbn [deliver].
  - destruct (actuate_calls seconds s) as (extra & H1 & H2). exists extra.
    split; [exact H1|]. intros H. rewrite (H2 H). cbn. now rewrite app_nil_r.
  - destruct (gotChange_keeps change important s) as (_ & _ & H1 & H2).
    exists []. split; [now rewrite app_nil_r | intros _; exact H2].
Qed.

Lemma pending_of_app es1 es2 :
  pending_of cfg (es1 ++ es2) = pending_of cfg es1 ++ pending_of cfg es2.
Proof. unfold pending_of. apply flat_map_app. Qed.

(** Builds are only ever added; as long as none is added, the pending
    changes are those on the branch, in the order they arrived. *)
Lemma play_calls es : forall s,
  exists extra,
    addBuildsetCalls (play cfg es s) = addBuildsetCalls s ++ extra
    /\ (extra = [] ->
        classifications (play cfg es s) = classifications s ++ pending_of cfg es).
Proof.
  induction es as [|e es IH]; intros s.
  - exists []. cbn. rewrite !app_nil_r. auto.
  - destruct (deliver_calls e s) as (x1 & H1 & H2).
    destruct (IH (deliver cfg e s)) as (x2 & H3 & H4).
    exists (x1 ++ x2). change (play cfg (e :: es) s) with (play cfg es (deliver cfg e s)).
    split; [rewrite H3, H1; now rewrite app_assoc|].
    intros H. apply app_eq_nil in H as [-> ->].
    rewrite (H4 eq_refl), (H2 eq_refl), <- app_assoc.
    f_equal. symmetry. apply (pending_of_app [e] es).
Qed.

Lemma pending_of_ticks ts : pending_of cfg (map Tick ts) = [].
Proof. induction ts as [|t ts IH]; [reflexivity | exact IH]. Qed.

Lemma pending_of_arrivals n1 n2 n3 n4 n5 b2 b5 ts1 ts2 ts3 ts4 :
  b2 <> branch cfg -> b5 <> branch cfg ->
  pending_of cfg (arrivals cfg n1 n2 n3 n4 n5 b2 b5 ts1 ts2 ts3 ts4) =
    [(n1, false); (n3, true); (n4, false)].
Proof.
  intros Hb2 Hb5. unfold arrivals.
  rewrite !pending_of_app, !pending_of_ticks. unfold pending_of. cbn.
  rewrite !option_eqb_string_refl, (option_eqb_string_neq b2 _ Hb2),
    (option_eqb_string_neq b5 _ Hb5).
  reflexivity.
Qed.

Hypothesis Honly : onlyIfChanged cfg = true.

(** A fire with an important change pending requests one build, for all
    pending changes in their order. *)
Lemma fire_with_important seconds s :
  enabled s = true -> actuateAt s <> None ->
  existsb snd (classifications s) = true ->
  addBuildsetCalls (actuate cfg seconds s) =
    addBuildsetCalls s ++ [addBuildsetForChanges (map fst (classifications s))]
  /\ classifications (actuate cfg seconds s) = [].
Proof.
  intros He Hat Hcl. unfold actuate.
  destruct (actuateAt s) as [ft|]; [|congruence].
  cbn zeta. unfold startBuild, should_emit. cbn. rewrite He, Honly, Hcl. cbn.
  destruct (classifications s) as [|c cl]; [discriminate|]. cbn. split; reflexivity.
Qed.

End Arrival.

(** C5, amended.  With [onlyIfChanged] set and nothing pending
    beforehand, let an unimportant change on the branch, an important
    one off the branch, an important one on the branch, an unimportant
    one on the branch and an important one off the branch arrive in this
    order, with timer fires anywhere in between.
    - If no build was requested while they arrived, the pending changes
      are then the three on the branch in arrival order, and the next
      fire requests one build, for exactly these three in this order,
      and nothing stays pending.
    - With no fire between the first and the fifth change no build is
      requested while they arrive, whatever the history of the scheduler
      (a new one included) and its force calendar: the next fire requests
      that build.
    - For an existing scheduler whose recorded policy is not [false],
      with no force calendar and no fire after the important change on
      the branch, no build is requested while they arrive either, and
      that build is the only one requested, however many fires follow. *)
Theorem mixed_changes_in_arrival_order (cfg : Config)
    (n1 n2 n3 n4 n5 : Z) (b2 b5 : option string) :
  onlyIfChanged cfg = true ->
  b2 <> branch cfg ->
  b5 <> branch cfg ->
  let changes := arrivals cfg n1 n2 n3 n4 n5 b2 b5 in
  (forall s0 ts1 ts2 ts3 ts4,
     classifications s0 = [] ->
     let s := play cfg (changes ts1 ts2 ts3 ts4) s0 in
     addBuildsetCalls s = addBuildsetCalls s0 ->
     classifications s = [(n1, false); (n3, true); (n4, false)]
     /\ forall seconds,
          enabled s = true -> actuateAt s <> None ->
          addBuildsetCalls (actuate cfg seconds s) =
            addBuildsetCalls s0 ++ [addBuildsetForChanges [n1; n3; n4]]
          /\ classifications (actuate cfg seconds s) = [])
  /\ (forall s0 seconds,
        classifications s0 = [] -> enabled s0 = true -> actuateAt s0 <> None ->
        let s := play cfg (changes [] [] [] []) s0 in
        addBuildsetCalls s = addBuildsetCalls s0
        /\ addBuildsetCalls (actuate cfg seconds s) =
             addBuildsetCalls s0 ++ [addBuildsetForChanges [n1; n3; n4]])
  /\ (force_at cfg = None ->
      forall now lb recorded ts0 ts1 ts2,
        recorded <> Some false ->
        let s := play cfg (map Tick ts0 ++ changes ts1 ts2 [] [])
                   (activate cfg now (attach (Some lb) recorded [])) in
        addBuildsetCalls s = []
        /\ classifications s = [(n1, false); (n3, true); (n4, false)]
        /\ forall seconds ticks,
             actuateAt s <> None ->
             addBuildsetCalls (play cfg (map Tick (seconds :: ticks)) s) =
               [addBuildsetForChanges [n1; n3; n4]]).
Proof.
  intros Honly Hb2 Hb5 changes.
  assert (Hgen : forall s0 ts1 ts2 ts3 ts4,
     classifications s0 = [] ->
     addBuildsetCalls (play cfg (changes ts1 ts2 ts3 ts4) s0) = addBuildsetCalls s0 ->
     classifications (play cfg (changes ts1 ts2 ts3 ts4) s0)
       = [(n1, false); (n3, true); (n4, false)]
     /\ forall seconds,
          enabled (play cfg (changes ts1 ts2 ts3 ts4) s0) = true ->
          actuateAt (play cfg (changes ts1 ts2 ts3 ts4) s0) <> None ->
          addBuildsetCalls (actuate cfg seconds (play cfg (changes ts1 ts2 ts3 ts4) s0)) =
            addBuildsetCalls s0 ++ [addBuildsetForChanges [n1; n3; n4]]
          /\ classifications (actuate cfg seconds (play cfg (changes ts1 ts2 ts3 ts4) s0))
             = []).
  { intros s0 ts1 ts2 ts3 ts4 H0 Hsame.
    destruct (play_calls cfg (changes ts1 ts2 ts3 ts4) s0) as (extra & H1 & H2).
    assert (extra = []) as ->.
    { rewrite Hsame in H1. rewrite <- (app_nil_r (addBuildsetCalls s0)) in H1 at 1.
      apply app_inv_head in H1. now symmetry. }
    specialize (H2 eq_refl). unfold changes in H2 at 2.
    rewrite (pending_of_arrivals cfg _ _ _ _ _ _ _ _ _ _ _ Hb2 Hb5), H0 in H2.
    cbn [app] in H2. split; [exact H2|].
    intros seconds He Hat.
    destruct (fire_with_important cfg Honly seconds _ He Hat) as [F1 F2].
    { now rewrite H2. }
    rewrite F1, H2, Hsame. split; [reflexivity | exact F2]. }
  split; [exact Hgen|]. split.
  - intros s0 seconds H0 He Hat s.
    assert (Hk : addBuildsetCalls s = addBuildsetCalls s0
                 /\ enabled s = enabled s0 /\ actuateAt s = actuateAt s0).
    { subst s. unfold changes, arrivals. cbn [map app play fold_left deliver].
      rewrite !gotChange_calls, !gotChange_enabled, !gotChange_actuateAt.
      repeat split. }
    destruct Hk as (K1 & K2 & K3). split; [exact K1|].
    destruct (Hgen s0 [] [] [] [] H0 K1) as [_ Hfire].
    apply Hfire; [exact (eq_trans K2 He) | intros Hn; apply Hat; rewrite <- K3; exact Hn].
  - intros Hforce now lb recorded ts0 ts1 ts2 Hrec s.
    assert (Hw : waiting_with cfg [(n1, false); (n3, true); (n4, false)] s).
    { subst s. unfold changes, arrivals. rewrite !play_app.
      cbn [map play fold_left deliver].
      rewrite (gotChange_off cfg n5 b5 true _ Hb5).
      apply (waiting_gotChange_on cfg [(n1, false); (n3, true)]).
      apply (waiting_gotChange_on cfg [(n1, false)]).
      apply (waiting_ticks cfg Honly Hforce); [|reflexivity].
      rewrite (gotChange_off cfg n2 b2 true _ Hb2).
      apply (waiting_ticks cfg Honly Hforce); [|reflexivity].
      apply (waiting_gotChange_on cfg []).
      apply (waiting_ticks cfg Honly Hforce); [|reflexivity].
      destruct (activate_existing cfg Honly now lb recorded [])
        as (H0 & H1 & H2 & H3 & H4).
      repeat split; try assumption.
      unfold policy_changed. rewrite H2, Honly.
      destruct recorded as [[|]|]; [reflexivity | congruence | reflexivity]. }
    split; [apply Hw|]. split; [apply Hw|].
    intros seconds ticks Hat.
    destruct (actuateAt s) as [ft|] eqn:E; [|congruence].
    destruct (waiting_fire cfg Honly _ seconds ft s Hw eq_refl E) as (S1 & S2 & S3).
    cbn [map play fold_left deliver].
    destruct (ticks_settled cfg Honly Hforce ticks _ S1) as (_ & T2 & _).
    unfold play in T2. rewrite T2. exact S3.
Qed.

Lemma mixed_changes_in_arrival_order_witness :
  let cfg := onlyIfChanged_config 0 None in
  let changes := arrivals cfg 500 501 502 503 504
                   (Some "offbranch"%string) (Some "offbranch"%string) in
  let s := play cfg (map Tick [864000; 864300] ++ changes [] [] [] [])
             (activate cfg (time_offset 0) (attach (Some long_ago_time) (Some true) [])) in
  let new := play cfg (changes [] [] [] [])
               (activate cfg (time_offset 0) (attach None None [])) in
  addBuildsetCalls s = []
  /\ classifications s = [(500, false); (502, true); (503, false)]
  /\ (forall seconds ticks,
        addBuildsetCalls (play cfg (map Tick (seconds :: ticks)) s) =
          [addBuildsetForChanges [500; 502; 503]])
  /\ (forall seconds,
        addBuildsetCalls (actuate cfg seconds new) =
          [addBuildsetForChanges [500; 502; 503]]).
Proof.
  intros cfg changes s new.
  pose proof (mixed_changes_in_arrival_order cfg 500 501 502 503 504
                (Some "offbranch"%string) (Some "offbranch"%string)
                eq_refl ltac:(discriminate) ltac:(discriminate)) as (_ & Ha & Hb).
  destruct (Hb eq_refl (time_offset 0) long_ago_time (Some true) [864000; 864300] [] []
              ltac:(discriminate)) as (H1 & H2 & H3).
  split; [exact H1|]. split; [exact H2|]. split.
  - intros seconds ticks. apply H3. vm_compute. discriminate.
  - intros seconds.
    destruct (Ha (activate cfg (time_offset 0) (attach None None [])) seconds)
      as [_ H4]; [reflexivity | reflexivity | vm_compute; discriminate | exact H4].
Defined.

(** C5 as the specification words it fails for a new scheduler: in the
    loop of [test_iterations_onlyIfChanged_mixed_changes], without a
    prior [last_build], the first fire at 300 s builds the change that
    has arrived by then, although it is unimportant (the first fire of a
    new scheduler always builds, as
    [test_iterations_onlyIfChanged_unimp_changes_calls_for_new_scheduler]
    expects), and the fire at 1500 s builds the other two changes on the
    branch: two builds, none with the three changes on the branch. *)
Lemma mixed_changes_in_arrival_order_counterexample :
  let cfg := onlyIfChanged_config 0 None in
  let s := do_test_iterations cfg true None [] mixed_changes in
  reported_times cfg s = [300; 1500]
  /\ addBuildsetCalls s =
       [addBuildsetForChanges [500]; addBuildsetForChanges [502; 503]]
  /\ ~ In (addBuildsetForChanges [500; 502; 503]) (addBuildsetCalls s).
Proof.
  vm_compute. split; [reflexivity|]. split; [reflexivity|].
  intros [H|[H|[]]]; discriminate.
Qed.

(** *** Time zones *)

Lemma tm_sec_gmtime x : tm_sec (gmtime x) = x mod 60.
Proof.
  unfold gmtime. destruct (civil_from_days (x / 86400)) as [[y m] d]. cbn.
  apply Z.mod_mod_divide. exists 1440. reflexivity.
Qed.

Lemma tm_min_gmtime x : tm_min (gmtime x) = (x mod 3600) / 60.
Proof.
  unfold gmtime. destruct (civil_from_days (x / 86400)) as [[y m] d]. cbn.
  f_equal. apply Z.mod_mod_divide. exists 24. reflexivity.
Qed.

Lemma matches_minutes l tm :
  matches (minutes l) tm = (tm_sec tm =? 0) && existsb (Z.eqb (tm_min tm)) l.
Proof. unfold matches, minutes. cbn. now rewrite !andb_true_r. Qed.

(** a calendar of minutes only sees the time within the hour *)
Lemma matches_minutes_shift tz l t :
  matches (minutes l) (localtime tz (localtime_offset tz + t)) =
  matches (minutes l) (localtime 0 t).
Proof.
  rewrite !matches_minutes. unfold localtime, localtime_offset.
  rewrite !tm_sec_gmtime, !tm_min_gmtime.
  replace (tz mod 3600 + t - tz) with (t + (- (tz / 3600)) * 3600)
    by (pose proof (Z.div_mod tz 3600); lia).
  rewrite Z.sub_0_r.
  replace (- (tz / 3600) * 3600) with ((- (tz / 3600) * 60) * 60) at 1 by lia.
  now rewrite !Z.mod_add by lia.
Qed.

Section Shift.
Local Arguments getNextBuildTime : simpl never.
Local Arguments matches : simpl never.
Local Arguments localtime : simpl never.
Variables (tz : Z) (branch0 : option string) (minute0 : list Z)
          (onlyIfChanged0 : bool) (force0 : option (list Z)).

Local Abbreviation cfg := (makeScheduler tz branch0 minute0 onlyIfChanged0 force0).
Local Abbreviation utc := (makeScheduler 0 branch0 minute0 onlyIfChanged0 force0).
Local Abbreviation delta := (localtime_offset tz).

Lemma first_match_shift l h : forall t,
  first_match tz (minutes l) h (delta + t) =
  Z.add delta <$> first_match 0 (minutes l) h t.
Proof.
  induction h as [|h IH]; intros t; cbn [first_match]; [reflexivity|].
  rewrite matches_minutes_shift.
  destruct (matches (minutes l) (localtime 0 t)); [reflexivity|].
  rewrite <- IH. f_equal. lia.
Qed.

Lemma getNextBuildTime_shift l h now :
  getNextBuildTime tz (minutes l) h (delta + now) =
  Z.add delta <$> getNextBuildTime 0 (minutes l) h now.
Proof.
  unfold getNextBuildTime. rewrite <- first_match_shift. f_equal. lia.
Qed.

Lemma scheduleNextBuild_shift now s :
  scheduleNextBuild cfg (delta + now) (shift delta s) =
  shift delta (scheduleNextBuild utc now s).
Proof.
  unfold scheduleNextBuild, shift. cbn. f_equal.
  destruct (lastActuated s) as [t|]; cbn; rewrite getNextBuildTime_shift;
    destruct (getNextBuildTime 0 _ _ _); cbn; try reflexivity;
    f_equal; lia.
Qed.

Lemma forced_shift fire_time :
  forced cfg (delta + fire_time) = forced utc fire_time.
Proof.
  unfold forced. cbn. destruct force0; cbn; [|reflexivity].
  apply matches_minutes_shift.
Qed.

Lemma startBuild_shift seconds fire_time s :
  startBuild cfg (delta + seconds) (delta + fire_time) (shift delta s) =
  shift delta (startBuild utc seconds fire_time s).
Proof.
  unfold startBuild, should_emit, policy_changed. rewrite forced_shift. cbn.
  destruct (enabled s); cbn; [|reflexivity].
  match goal with |- (if ?b then _ else _) = _ => destruct b end;
    unfold shift; cbn; f_equal. now rewrite map_app.
Qed.

Lemma actuate_shift seconds s :
  actuate cfg (delta + seconds) (shift delta s) =
  shift delta (actuate utc seconds s).
Proof.
  unfold actuate. cbn [actuateAt shift].
  destruct (actuateAt s) as [ft|]; cbn [fmap option_fmap option_map]; [|reflexivity].
  rewrite <- scheduleNextBuild_shift, <- startBuild_shift. reflexivity.
Qed.

Lemma run_due_shift fuel : forall seconds s,
  run_due fuel cfg (delta + seconds) (shift delta s) =
  shift delta (run_due fuel utc seconds s).
Proof.
  induction fuel as [|fuel IH]; intros seconds s; cbn [run_due]; [reflexivity|].
  cbn [actuateAt shift].
  destruct (actuateAt s) as [t|]; cbn [fmap option_fmap option_map]; [|reflexivity].
  replace (delta + t <=? delta + seconds) with (t <=? seconds)
    by (destruct (Z.leb_spec t seconds), (Z.leb_spec (delta + t) (delta + seconds)); lia).
  destruct (t <=? seconds); [|reflexivity].
  now rewrite actuate_shift, IH.
Qed.

Lemma advance_shift seconds dt s :
  advance cfg (delta + seconds) dt (shift delta s) =
  (delta + fst (advance utc seconds dt s),
   shift delta (snd (advance utc seconds dt s))).
Proof.
  unfold advance. cbn [fst snd].
  replace (delta + seconds + dt) with (delta + (seconds + dt)) by lia.
  now rewrite run_due_shift.
Qed.

Lemma time_offset_shift : time_offset tz = delta + time_offset 0.
Proof. unfold time_offset, localtime_offset. rewrite Zmod_0_l. lia. Qed.

Lemma gotChange_shift change important s :
  gotChange cfg change important (shift delta s) =
  shift delta (gotChange utc change important s).
Proof. unfold gotChange. cbn. destruct (option_eqb _ _ _); reflexivity. Qed.

Lemma inject_shift seconds changes_at : forall s,
  inject cfg (delta + seconds) changes_at (shift delta s) =
  (fst (inject utc seconds changes_at s),
   shift delta (snd (inject utc seconds changes_at s))).
Proof.
  induction changes_at as [|[[at_ ch] imp] rest IH]; intros s; cbn [inject];
    [reflexivity|].
  cbn [timezone makeScheduler]. rewrite time_offset_shift.
  replace (delta + time_offset 0 + at_ <=? delta + seconds)
    with (time_offset 0 + at_ <=? seconds)
    by (destruct (Z.leb_spec (time_offset 0 + at_) seconds),
                 (Z.leb_spec (delta + time_offset 0 + at_) (delta + seconds)); lia).
  destruct (time_offset 0 + at_ <=? seconds); [|reflexivity].
  now rewrite gotChange_shift, IH.
Qed.

Lemma minute_loop_shift limit rounds : forall seconds changes_at s,
  minute_loop rounds cfg limit (delta + seconds) changes_at (shift delta s) =
  (delta + fst (minute_loop rounds utc limit seconds changes_at s),
   shift delta (snd (minute_loop rounds utc limit seconds changes_at s))).
Proof.
  induction rounds as [|rounds IH]; intros seconds changes_at s; cbn [minute_loop];
    [reflexivity|].
  cbn [timezone makeScheduler]. rewrite time_offset_shift.
  replace (delta + seconds <? delta + time_offset 0 + limit)
    with (seconds <? time_offset 0 + limit)
    by (destruct (Z.ltb_spec seconds (time_offset 0 + limit)),
                 (Z.ltb_spec (delta + seconds) (delta + time_offset 0 + limit)); lia).
  destruct (seconds <? time_offset 0 + limit); [|reflexivity].
  rewrite inject_shift.
  destruct (inject utc seconds changes_at s) as [rest s1]. cbn [fst snd].
  rewrite advance_shift.
  destruct (advance utc seconds 60 s1) as [seconds2 s2]. cbn [fst snd].
  apply IH.
Qed.

(** a new scheduler goes through the test loop in zone [tz] as it does
    in UTC, [localtime_offset tz] later *)
Lemma run_test_shift limit recorded pending changes_at :
  run_test cfg limit true recorded pending changes_at =
  shift delta (run_test utc limit true recorded pending changes_at).
Proof.
  unfold run_test. cbn [timezone makeScheduler].
  rewrite time_offset_shift.
  assert (Ha : activate cfg (delta + time_offset 0) (attach None recorded pending) =
               shift delta (activate utc (time_offset 0) (attach None recorded pending))).
  { unfold activate. cbn [enabled attach negb].
    rewrite <- scheduleNextBuild_shift. reflexivity. }
  rewrite Ha, advance_shift.
  destruct (advance utc (time_offset 0) 0 _) as [seconds1 s1]. cbn [fst snd].
  now rewrite minute_loop_shift.
Qed.

Lemma do_test_iterations_shift recorded pending changes_at :
  do_test_iterations cfg true recorded pending changes_at =
  shift delta (do_test_iterations utc true recorded pending changes_at).
Proof. apply run_test_shift. Qed.

End Shift.


Lemma tuple4_eq {A B C D} (a a' : A) (b b' : B) (c c' : C) (d d' : D) :
  (a, b, c, d) = (a', b', c', d') -> a = a' /\ b = b' /\ c = c' /\ d = d'.
Proof. intros H. injection H as -> -> -> ->. repeat split. Qed.

Lemma shift_addBuildsetCalls delta s :
  addBuildsetCalls (shift delta s) = addBuildsetCalls s.
Proof. reflexivity. Qed.

Lemma shift_classifications delta s :
  classifications (shift delta s) = classifications s.
Proof. reflexivity. Qed.

Lemma shift_last_build delta s :
  last_build (shift delta s) = Z.add delta <$> last_build s.
Proof. reflexivity. Qed.

Lemma shift_addBuildsetCallTimes delta s :
  addBuildsetCallTimes (shift delta s) = map (Z.add delta) (addBuildsetCallTimes s).
Proof. reflexivity. Qed.

(** C6.  The scheduler of [test_iterations_simple], calendar
    minute=[10,20,21,40,50,51], started as a new scheduler at
    [time_offset] (a full hour of local time), in every time zone: in the
    half hour that follows builds are requested at 600 s, 1200 s and
    1260 s and at no other time, and [last_build] ends as
    1260 + [time_offset].  The fire times come from [getNextBuildTime],
    which returns the least matching time after [now], and does return
    one when a matching time lies within the horizon. *)
Theorem iterations_simple (tz : Z) :
  let cfg := simple_config tz in
  let s := do_test_iterations cfg true None [(19, true)] [] in
  reported_times cfg s = [600; 1200; 1260]
  /\ addBuildsetCalls s = [latest; latest; latest]
  /\ last_build s = Some (1260 + time_offset tz)
  /\ classifications s = []
  /\ (forall h now t,
        getNextBuildTime tz (calendar cfg) h now = Some t ->
        now < t
        /\ matches (calendar cfg) (localtime tz t) = true
        /\ forall t', now < t' < t ->
             matches (calendar cfg) (localtime tz t') = false)
  /\ (forall h now t,
        now < t <= now + Z.of_nat h ->
        matches (calendar cfg) (localtime tz t) = true ->
        exists t1, getNextBuildTime tz (calendar cfg) h now = Some t1 /\ t1 <= t).
Proof.
  intros cfg s.
  pose (u := do_test_iterations (simple_config 0) true None [(19, true)] []).
  assert (Hutc : (reported_times (simple_config 0) u, addBuildsetCalls u,
                  last_build u, classifications u) =
            ([600; 1200; 1260], [latest; latest; latest],
             Some (1260 + time_offset 0), [])) by (vm_compute; reflexivity).
  assert (Hs : s = shift (localtime_offset tz) u)
    by apply do_test_iterations_shift.
  assert (Hcal : calendar cfg = minutes [10; 20; 21; 40; 50; 51]) by reflexivity.
  assert (Htz : timezone cfg = tz) by reflexivity.
  clearbody u s cfg.
  apply tuple4_eq in Hutc as (H1 & H2 & H3 & H4).
  subst s. rewrite shift_addBuildsetCalls, shift_last_build, shift_classifications.
  rewrite H2, H3, H4. unfold reported_times in *.
  rewrite shift_addBuildsetCallTimes, Htz, (time_offset_shift tz), map_map.
  cbn [timezone simple_config makeScheduler] in H1.
  split; [|split; [reflexivity|split; [|split; [reflexivity|split]]]].
  - rewrite <- H1. apply map_ext. intros t. lia.
  - cbn [fmap option_fmap option_map]. f_equal. lia.
  - intros h now t. apply getNextBuildTime_spec.
  - intros h now t. apply getNextBuildTime_complete.
Qed.

(** The remaining end-to-end tests of the class, run in UTC. *)
Example test_iterations_simple_with_branch :
  let cfg := makeScheduler 0 (Some "master"%string) [5; 35] false None in
  let s := run_test cfg (10 * 60) true None [] [] in
  reported_times cfg s = [300]
  /\ addBuildsetCalls s = [latest]
  /\ last_build s = Some (300 + time_offset 0).
Proof. vm_compute. repeat split; reflexivity. Qed.

Example test_iterations_onlyIfChanged_no_changes_new_scheduler :
  let cfg := onlyIfChanged_config 0 None in
  let s := do_test_iterations cfg true None [] [] in
  addBuildsetCalls s = [latest] /\ last_build s = Some (1500 + time_offset 0).
Proof. vm_compute. split; reflexivity. Qed.

Example test_iterations_onlyIfChanged_no_changes_existing_scheduler :
  let cfg := onlyIfChanged_config 0 None in
  let s := do_test_iterations cfg false (Some true) [] [] in
  addBuildsetCalls s = [] /\ last_build s = Some (1500 + time_offset 0).
Proof. vm_compute. split; reflexivity. Qed.

Example test_iterations_onlyIfChanged_no_changes_existing_scheduler_setting_changed :
  let cfg := onlyIfChanged_config 0 None in
  let s := do_test_iterations cfg false (Some false) [] [] in
  addBuildsetCalls s = [latest] /\ last_build s = Some (1500 + time_offset 0).
Proof. vm_compute. split; reflexivity. Qed.

Example test_iterations_onlyIfChanged_unimp_changes_calls_for_new_scheduler :
  let cfg := onlyIfChanged_config 0 None in
  let s := do_test_iterations cfg true None [] unimportant_changes in
  addBuildsetCalls s = [addBuildsetForChanges [500]]
  /\ last_build s = Some (1500 + time_offset 0).
Proof. vm_compute. split; reflexivity. Qed.

Example test_iterations_onlyIfChanged_unimp_changes_existing_sched_changed_only_if_changed :
  let cfg := onlyIfChanged_config 0 None in
  let s := do_test_iterations cfg false (Some false) [] unimportant_changes in
  addBuildsetCalls s = [latest] /\ last_build s = Some (1500 + time_offset 0).
Proof. vm_compute. split; reflexivity. Qed.

Example test_iterations_onlyIfChanged_unimp_changes_existing_sched_same_only_if_changed :
  let cfg := onlyIfChanged_config 0 None in
  let s := do_test_iterations cfg false (Some true) [] unimportant_changes in
  addBuildsetCalls s = [] /\ last_build s = Some (1500 + time_offset 0).
Proof. vm_compute. split; reflexivity. Qed.

Example test_iterations_onlyIfChanged_changes_existing_scheduler_update_to_v3_5_0 :
  let cfg := onlyIfChanged_config 0 None in
  let s := do_test_iterations cfg false None []
             [(120, makeFakeChange 500 None, false);
              (1200, makeFakeChange 501 None, true);
              (1201, makeFakeChange 502 None, false)] in
  reported_times cfg s = [1500]
  /\ addBuildsetCalls s = [addBuildsetForChanges [500; 501; 502]]
  /\ last_build s = Some (1500 + time_offset 0).
Proof. vm_compute. repeat split; reflexivity. Qed.

Example test_iterations_onlyIfChanged_unimp_changes_force_at :
  let cfg := onlyIfChanged_config 0 (Some [23; 25; 27]) in
  let s := do_test_iterations cfg false (Some true) [] unimportant_changes in
  reported_times cfg s = [1500]
  /\ addBuildsetCalls s = [addBuildsetForChanges [500; 501]]
  /\ last_build s = Some (1500 + time_offset 0).
Proof. vm_compute. repeat split; reflexivity. Qed.

Example test_iterations_onlyIfChanged_off_branch_changes :
  let cfg := onlyIfChanged_config 0 None in
  let s := do_test_iterations cfg false (Some true) []
             [(60, makeFakeChange 500 (Some "testing"%string), true);
              (1700, makeFakeChange 501 (Some "staging"%string), true)] in
  addBuildsetCalls s = [] /\ last_build s = Some (1500 + time_offset 0).
Proof. vm_compute. split; reflexivity. Qed.

Example test_iterations_onlyIfChanged_mixed_changes :
  let cfg := onlyIfChanged_config 0 None in
  let s := do_test_iterations cfg false (Some true) [] mixed_changes in
  reported_times cfg s = [1500]
  /\ addBuildsetCalls s = [addBuildsetForChanges [500; 502; 503]]
  /\ last_build s = Some (1500 + time_offset 0).
Proof. vm_compute. repeat split; reflexivity. Qed.

End NightlyFacts.

(* ===================================================================== *)
(** ** More on the debouncer *)
(* ===================================================================== *)

Module DebounceMore.
Import Debounce DebounceAux DebounceFacts.

Local Arguments invoke : simpl never.

Ltac break w :=
  destruct w as [[wt ui ph tm st cd] sec inv infl lg fr nd].

Section Balanced.
Variable function : nat -> outcome.

Lemma balanced_boot wait0 ui0 : balanced (boot wait0 ui0).
Proof. split; [split; discriminate | reflexivity]. Qed.

Lemma step_balanced e w :
  balanced w -> forall w', step function e w = Ret w' -> balanced w'.
Proof.
  intros [Ht Hn] w'. break w. unfold balanced, timer_is_active, is_running in *. cbn in *.
  assert (Hw : ph = PH_WAITING ->
               exists t, tm = Some {| dc_time := t; dc_cancelled := false; dc_called := false |}).
  { intros Hp. apply Ht in Hp. destruct tm as [[t c k]|]; [|discriminate].
    unfold dc_active in Hp. cbn in Hp. destruct c, k; try discriminate. eauto. }
  assert (Hnw : ph <> PH_WAITING ->
               match tm with Some c => dc_active c | None => false end = false).
  { intros Hp. destruct (match tm with Some c => dc_active c | None => false end); [|reflexivity].
    exfalso. apply Hp, Ht. reflexivity. }
  destruct e; cbn -[invoke].
  - unfold call. cbn.
    destruct st; [intros [= <-]; cbn; split; assumption|].
    destruct ph; cbn in *.
    + intros [= <-]. cbn. split; [split; reflexivity | assumption].
    + destruct (Hw eq_refl) as [t ->]. destruct ui; cbn; intros [= <-]; cbn;
        (split; [split; reflexivity | assumption]).
    + intros [= <-]. cbn. split; [|assumption].
      split; [intros H; apply Ht in H; discriminate | discriminate].
    + intros [= <-]. cbn. split; assumption.
  - unfold stop. cbn -[invoke]. destruct ph; cbn -[invoke] in *.
    + intros [= <-]. cbn. split; assumption.
    + destruct (Hw eq_refl) as [t ->]. cbn -[invoke].
      rewrite invoke_flat_eq. unfold invoke_flat. cbn. subst infl.
      destruct (function inv); cbn; intros [= <-]; cbn;
        (split; [split; discriminate | reflexivity]).
    + intros [= <-]. cbn. split; assumption.
    + intros [= <-]. cbn. split; assumption.
  - intros [= <-]. cbn. split; assumption.
  - unfold clock_advance. cbn -[invoke].
    destruct tm as [c|]; [|intros [= <-]; cbn; split; assumption].
    destruct (dc_active c && _) eqn:E; [|intros [= <-]; cbn; split; assumption].
    apply andb_prop in E as [E _]. rewrite E in Ht.
    assert (ph = PH_WAITING) as -> by (apply Ht; reflexivity).
    rewrite invoke_flat_eq. unfold invoke_flat. cbn in *. subst infl.
    destruct (function inv); cbn; intros [= <-]; cbn;
      (split; [split; discriminate | reflexivity]).
  - destruct infl as [|infl]; [intros [= <-]; cbn; split; assumption|].
    cbn -[invoke]. unfold function_done, retry, retry_with.
    destruct ph; cbn in Hn; try discriminate; injection Hn as ->.
    + destruct failed; cbn; intros [= <-]; cbn;
        (split; [split; [intros H; apply Ht in H; discriminate | discriminate] | reflexivity]).
    + destruct st.
      * destruct failed; cbn -[invoke]; rewrite invoke_flat_eq; unfold invoke_flat; cbn;
          destruct (function inv); cbn; intros [= <-]; cbn;
          (split; [split; [intros H; apply Ht in H; discriminate | discriminate] | reflexivity]).
      * unfold call. destruct failed; cbn; intros [= <-]; cbn;
          (split; [split; reflexivity | reflexivity]).
Qed.

Lemma run_balanced es : forall w,
  balanced w -> forall w', run function es w = Ret w' -> balanced w'.
Proof.
  induction es as [|e es IH]; intros w Hb w'; cbn -[step].
  - intros [= <-]. exact Hb.
  - destruct (step function e w) as [w1|] eqn:E; cbn -[step]; [|discriminate].
    apply IH. eapply step_balanced; eauto.
Qed.

Lemma reachable_run es w w' :
  reachable function w -> run function es w = Ret w' -> reachable function w'.
Proof.
  intros (wait0 & ui0 & es0 & H0) H. exists wait0, ui0, (es0 ++ es).
  rewrite run_app, H0. exact H.
Qed.

End Balanced.

(** X1.  No call into the debouncer raises.  From any state a debouncer
    can be in, any sequence of triggers, [stop]s, [start]s, clock
    advances and completions of the function runs through: the timer is
    never reset or cancelled after it was called or cancelled, it is
    never used while the slot holds [None], and [invoke] does not nest
    beyond one [retry]; the state reached is again one a debouncer can
    be in. *)
Theorem events_never_raise function w es :
  reachable function w ->
  exists w', run function es w = Ret w' /\ reachable function w'.
Proof.
  intros Hr. destruct (run_wf function es w (reachable_wf function w Hr)) as (w' & H & _).
  exists w'. split; [exact H|]. eapply reachable_run; eauto.
Qed.

Lemma events_never_raise_witness :
  exists w', run (fun _ => Pending) [Trigger; Advance 5; Trigger; Stop; Done true; Trigger]
               (boot 5 true) = Ret w'
             /\ reachable (fun _ => Pending) w'.
Proof.
  apply (events_never_raise (fun _ => Pending) (boot 5 true)).
  exists 5, true, []. reflexivity.
Defined.

(** X2.  The function never runs twice at once.  In every state a
    debouncer can be in, at most one Deferred of the function is
    outstanding; one is outstanding exactly in the phases PH_RUNNING and
    PH_RUNNING_QUEUED, and the timer is live exactly in PH_WAITING. *)
Theorem one_run_at_a_time function w :
  reachable function w ->
  (in_flight w <= 1)%nat
  /\ (in_flight w = 1%nat <->
      phase (self w) = PH_RUNNING \/ phase (self w) = PH_RUNNING_QUEUED)
  /\ (timer_is_active (self w) = true <-> phase (self w) = PH_WAITING).
Proof.
  intros (wait0 & ui0 & es & H).
  destruct (run_balanced function es _ (balanced_boot wait0 ui0) _ H) as [Ht Hn].
  unfold is_running in Hn. split; [|split; [|exact Ht]].
  - destruct (_ || _) in Hn; lia.
  - destruct (phase (self w)); cbn in Hn; rewrite Hn; split; auto; try discriminate;
      intros [?|?]; discriminate.
Qed.

Lemma one_run_at_a_time_witness :
  let w := {| self := {| wait := 5; until_idle := false; phase := PH_RUNNING_QUEUED;
                         timer := Some {| dc_time := 5; dc_cancelled := false;
                                          dc_called := true |};
                         stopped := false; completeDeferreds := [] |};
              seconds := 5; invocations := 1; in_flight := 1; logged := 0;
              fired := []; next_deferred := 0 |} in
  run (fun _ => Pending) [Trigger; Advance 5; Trigger; Trigger] (boot 5 false) = Ret w
  /\ (in_flight w <= 1)%nat
  /\ (in_flight w = 1%nat <->
      phase (self w) = PH_RUNNING \/ phase (self w) = PH_RUNNING_QUEUED)
  /\ (timer_is_active (self w) = true <-> phase (self w) = PH_WAITING).
Proof.
  intros w. split; [reflexivity|].
  apply (one_run_at_a_time (fun _ => Pending) w).
  exists 5, false, [Trigger; Advance 5; Trigger; Trigger]. reflexivity.
Defined.

Section Bursts.
Variable function : nat -> outcome.

Lemma bursts_waiting dts : forall w D,
  phase (self w) = PH_WAITING -> stopped (self w) = false ->
  timer (self w) = Some {| dc_time := D; dc_cancelled := false; dc_called := false |} ->
  Forall (fun dt => 0 <= dt) dts ->
  (if until_idle (self w)
   then D = seconds w + wait (self w) /\ Forall (fun dt => dt < wait (self w)) dts
   else seconds w + total dts < D) ->
  exists w1,
    run function (bursts dts) w = Ret w1
    /\ self w1 = set_timer
         (Some {| dc_time := if until_idle (self w) then D + total dts else D;
                  dc_cancelled := false; dc_called := false |}) (self w)
    /\ seconds w1 = seconds w + total dts
    /\ invocations w1 = invocations w /\ in_flight w1 = in_flight w
    /\ logged w1 = logged w /\ fired w1 = fired w
    /\ next_deferred w1 = next_deferred w.
Proof.
  induction dts as [|dt dts IH]; intros w D Hp Hs Ht Hpos Hlt.
  - exists w. break w. cbn in *. subst. destruct ui; cbn;
      rewrite ?Z.add_0_r; repeat split; reflexivity.
  - inversion Hpos as [|? ? Hdt Hpos']; subst. break w. cbn in *. subst.
    unfold clock_advance. cbn -[invoke].
    destruct ui.
    + destruct Hlt as [-> Hlt]. inversion Hlt as [|? ? Hlt1 Hlt']; subst.
      replace (sec + wt <=? sec + dt) with false by (symmetry; apply Z.leb_gt; lia).
      cbn. unfold call. cbn.
      match goal with |- context [run function (bursts dts) ?w0] =>
        destruct (IH w0 (sec + dt + wt)) as (w1 & H1 & H2 & H3 & H4 & H5 & H6 & H7 & H8) end;
        cbn; auto.
      exists w1. rewrite H1. cbn in *. rewrite H2, H3, H4, H5, H6, H7, H8.
      repeat split; try reflexivity; try lia. unfold set_timer. cbn. do 3 f_equal. lia.
    + replace (D <=? sec + dt) with false
        by (symmetry; apply Z.leb_gt; assert (0 <= total dts) by
              (clear -Hpos'; induction Hpos'; cbn; lia); lia).
      cbn. unfold call. cbn.
      match goal with |- context [run function (bursts dts) ?w0] =>
        destruct (IH w0 D) as (w1 & H1 & H2 & H3 & H4 & H5 & H6 & H7 & H8) end;
        cbn; auto; try lia.
      exists w1. rewrite H1. cbn in *. rewrite H2, H3, H4, H5, H6, H7, H8.
      repeat split; try reflexivity; try lia.
Qed.

End Bursts.

(** X3.  When the debounced call happens.  A trigger on an idle
    debouncer followed by further triggers after the pauses [dts] runs
    nothing yet and leaves one live timer: without [until_idle] it is due
    [wait] after the first trigger (the further triggers change nothing,
    as long as they come before that time), with [until_idle] it is due
    [wait] after the last trigger (each pause being shorter than [wait]).
    The next clock advance calls the function once if it reaches that
    time, and not at all if it does not. *)
Theorem trigger_deadline function w dts :
  phase (self w) = PH_IDLE -> stopped (self w) = false ->
  Forall (fun dt => 0 <= dt) dts ->
  (if until_idle (self w)
   then Forall (fun dt => dt < wait (self w)) dts
   else total dts < wait (self w)) ->
  let deadline :=
    seconds w + wait (self w) + (if until_idle (self w) then total dts else 0) in
  exists w1,
    run function (Trigger :: bursts dts) w = Ret w1
    /\ phase (self w1) = PH_WAITING
    /\ timer (self w1) =
         Some {| dc_time := deadline; dc_cancelled := false; dc_called := false |}
    /\ seconds w1 = seconds w + total dts
    /\ invocations w1 = invocations w
    /\ forall dt,
         exists w2, run function [Advance dt] w1 = Ret w2
           /\ invocations w2 =
                if deadline <=? seconds w1 + dt then S (invocations w)
                else invocations w.
Proof.
  intros Hp Hs Hpos Hlt deadline.
  assert (Hrun : run function (Trigger :: bursts dts) w =
                 run function (bursts dts)
                   (upd_self (fun d => set_phase PH_WAITING
                      (set_timer (Some (callLater (seconds w) (wait d))) d)) w)).
  { cbn -[bursts]. unfold call. rewrite Hs, Hp. reflexivity. }
  rewrite Hrun. clear Hrun.
  match goal with |- context [run function (bursts dts) ?w0] =>
    destruct (bursts_waiting function dts w0 (seconds w + wait (self w)))
      as (w1 & H1 & H2 & H3 & H4 & H5 & H6 & H7 & H8) end.
  { reflexivity. }
  { cbn. exact Hs. }
  { reflexivity. }
  { exact Hpos. }
  { cbn. destruct (until_idle (self w)); [split; [reflexivity | exact Hlt] | lia]. }
  exists w1. rewrite H1. cbn in H2, H3, H4.
  split; [reflexivity|].
  assert (Ht : timer (self w1) =
               Some {| dc_time := deadline; dc_cancelled := false; dc_called := false |}).
  { rewrite H2. cbn. unfold deadline. destruct (until_idle (self w)); do 2 f_equal; lia. }
  split; [rewrite H2; reflexivity|]. split; [exact Ht|].
  split; [exact H3|]. split; [exact H4|].
  intros dt. cbn -[invoke]. unfold clock_advance. cbn -[invoke]. rewrite Ht. cbn -[invoke].
  destruct (deadline <=? seconds w1 + dt).
  - rewrite invoke_flat_eq. unfold invoke_flat. cbn.
    destruct (function (invocations w1)); eexists; (split; [reflexivity|]); cbn; congruence.
  - eexists; split; [reflexivity|]. cbn. exact H4.
Qed.

Lemma trigger_deadline_witness :
  exists w1,
    run (fun _ => Returns) (Trigger :: bursts [3; 4; 2]) (boot 5 true) = Ret w1
    /\ timer (self w1) =
         Some {| dc_time := 14; dc_cancelled := false; dc_called := false |}
    /\ invocations w1 = 0%nat.
Proof.
  destruct (trigger_deadline (fun _ => Returns) (boot 5 true) [3; 4; 2])
    as (w1 & H1 & _ & H2 & _ & H3 & _).
  - reflexivity.
  - reflexivity.
  - repeat constructor; lia.
  - cbn. repeat constructor; lia.
  - exists w1. split; [exact H1|]. split; [exact H2 | exact H3].
Defined.

(** X4.  Triggers during a run are folded into one further run.  With
    the function running and the debouncer not stopped, any number (one
    or more) of triggers followed by the completion of the run leaves the
    phase PH_WAITING with a fresh timer for [wait] from the completion;
    the function has not been called again, the completion deferreds
    registered before were called back, and when the timer fires the
    function is called exactly once more. *)
Theorem burst_while_running function w n failed :
  phase (self w) = PH_RUNNING -> stopped (self w) = false ->
  (0 < in_flight w)%nat ->
  exists w1,
    run function (repeat Trigger (S n) ++ [Done failed]) w = Ret w1
    /\ phase (self w1) = PH_WAITING
    /\ timer (self w1) = Some (callLater (seconds w) (wait (self w)))
    /\ invocations w1 = invocations w
    /\ fired w1 = fired w ++ completeDeferreds (self w)
    /\ exists w2,
         run function [Advance (wait (self w))] w1 = Ret w2
         /\ invocations w2 = S (invocations w).
Proof.
  intros Hp Hs Hn. rewrite run_app. break w. cbn in Hp, Hs, Hn. subst.
  destruct infl as [|infl]; [lia|].
  cbn [repeat run step]. unfold call at 1. cbn -[run repeat].
  assert (Hq : forall m w0, phase (self w0) = PH_RUNNING_QUEUED -> stopped (self w0) = false ->
                 run function (repeat Trigger m) w0 = Ret w0).
  { induction m as [|m IH]; intros w0 H1 H2; cbn; [reflexivity|].
    unfold call. rewrite H2, H1. cbn. apply IH; assumption. }
  rewrite Hq by reflexivity. cbn -[invoke].
  unfold function_done, retry, retry_with, call.
  destruct failed; cbn -[invoke]; eexists; (split; [reflexivity|]); cbn -[invoke];
    (do 4 (split; [reflexivity|]));
    unfold clock_advance; cbn -[invoke]; rewrite Z.leb_refl; cbn -[invoke];
    rewrite invoke_flat_eq; unfold invoke_flat; cbn;
    destruct (function inv); eexists; (split; [reflexivity|]); reflexivity.
Qed.

Lemma burst_while_running_witness :
  exists w1,
    run (fun _ => Pending) (repeat Trigger 3 ++ [Done false])
      {| self := set_phase PH_RUNNING (init 5 false); seconds := 7; invocations := 1;
         in_flight := 1; logged := 0; fired := []; next_deferred := 0 |} = Ret w1
    /\ phase (self w1) = PH_WAITING
    /\ timer (self w1) = Some (callLater 7 5)
    /\ invocations w1 = 1%nat.
Proof.
  destruct (burst_while_running (fun _ => Pending)
              {| self := set_phase PH_RUNNING (init 5 false); seconds := 7;
                 invocations := 1; in_flight := 1; logged := 0; fired := [];
                 next_deferred := 0 |} 2 false)
    as (w1 & H1 & H2 & H3 & H4 & _).
  - reflexivity.
  - reflexivity.
  - cbn. lia.
  - exists w1. repeat split; assumption.
Defined.

(** X6.  Callers of [stop] during a run are called back in the order
    they came.  With the function running, [n] calls of [stop] hand out
    the next [n] completion deferreds; when the run completes, the
    deferreds registered before and these [n] are called back, oldest
    first and each once, the list of waiting deferreds is empty, the
    phase is PH_IDLE and the function has not been called again. *)
Theorem stop_waiters_fifo function w n failed :
  phase (self w) = PH_RUNNING -> (0 < in_flight w)%nat ->
  exists w1,
    run function (repeat Stop n ++ [Done failed]) w = Ret w1
    /\ fired w1 = fired w ++ completeDeferreds (self w) ++ seq (next_deferred w) n
    /\ completeDeferreds (self w1) = []
    /\ phase (self w1) = PH_IDLE
    /\ invocations w1 = invocations w.
Proof.
  intros Hp Hn. rewrite run_app.
  assert (Hs : forall m w0, phase (self w0) = PH_RUNNING ->
             exists w', run function (repeat Stop m) w0 = Ret w'
               /\ phase (self w') = PH_RUNNING
               /\ completeDeferreds (self w') =
                    completeDeferreds (self w0) ++ seq (next_deferred w0) m
               /\ fired w' = fired w0 /\ in_flight w' = in_flight w0
               /\ invocations w' = invocations w0).
  { induction m as [|m IH]; intros w0 H0.
    - exists w0. cbn. rewrite app_nil_r. repeat split; auto.
    - assert (Hstep : step function Stop w0 =
                Ret (upd_self (fun s => set_completeDeferreds
                                 (completeDeferreds s ++ [next_deferred w0]) s)
                       (snd (new_deferred (upd_self (set_stopped true) w0))))).
      { break w0. cbn in H0. subst. reflexivity. }
      cbn [repeat run]. rewrite Hstep. clear Hstep.
      match goal with |- context [Ret ?x ≫= _] =>
        destruct (IH x) as (w' & H1 & H2 & H3 & H4 & H5 & H6) end; [exact H0|].
      exists w'. split; [exact H1|]. cbn in *. rewrite H3, H4, H5, H6, <- app_assoc.
      repeat split; auto. }
  destruct (Hs n w Hp) as (w' & H1 & H2 & H3 & H4 & H5 & H6). rewrite H1.
  cbn -[function_done]. destruct (in_flight w') eqn:E; [lia|]. cbn -[function_done].
  rewrite function_done_running by exact H2.
  eexists; split; [reflexivity|].
  destruct failed; cbn; rewrite H3, H4, H6; repeat split; reflexivity.
Qed.

Lemma stop_waiters_fifo_witness :
  exists w1,
    run (fun _ => Pending) (repeat Stop 3 ++ [Done true])
      {| self := set_phase PH_RUNNING (init 5 false); seconds := 7; invocations := 1;
         in_flight := 1; logged := 0; fired := []; next_deferred := 4 |} = Ret w1
    /\ fired w1 = [4; 5; 6]%nat.
Proof.
  destruct (stop_waiters_fifo (fun _ => Pending)
              {| self := set_phase PH_RUNNING (init 5 false); seconds := 7;
                 invocations := 1; in_flight := 1; logged := 0; fired := [];
                 next_deferred := 4 |} 3 true)
    as (w1 & H1 & H2 & _).
  - reflexivity.
  - cbn. lia.
  - exists w1. split; [exact H1 | exact H2].
Defined.

Section Logged.
Variables f f' : nat -> outcome.
Hypothesis Hf : forall k, f' k = calm (f k).

Lemma invoke_same_but_logged w w2 :
  set_logged 0 w = set_logged 0 w2 ->
  same_but_logged (invoke f w) (invoke f' w2).
Proof.
  intros H. break w. destruct w2 as [s2 sec2 inv2 infl2 lg2 fr2 nd2].
  unfold set_logged in H. cbn in H. injection H as <- <- <- <- <- <-.
  rewrite (invoke_flat_eq f), (invoke_flat_eq f').
  unfold invoke_flat. cbn.
  rewrite Hf. destruct (f inv); cbn; reflexivity.
Qed.

Lemma step_same_but_logged e w w2 :
  set_logged 0 w = set_logged 0 w2 ->
  same_but_logged (step f e w) (step f' (calm_event e) w2).
Proof.
  intros H. break w. destruct w2 as [s2 sec2 inv2 infl2 lg2 fr2 nd2].
  unfold set_logged in H. cbn in H. injection H as <- <- <- <- <- <-.
  destruct e; cbn -[invoke].
  - unfold call. cbn. destruct st; [reflexivity|].
    destruct ph; cbn; [reflexivity | | reflexivity | reflexivity].
    destruct ui; [|reflexivity].
    destruct (timer_reset sec wt tm); cbn; reflexivity.
  - unfold stop. cbn -[invoke].
    destruct ph; cbn -[invoke]; [reflexivity | | reflexivity | reflexivity].
    destruct (timer_cancel tm); cbn -[invoke]; [|reflexivity].
    rewrite (invoke_flat_eq f), (invoke_flat_eq f'). unfold invoke_flat. cbn.
    rewrite Hf. destruct (f inv); cbn; reflexivity.
  - reflexivity.
  - unfold clock_advance. cbn -[invoke]. destruct tm as [c|]; [|reflexivity].
    destruct (dc_active c && _); [|reflexivity].
    apply invoke_same_but_logged. reflexivity.
  - destruct infl as [|infl]; [reflexivity|]. cbn -[invoke].
    unfold function_done, retry, retry_with.
    destruct ph.
    + destruct failed; reflexivity.
    + destruct failed; reflexivity.
    + destruct failed; reflexivity.
    + destruct st.
      * destruct failed; cbn -[invoke]; apply invoke_same_but_logged; reflexivity.
      * unfold call. destruct failed; reflexivity.
Qed.

Lemma run_same_but_logged es : forall w w2,
  set_logged 0 w = set_logged 0 w2 ->
  same_but_logged (run f es w) (run f' (map calm_event es) w2).
Proof.
  induction es as [|e es IH]; intros w w2 H; cbn -[step].
  - exact H.
  - pose proof (step_same_but_logged e w w2 H) as Hs.
    destruct (step f e w) as [a|x], (step f' (calm_event e) w2) as [b|y];
      cbn -[step] in *; try contradiction.
    + apply IH. exact Hs.
    + exact Hs.
Qed.
End Logged.

(** X5.  A failure of the function is logged and otherwise handled like
    a success.  Running any events on a fresh debouncer with a function
    that may raise or whose Deferreds may fail, and running the same
    events with the function that returns where the other raises and
    with every Deferred succeeding, gives the same state up to the count
    of logged failures. *)
Theorem failure_is_only_logged function wait0 until_idle0 es :
  exists w1 w2,
    run function es (boot wait0 until_idle0) = Ret w1
    /\ run (fun k => calm (function k)) (map calm_event es) (boot wait0 until_idle0)
       = Ret w2
    /\ set_logged 0 w1 = set_logged 0 w2.
Proof.
  pose proof (run_same_but_logged function (fun k => calm (function k))
                (fun k => eq_refl) es (boot wait0 until_idle0) (boot wait0 until_idle0)
                eq_refl) as H.
  destruct (run_wf function es _ (wf_boot wait0 until_idle0)) as (w1 & H1 & _).
  destruct (run_wf (fun k => calm (function k)) (map calm_event es) _
              (wf_boot wait0 until_idle0)) as (w2 & H2 & _).
  rewrite H1, H2 in H. exists w1, w2. auto.
Qed.

Section Quiet.
Variable function : nat -> outcome.

Lemma reachable_balanced w : reachable function w -> balanced w.
Proof.
  intros (wait0 & ui0 & es & H).
  exact (run_balanced function es _ (balanced_boot wait0 ui0) _ H).
Qed.

Lemma quiet_step e w :
  balanced w -> stopped (self w) = true -> phase (self w) = PH_IDLE ->
  is_start e = false ->
  exists w', step function e w = Ret w'
    /\ self w' = self w /\ invocations w' = invocations w
    /\ in_flight w' = in_flight w /\ fired w' = fired w /\ logged w' = logged w.
Proof.
  intros [Ht Hn] Hs Hp He. break w. unfold balanced, timer_is_active, is_running in *.
  cbn in *. subst.
  assert (Htm : match tm with Some c => dc_active c | None => false end = false).
  { destruct (match tm with Some c => dc_active c | None => false end); [|reflexivity].
    destruct Ht as [Ht _]. specialize (Ht eq_refl). discriminate. }
  destruct e; try discriminate; cbn -[invoke].
  - eexists. split; [reflexivity|]. repeat split.
  - eexists. split; [reflexivity|]. repeat split.
  - unfold clock_advance. cbn -[invoke]. destruct tm as [c|].
    + rewrite Htm. cbn. eexists. split; [reflexivity|]. repeat split.
    + eexists. split; [reflexivity|]. repeat split.
  - eexists. split; [reflexivity|]. repeat split.
Qed.

End Quiet.

(** X20.  A stopped, idle debouncer stays quiet.  In a state a debouncer
    can be in, with [stopped] set and the phase PH_IDLE (the Deferred
    [stop] returned has fired), any triggers, further [stop]s, clock
    advances and late completions, but no [start], leave the debouncer
    as it is: the function is not called and no deferred is called
    back. *)
Theorem stopped_idle_stays_quiet function w es :
  reachable function w ->
  stopped (self w) = true -> phase (self w) = PH_IDLE ->
  forallb (fun e => negb (is_start e)) es = true ->
  exists w',
    run function es w = Ret w'
    /\ self w' = self w
    /\ invocations w' = invocations w
    /\ fired w' = fired w.
Proof.
  intros Hr Hs Hp Hes.
  pose proof (reachable_balanced function w Hr) as Hb. clear Hr.
  revert w Hs Hp Hb. induction es as [|e es IH]; intros w Hs Hp Hb.
  - exists w. repeat split.
  - cbn in Hes. apply andb_prop in Hes as [He Hes]. apply negb_true_iff in He.
    destruct (quiet_step function e w Hb Hs Hp He) as (w1 & H1 & H2 & H3 & H4 & H5 & H6).
    destruct (IH Hes w1) as (w' & H7 & H8 & H9 & H10).
    + now rewrite H2.
    + now rewrite H2.
    + destruct Hb as [Ht Hn]. unfold balanced. rewrite H2, H4. split; assumption.
    + exists w'. cbn -[step]. rewrite H1. cbn -[step].
      split; [exact H7|]. repeat split; congruence.
Qed.

Lemma stopped_idle_stays_quiet_witness :
  let w := {| self := {| wait := 5; until_idle := false; phase := PH_IDLE;
                         timer := Some {| dc_time := 5; dc_cancelled := true;
                                          dc_called := false |};
                         stopped := true; completeDeferreds := [] |};
              seconds := 0; invocations := 1; in_flight := 0; logged := 0;
              fired := []; next_deferred := 0 |} in
  run (fun _ => Returns) [Trigger; Stop] (boot 5 false) = Ret w
  /\ exists w', run (fun _ => Returns) [Trigger; Advance 9; Stop; Done true; Trigger] w
                = Ret w'
       /\ self w' = self w /\ invocations w' = 1%nat /\ fired w' = [].
Proof.
  intros w. split; [reflexivity|].
  apply (stopped_idle_stays_quiet (fun _ => Returns) w
           [Trigger; Advance 9; Stop; Done true; Trigger]).
  - exists 5, false, [Trigger; Stop]. reflexivity.
  - reflexivity.
  - reflexivity.
  - reflexivity.
Defined.




End DebounceMore.

Module DescriptorFacts.
Import Debounce Descriptor.

Lemma append_cons x (a b : string) :
  String.append (String x a) b = String x (String.append a b).
Proof. reflexivity. Qed.

Lemma length_append (a b : string) :
  String.length (String.append a b) = (String.length a + String.length b)%nat.
Proof.
  induction a as [|x a IH]; [reflexivity|].
  rewrite append_cons. cbn [String.length]. now rewrite IH.
Qed.

Lemma append_inj_l (p a b : string) :
  String.append p a = String.append p b -> a = b.
Proof.
  induction p as [|x p IH]; intros H; [exact H|].
  rewrite !append_cons in H. injection H as H. now apply IH.
Qed.

Lemma append_inj_r (a b s : string) :
  String.append a s = String.append b s -> a = b.
Proof.
  intros H.
  assert (Hlen : String.length a = String.length b).
  { apply (f_equal String.length) in H. rewrite !length_append in H. lia. }
  revert b H Hlen. induction a as [|x a IH]; intros [|y b] H Hlen;
    cbn [String.length] in Hlen; try discriminate; [reflexivity|].
  rewrite !append_cons in H. injection H as -> H. f_equal. apply IH; [exact H | lia].
Qed.

(** Different function names give different state attributes. *)
Lemma stateName_inj w1 u1 f1 w2 u2 f2 :
  attrName (method w1 u1 f1) = attrName (method w2 u2 f2) -> f1 = f2.
Proof.
  cbn [attrName method]. intros H. apply append_inj_l in H. now apply append_inj_r in H.
Qed.

(** X7.  [__get__] creates the debouncer of an instance once.  The
    debouncer handed out is stored under the descriptor's attribute; if
    the attribute was missing it is a fresh idle debouncer with the
    descriptor's [wait] and [until_idle]; the next [__get__] hands out
    the same debouncer and leaves the instance alone, also after the
    debouncer has changed state; no other attribute is touched. *)
Theorem debouncer_is_created_once (d : _Descriptor) (inst : instance) :
  let '(db, inst1) := __get__ d inst in
  (inst !! attrName d = None ->
     db = init (d_wait d) (d_until_idle d))
  /\ inst1 !! attrName d = Some db
  /\ __get__ d inst1 = (db, inst1)
  /\ (forall db', __get__ d (<[attrName d := db']> inst1)
                  = (db', <[attrName d := db']> inst1))
  /\ (forall a, a <> attrName d -> inst1 !! a = inst !! a).
Proof.
  assert (Hset : forall db' i, __get__ d (<[attrName d := db']> i)
                               = (db', <[attrName d := db']> i)).
  { intros db' i. unfold __get__. now rewrite lookup_insert_eq. }
  unfold __get__ at 1. destruct (inst !! attrName d) as [db|] eqn:E.
  - split; [discriminate|]. split; [exact E|]. split.
    + unfold __get__. now rewrite E.
    + split; [intros db'; apply Hset | reflexivity].
  - split; [reflexivity|]. split; [apply lookup_insert_eq|]. split; [apply Hset|].
    split; [intros db'; apply Hset|].
    intros a Ha. now apply lookup_insert_ne.
Qed.

(** X8.  Debounced methods with different function names keep their
    state apart: the attribute name [method] builds determines the
    function name, so whatever happens to the debouncer of one method,
    [__get__] of the other hands out what it would have handed out
    anyway. *)
Theorem methods_do_not_share_state wait1 ui1 fn1 wait2 ui2 fn2 (inst : instance) :
  fn1 <> fn2 ->
  let d1 := method wait1 ui1 fn1 in
  let d2 := method wait2 ui2 fn2 in
  forall db1',
    fst (__get__ d2 (<[attrName d1 := db1']> (snd (__get__ d1 inst))))
    = fst (__get__ d2 inst).
Proof.
  intros Hne d1 d2 db1'.
  assert (Ha : attrName d1 <> attrName d2).
  { intros H. apply Hne. eapply stateName_inj. exact H. }
  unfold __get__ at 1 3.
  rewrite lookup_insert_ne by exact Ha.
  replace (snd (__get__ d1 inst) !! attrName d2) with (inst !! attrName d2).
  - destruct (inst !! attrName d2); reflexivity.
  - unfold __get__. destruct (inst !! attrName d1); cbn; [reflexivity|].
    now rewrite lookup_insert_ne.
Qed.

Lemma methods_do_not_share_state_witness :
  fst (__get__ (method 5 false "flush")
         (<[attrName (method 1 true "poll") := set_phase PH_WAITING (init 1 true)]>
            (snd (__get__ (method 1 true "poll") ∅))))
  = init 5 false.
Proof.
  rewrite (methods_do_not_share_state 1 true "poll" 5 false "flush" ∅).
  - reflexivity.
  - discriminate.
Defined.

End DescriptorFacts.

(* ===================================================================== *)
(** ** More on the state store *)
(* ===================================================================== *)

Module StateMore.
Import State StateAux StateFacts.
Local Open Scope conn_scope.

Section SetState.
Variable json_loads : string -> option pyvalue.
Variable json_dumps : pyvalue -> option string.
Variable ensureLength_object_state_name : string -> string.
Variable hook : DB -> DB.

Local Abbreviation setState :=
  (thdSetState json_dumps ensureLength_object_state_name hook).

Lemma thdSetState_result objectid name value value_json c :
  json_dumps value = Some value_json ->
  let name' := ensureLength_object_state_name name in
  let k := (objectid, name') in
  setState objectid name value c =
  match object_state (db c) !! k with
  | Some _ =>
      (Ret tt,
       log Commit
         (with_db (set_object_state (<[k := value_json]> (object_state (db c))) (db c))
            (log (UpdateState objectid name' value_json) c)))
  | None =>
      let c1 := with_db (hook (db c))
                  (log Commit (log (UpdateState objectid name' value_json) c)) in
      match object_state (hook (db c)) !! k with
      | None =>
          (Ret tt,
           log Commit
             (with_db (set_object_state
                         (<[k := value_json]> (object_state (hook (db c))))
                         (hook (db c)))
                (log (InsertState objectid name' value_json) c1)))
      | Some _ =>
          (Ret tt, log Rollback (log (InsertState objectid name' value_json) c1))
      end
  end.
Proof.
  intros Hd name' k. unfold thdSetState. rewrite Hd. fold name'.
  unfold bind at 1, bind at 1, execute_update_state. fold k.
  destruct (object_state (db c) !! k) eqn:E; [reflexivity|].
  cbn [commit bind ret Z.ltb Z.compare].
  unfold bind at 1, timing_hook, try_except, bind at 1, execute_insert_state.
  cbn [db log with_db]. fold k.
  destruct (object_state (hook (db c)) !! k) eqn:E2; reflexivity.
Qed.

End SetState.

(** X9.  [thdSetState] then [thdGetState].  When the value encodes and
    the encoding decodes to the value, and no other writer inserts the
    row between the update and the insert, [thdSetState] returns
    normally, whether the row existed or not, and the row then holds the
    encoding: [thdGetState] under the name as stored (after
    [ensureLength]) returns the value, with or without a default. *)
Theorem thdSetState_then_thdGetState
    (json_loads : string -> option pyvalue) (json_dumps : pyvalue -> option string)
    (ensureLength_object_state_name : string -> string) (hook : DB -> DB)
    (objectid : Z) (name : string) (value : pyvalue) (value_json : string) (c : Conn) :
  json_dumps value = Some value_json ->
  json_loads value_json = Some value ->
  let name' := ensureLength_object_state_name name in
  (object_state (db c) !! (objectid, name') = None ->
   object_state (hook (db c)) !! (objectid, name') = None) ->
  let r := thdSetState json_dumps ensureLength_object_state_name hook
             objectid name value c in
  fst r = Ret tt
  /\ object_state (db (snd r)) !! (objectid, name') = Some value_json
  /\ forall default,
       fst (thdGetState json_loads objectid name' default (snd r)) = Ret value.
Proof.
  intros Hd Hl name' Hh r.
  assert (H : fst r = Ret tt
              /\ object_state (db (snd r)) !! (objectid, name') = Some value_json).
  { unfold r. rewrite (thdSetState_result _ _ _ _ _ _ _ c Hd). fold name'.
    destruct (object_state (db c) !! (objectid, name')) eqn:E.
    - split; [reflexivity|]. cbn. apply lookup_insert_eq.
    - cbn zeta. rewrite (Hh eq_refl). split; [reflexivity|]. cbn. apply lookup_insert_eq. }
  destruct H as [H1 H2]. split; [exact H1|]. split; [exact H2|].
  intros default. rewrite (thdGetState_present _ _ _ _ _ _ H2), Hl. reflexivity.
Qed.

Lemma thdSetState_then_thdGetState_witness :
  let r := thdSetState atom_dumps (fun s => s) (fun d => d) 132 "k" (PyInt 2)
             (connect empty_db) in
  fst r = Ret tt
  /\ fst (thdGetState atom_loads 132 "k" Thunk (snd r)) = Ret (PyInt 2).
Proof.
  intros r.
  destruct (thdSetState_then_thdGetState atom_loads atom_dumps (fun s => s) (fun d => d)
              132 "k" (PyInt 2) "2" (connect empty_db) eq_refl eq_refl (fun H => H))
    as (H1 & _ & H2).
  split; [exact H1 | exact (H2 Thunk)].
Defined.

(** X10.  [thdSetState] lets the other writer win.  When the row is
    missing at the update and another writer inserts it before the
    insert, [thdSetState] still returns normally: the insert is refused
    and rolled back, the value of the call is dropped, and the row holds
    what the other writer stored. *)
Theorem thdSetState_lost_race
    (json_loads : string -> option pyvalue) (json_dumps : pyvalue -> option string)
    (ensureLength_object_state_name : string -> string) (hook : DB -> DB)
    (objectid : Z) (name : string) (value : pyvalue) (value_json winner : string)
    (c : Conn) :
  json_dumps value = Some value_json ->
  let name' := ensureLength_object_state_name name in
  object_state (db c) !! (objectid, name') = None ->
  object_state (hook (db c)) !! (objectid, name') = Some winner ->
  let r := thdSetState json_dumps ensureLength_object_state_name hook
             objectid name value c in
  fst r = Ret tt
  /\ db (snd r) = hook (db c)
  /\ executed (snd r) =
       executed c ++ [UpdateState objectid name' value_json; Commit;
                      InsertState objectid name' value_json; Rollback]
  /\ forall default,
       fst (thdGetState json_loads objectid name' default (snd r)) =
         match json_loads winner with
         | Some v => Ret v
         | None => Raise TypeError
         end.
Proof.
  intros Hd name' Ha Hw r.
  assert (Hr : r = (Ret tt,
                    log Rollback
                      (log (InsertState objectid name' value_json)
                         (with_db (hook (db c))
                            (log Commit
                               (log (UpdateState objectid name' value_json) c)))))).
  { unfold r. rewrite (thdSetState_result _ _ _ _ _ _ _ c Hd). fold name'.
    rewrite Ha. cbn zeta. rewrite Hw. reflexivity. }
  rewrite Hr. cbn [fst snd]. split; [reflexivity|]. split; [reflexivity|]. split.
  - cbn. now rewrite <- !app_assoc.
  - intros default. erewrite thdGetState_present; [reflexivity|]. exact Hw.
Qed.

Lemma thdSetState_lost_race_witness :
  let r := thdSetState atom_dumps (fun s => s) racing_writer 132 "k" (PyInt 1)
             (connect empty_db) in
  fst r = Ret tt
  /\ fst (thdGetState atom_loads 132 "k" Thunk (snd r)) = Ret (PyInt 2).
Proof.
  intros r.
  destruct (thdSetState_lost_race atom_loads atom_dumps (fun s => s) racing_writer
              132 "k" (PyInt 1) "1" "2" (connect empty_db) eq_refl eq_refl eq_refl)
    as (H1 & _ & _ & H2).
  split; [exact H1 | exact (H2 Thunk)].
Defined.

(** X11.  [thdSetState] touches one row.  Whatever the value, the table
    [objects], its id counter and every row of [object_state] other than
    (objectid, ensured name) are after the call what they were before
    it, or, when the update found no row and the timing hook ran, what
    the hook made of them. *)
Theorem thdSetState_touches_one_row
    (json_dumps : pyvalue -> option string)
    (ensureLength_object_state_name : string -> string) (hook : DB -> DB)
    (objectid : Z) (name : string) (value : pyvalue) (c : Conn) :
  let name' := ensureLength_object_state_name name in
  let r := thdSetState json_dumps ensureLength_object_state_name hook
             objectid name value c in
  let others := match json_dumps value, object_state (db c) !! (objectid, name') with
                | Some _, None => hook (db c)
                | _, _ => db c
                end in
  objects (db (snd r)) = objects others
  /\ objects_next_id (db (snd r)) = objects_next_id others
  /\ forall k, k <> (objectid, name') ->
       object_state (db (snd r)) !! k = object_state others !! k.
Proof.
  intros name' r others. unfold r, others.
  destruct (json_dumps value) as [value_json|] eqn:Hd.
  - rewrite (thdSetState_result _ _ _ _ _ _ _ c Hd). fold name'.
    destruct (object_state (db c) !! (objectid, name')) eqn:E.
    + cbn. repeat split. intros k Hk. now rewrite lookup_insert_ne.
    + cbn zeta. destruct (object_state (hook (db c)) !! (objectid, name')) eqn:E2.
      * cbn. repeat split.
      * cbn. repeat split. intros k Hk. now rewrite lookup_insert_ne.
  - unfold thdSetState. rewrite Hd. cbn. repeat split.
Qed.

(** X12.  A value [json.dumps] refuses never reaches the database.
    [thdSetState] raises TypeError before it executes any statement; and
    [atomicCreateState], when no row is stored and the callback returns
    such a value, raises TypeError after the select and the callback,
    without running the timing hook or an insert. *)
Theorem unencodable_value_is_refused
    (json_loads : string -> option pyvalue) (json_dumps : pyvalue -> option string)
    (ensureLength_object_state_name : string -> string) (hook : DB -> DB)
    (objectid : Z) (name : string) (value : pyvalue)
    (thd_create_callback : M pyvalue) (c c1 : Conn) :
  json_dumps value = None ->
  thdSetState json_dumps ensureLength_object_state_name hook objectid name value c
    = (Raise TypeError, c)
  /\ (object_state (db c) !! (objectid, name) = None ->
      thd_create_callback (log (SelectState objectid name) c) = (Ret value, c1) ->
      atomicCreateState json_loads json_dumps hook objectid name
        thd_create_callback c = (Raise TypeError, c1)).
Proof.
  intros Hd. split.
  - unfold thdSetState. now rewrite Hd.
  - intros Ha Hcb. unfold atomicCreateState, bind at 1.
    rewrite (thdGetState_absent _ _ _ _ _ Ha). cbn [is_None].
    unfold bind at 1. now rewrite Hcb, Hd.
Qed.

Lemma unencodable_value_is_refused_witness :
  thdSetState atom_dumps (fun s => s) racing_writer 132 "k" (PyObject 7)
    (connect empty_db) = (Raise TypeError, connect empty_db)
  /\ atomicCreateState atom_loads atom_dumps racing_writer 132 "k"
       (ret (PyObject 7)) (connect empty_db)
     = (Raise TypeError, log (SelectState 132 "k") (connect empty_db)).
Proof.
  destruct (unencodable_value_is_refused atom_loads atom_dumps (fun s => s)
              racing_writer 132 "k" (PyObject 7) (ret (PyObject 7))
              (connect empty_db) (log (SelectState 132 "k") (connect empty_db))
              eq_refl) as [H1 H2].
  split; [exact H1 | exact (H2 eq_refl eq_refl)].
Defined.

(** X13.  [thdSetState] stores under the name [ensureLength] returns,
    [thdGetState] looks up the name it is given.  So when [ensureLength]
    changes the name, and no row is stored under the name as given, the
    value just set is not found under that name: [thdGetState] without a
    default raises KeyError. *)
Theorem thdSetState_shortened_name
    (json_loads : string -> option pyvalue) (json_dumps : pyvalue -> option string)
    (ensureLength_object_state_name : string -> string) (hook : DB -> DB)
    (objectid : Z) (name : string) (value : pyvalue) (c : Conn) :
  ensureLength_object_state_name name <> name ->
  object_state (db c) !! (objectid, name) = None ->
  object_state (hook (db c)) !! (objectid, name) = None ->
  let r := thdSetState json_dumps ensureLength_object_state_name hook
             objectid name value c in
  fst (thdGetState json_loads objectid name Thunk (snd r)) = Raise KeyError.
Proof.
  intros Hne Ha Hh r.
  assert (Hk : (objectid, name) <> (objectid, ensureLength_object_state_name name))
    by congruence.
  rewrite thdGetState_absent; [reflexivity|]. unfold r.
  destruct (json_dumps value) as [value_json|] eqn:Hd.
  - rewrite (thdSetState_result _ _ _ _ _ _ _ c Hd).
    destruct (object_state (db c) !! (objectid, ensureLength_object_state_name name)).
    + cbn. now rewrite lookup_insert_ne.
    + cbn zeta.
      destruct (object_state (hook (db c))
                  !! (objectid, ensureLength_object_state_name name)).
      * exact Hh.
      * cbn. now rewrite lookup_insert_ne.
  - unfold thdSetState. rewrite Hd. exact Ha.
Qed.

Lemma thdSetState_shortened_name_witness :
  let ensure := fun s : string => String.substring 0 4 s in
  let r := thdSetState atom_dumps ensure (fun d => d) 132 "last_build" (PyInt 2)
             (connect empty_db) in
  fst r = Ret tt
  /\ fst (thdGetState atom_loads 132 "last_build" Thunk (snd r)) = Raise KeyError
  /\ fst (thdGetState atom_loads 132 "last" Thunk (snd r)) = Ret (PyInt 2).
Proof.
  intros ensure r. split; [reflexivity|]. split; [|reflexivity].
  apply (thdSetState_shortened_name atom_loads atom_dumps ensure (fun d => d)
           132 "last_build" (PyInt 2) (connect empty_db)).
  - discriminate.
  - reflexivity.
  - reflexivity.
Defined.

Section Ids.

Lemma find_In {A} (f : A -> bool) l x :
  List.find f l = Some x -> In x l /\ f x = true.
Proof. apply List.find_some. Qed.

Lemma NoDup_map_eq {A B} (g : A -> B) l x y :
  List.NoDup (List.map g l) -> In x l -> In y l -> g x = g y -> x = y.
Proof.
  induction l as [|a l IH]; cbn; intros Hnd Hx Hy Hg; [contradiction|].
  inversion Hnd as [|? ? Hna Hnd']; subst.
  destruct Hx as [->|Hx], Hy as [->|Hy]; auto.
  - exfalso. apply Hna. rewrite Hg. now apply List.in_map.
  - exfalso. apply Hna. rewrite <- Hg. now apply List.in_map.
Qed.

Lemma object_matches_eq n cl r :
  object_matches n cl r = true -> o_name r = n /\ o_class_name r = cl.
Proof.
  unfold object_matches. intros H. apply andb_prop in H as [H1 H2].
  apply String.eqb_eq in H1, H2. auto.
Qed.

(** With ids used once, an id names one (name, class_name) pair. *)
Lemma ids_fresh_injective d n1 c1 n2 c2 i :
  ids_fresh d ->
  current_id n1 c1 d = Some i -> current_id n2 c2 d = Some i ->
  n1 = n2 /\ c1 = c2.
Proof.
  intros [_ Hnd]. unfold current_id.
  destruct (List.find (object_matches n1 c1) (objects d)) as [r1|] eqn:E1; [|discriminate].
  destruct (List.find (object_matches n2 c2) (objects d)) as [r2|] eqn:E2; [|discriminate].
  cbn. intros [= H1] [= H2].
  apply find_In in E1 as [I1 M1]. apply find_In in E2 as [I2 M2].
  assert (r1 = r2) by (eapply NoDup_map_eq; eauto; congruence). subst r2.
  apply object_matches_eq in M1 as [<- <-]. apply object_matches_eq in M2 as [<- <-].
  auto.
Qed.

Lemma ids_fresh_insert d n cl :
  ids_fresh d ->
  ids_fresh {| objects := objects d ++
                 [{| o_id := objects_next_id d; o_name := n; o_class_name := cl |}];
               objects_next_id := objects_next_id d + 1;
               object_state := object_state d |}.
Proof.
  intros [Hlt Hnd]. split; cbn.
  - apply List.Forall_app. split.
    + eapply List.Forall_impl; [|exact Hlt]. cbn. intros; lia.
    + constructor; [cbn; lia | constructor].
  - rewrite List.map_app. cbn. apply List.NoDup_app.
    + exact Hnd.
    + constructor; [intros [] | constructor].
    + intros x Hx [<-|[]]. apply List.in_map_iff in Hx as (r & Hr & Hin).
      rewrite List.Forall_forall in Hlt. specialize (Hlt r Hin). lia.
Qed.

End Ids.

(** X14.  The id [thdGetObjectId] returns names the pair.  On a
    database whose ids are used once and lie below the id counter (and
    that other processes leave so at the timing hook), the call keeps it
    so; the id it returns is stored for no other (name, class_name), and
    when the call had to insert, the id is new: no pair had it before. *)
Theorem thdGetObjectId_id_names_the_pair
    (ensureLength_objects_name : string -> string)
    (checkLength_objects_class_name : string -> bool)
    (hook : DB -> DB) (name class_name : string) (c : Conn) :
  checkLength_objects_class_name class_name = true ->
  ids_fresh (db c) ->
  ids_fresh (hook (db c)) ->
  let r := thdGetObjectId ensureLength_objects_name checkLength_objects_class_name
             hook name class_name c in
  exists i,
    fst r = Ret {| objdict_id := i |}
    /\ ids_fresh (db (snd r))
    /\ (current_id (ensureLength_objects_name name) class_name (db c) = None ->
        current_id (ensureLength_objects_name name) class_name (hook (db c)) = None ->
        forall n cl, current_id n cl (hook (db c)) <> Some i)
    /\ forall n cl,
         current_id n cl (db (snd r)) = Some i ->
         n = ensureLength_objects_name name /\ cl = class_name.
Proof.
  intros Hck Hf Hfh r. set (name' := ensureLength_objects_name name).
  assert (Hr : exists i, fst r = Ret {| objdict_id := i |}
                 /\ ids_fresh (db (snd r))
                 /\ current_id name' class_name (db (snd r)) = Some i
                 /\ (current_id name' class_name (db c) = None ->
                     current_id name' class_name (hook (db c)) = None ->
                     i = objects_next_id (hook (db c)))).
  { unfold r. rewrite (thdGetObjectId_result _ _ hook name class_name c Hck). fold name'.
    destruct (current_id name' class_name (db c)) as [i|] eqn:E.
    { exists i. cbn [fst snd db log]. split; [reflexivity|]. split; [exact Hf|].
      split; [exact E | intros H; congruence]. }
    cbn zeta.
    destruct (current_id name' class_name (hook (db c))) as [j|] eqn:E2.
    { exists j. cbn [fst snd db log with_db]. split; [reflexivity|]. split; [exact Hfh|].
      split; [exact E2 | intros _ H; congruence]. }
    eexists. cbn [fst snd db log with_db]. split; [reflexivity|].
    split; [now apply ids_fresh_insert|]. split; [|reflexivity].
    unfold current_id in *. cbn [objects].
    destruct (List.find (object_matches name' class_name) (objects (hook (db c))))
      eqn:E3; [discriminate|].
    rewrite (find_app_None _ _ _ E3). cbn [List.find].
    now rewrite object_matches_refl. }
  destruct Hr as (i & H1 & H2 & H3 & H4). exists i.
  split; [exact H1|]. split; [exact H2|]. split.
  - intros Ha Hb n cl Hn. rewrite (H4 Ha Hb) in Hn.
    unfold current_id in Hn.
    destruct (List.find (object_matches n cl) (objects (hook (db c)))) as [r0|] eqn:E;
      [|discriminate].
    apply find_In in E as [Hin _]. injection Hn as Hn.
    destruct Hfh as [Hlt _]. rewrite List.Forall_forall in Hlt.
    specialize (Hlt r0 Hin). lia.
  - intros n cl Hn. eapply ids_fresh_injective; eauto.
Qed.

Lemma thdGetObjectId_id_names_the_pair_witness :
  exists i,
    fst (thdGetObjectId (fun s => s) (fun _ => true) racing_master "other" "Nightly"
           (connect empty_db)) = Ret {| objdict_id := i |}
    /\ i = 2
    /\ forall n cl, current_id n cl (racing_master empty_db) <> Some i.
Proof.
  destruct (thdGetObjectId_id_names_the_pair (fun s => s) (fun _ => true)
              racing_master "other" "Nightly" (connect empty_db))
    as (i & H1 & _ & H2 & _).
  - reflexivity.
  - split; constructor.
  - split; cbn; repeat constructor; cbn; auto with zarith.
  - exists i. split; [exact H1|]. split.
    + assert (H : Ret {| objdict_id := 2 |} = Ret {| objdict_id := i |})
        by (rewrite <- H1; reflexivity).
      now injection H as <-.
    + apply H2; reflexivity.
Defined.

Section Stored.
Variable json_loads : string -> option pyvalue.
Variable json_dumps : pyvalue -> option string.

(** What [atomicCreateState] returns is what the row holds afterwards. *)
Lemma atomicCreateState_stored hook objectid name cb c v c' :
  (forall value_json, json_dumps v = Some value_json ->
                      json_loads value_json = Some v) ->
  atomicCreateState json_loads json_dumps hook objectid name cb c = (Ret v, c') ->
  exists value_json,
    object_state (db c') !! (objectid, name) = Some value_json
    /\ json_loads value_json = Some v.
Proof.
  intros Hrt. unfold atomicCreateState, bind at 1.
  assert (Hcreate : forall c0,
    (res <- cb ;;
     match json_dumps res with
     | None => raise TypeError
     | Some value_json =>
         timing_hook hook ;;;
         try_except
           (execute_insert_state objectid name value_json ;;; commit ;;; ret res)
           is_IntegrityError
           (rollback ;;; thdGetState json_loads objectid name Thunk)
     end) c0 = (Ret v, c') ->
    exists value_json,
      object_state (db c') !! (objectid, name) = Some value_json
      /\ json_loads value_json = Some v).
  { intros c0. unfold bind at 1.
    destruct (cb c0) as [[res|e] c1] eqn:Ecb; [|discriminate].
    destruct (json_dumps res) as [value_json|] eqn:Ed; [|discriminate].
    unfold bind at 1, timing_hook, try_except.
    unfold bind at 1, execute_insert_state. cbn [db log with_db].
    destruct (object_state (hook (db c1)) !! (objectid, name)) as [w|] eqn:E2.
    - cbn [is_IntegrityError]. unfold bind, rollback.
      rewrite (thdGetState_present json_loads objectid name Thunk _ w) by exact E2.
      destruct (json_loads w) eqn:Ew; [|discriminate].
      intros H. injection H as -> <-. exists w. split; [exact E2 | exact Ew].
    - unfold bind, commit, ret. intros H. injection H as -> <-.
      exists value_json. split; [apply lookup_insert_eq | now apply Hrt]. }
  destruct (object_state (db c) !! (objectid, name)) as [js|] eqn:E.
  - rewrite (thdGetState_present _ _ _ _ _ _ E).
    destruct (json_loads js) as [v0|] eqn:El; [|discriminate].
    destruct (is_None v0) eqn:En; [apply Hcreate|].
    unfold ret. intros H. injection H as -> <-. exists js. split; [exact E | exact El].
  - rewrite (thdGetState_absent _ _ _ _ _ E). cbn [is_None]. apply Hcreate.
Qed.
End Stored.

(** X15.  What [atomicCreateState] returns is what the row holds
    afterwards.  When the returned value survives the codec, a
    [thdGetState] after the call returns that value; and if the value is
    not [None], a later [atomicCreateState] returns it too, after its
    select, without running its callback, the timing hook or an insert. *)
Theorem atomicCreateState_result_is_stored
    (json_loads : string -> option pyvalue) (json_dumps : pyvalue -> option string)
    (hook : DB -> DB) (objectid : Z) (name : string)
    (thd_create_callback : M pyvalue) (c : Conn) (v : pyvalue) :
  (forall value_json, json_dumps v = Some value_json ->
                      json_loads value_json = Some v) ->
  let first := atomicCreateState json_loads json_dumps hook objectid name
                 thd_create_callback c in
  fst first = Ret v ->
  (forall default,
     fst (thdGetState json_loads objectid name default (snd first)) = Ret v)
  /\ (v <> PyNone ->
      forall hook2 callback2,
        atomicCreateState json_loads json_dumps hook2 objectid name callback2
          (snd first)
        = (Ret v, log (SelectState objectid name) (snd first))).
Proof.
  intros Hrt first H1. destruct first as [r c'] eqn:E. cbn [fst snd] in *. subst r.
  destruct (atomicCreateState_stored json_loads json_dumps hook objectid name
              thd_create_callback c v c' Hrt E) as (js & Hs & Hl).
  split.
  - intros default. rewrite (thdGetState_present _ _ _ _ _ _ Hs), Hl. reflexivity.
  - intros Hv hook2 callback2. now apply atomicCreateState_present with js.
Qed.

Lemma atomicCreateState_result_is_stored_witness :
  let first := atomicCreateState atom_loads atom_dumps racing_writer 132 "k"
                 (ret (PyInt 1)) (connect empty_db) in
  fst first = Ret (PyInt 2)
  /\ fst (thdGetState atom_loads 132 "k" Thunk (snd first)) = Ret (PyInt 2)
  /\ atomicCreateState atom_loads atom_dumps (fun d => d) 132 "k"
       (raise RuntimeError) (snd first)
     = (Ret (PyInt 2), log (SelectState 132 "k") (snd first)).
Proof.
  intros first. split; [reflexivity|].
  destruct (atomicCreateState_result_is_stored atom_loads atom_dumps racing_writer
              132 "k" (ret (PyInt 1)) (connect empty_db) (PyInt 2)) as [H1 H2].
  - intros js [= <-]. reflexivity.
  - reflexivity.
  - split; [exact (H1 Thunk)|]. apply H2. discriminate.
Defined.

Section Creators.
Variable json_loads : string -> option pyvalue.
Variable json_dumps : pyvalue -> option string.
Variable objectid : Z.
Variable name : string.

Local Abbreviation row := (fun d : DB => object_state d !! (objectid, name)).
Local Abbreviation cgood := (creator_good json_loads json_dumps objectid name).
Local Abbreviation cstep := (creator_step json_loads json_dumps objectid name).
Local Abbreviation cconsistent :=
  (creators_consistent json_loads json_dumps objectid name).
Local Abbreviation cone := (create_one json_loads json_dumps objectid name).
Local Abbreviation csched := (create_schedule json_loads json_dumps objectid name).

Lemma creator_good_mono p d d' :
  (forall x, row d = Some x -> row d' = Some x) -> cgood p d -> cgood p d'.
Proof.
  intros Hm. destruct p; cbn; auto.
  - intros H. destruct (object_state d !! (objectid, name)) as [x|] eqn:E; [|congruence].
    rewrite (Hm x E). discriminate.
  - intros (js & H1 & H2). exists js. split; [now apply Hm | exact H2].
Qed.

Lemma creator_step_spec value p c :
  (forall js, row (db c) = Some js -> exists v, json_loads js = Some v) ->
  (exists js, json_dumps value = Some js /\ json_loads js = Some value) ->
  cgood p (db c) ->
  exists p' c',
    cstep value p c = (Ret p', c')
    /\ (forall x, row (db c) = Some x -> row (db c') = Some x)
    /\ (forall js, row (db c') = Some js -> exists v, json_loads js = Some v)
    /\ cgood p' (db c')
    /\ (creator_progress p < creator_progress p'
        \/ (creator_progress p = 3 /\ p' = p))%nat.
Proof.
  intros Hdec (js0 & Hd0 & Hl0) Hg. cbn beta in *.
  destruct p as [|res js| |v|e]; cbn [creator_good creator_step] in Hg |- *.
  - unfold bind at 1.
    destruct (object_state (db c) !! (objectid, name)) as [js|] eqn:E.
    + rewrite (thdGetState_present _ _ _ _ _ _ E).
      destruct (Hdec js eq_refl) as [v Hv]. rewrite Hv.
      destruct (is_None v) eqn:En.
      * rewrite Hd0. do 2 eexists. split; [reflexivity|].
        cbn [db log creator_good creator_progress]. rewrite E.
        split; [auto|]. split; [exact Hdec|]. split; [auto|]. left; lia.
      * do 2 eexists. split; [reflexivity|].
        cbn [db log creator_good creator_progress]. rewrite E.
        split; [auto|]. split; [exact Hdec|]. split; [eauto|]. left; lia.
    + rewrite (thdGetState_absent _ _ _ _ _ E). cbn [is_None]. rewrite Hd0.
      do 2 eexists. split; [reflexivity|].
      cbn [db log creator_good creator_progress]. rewrite E.
      split; [auto|]. split; [exact Hdec|]. split; [auto|]. left; lia.
  - destruct Hg as [Hd Hl].
    unfold try_except, bind at 1, execute_insert_state. cbn [db log].
    destruct (object_state (db c) !! (objectid, name)) as [w|] eqn:E.
    + cbn [is_IntegrityError]. do 2 eexists. split; [reflexivity|].
      cbn [db log creator_good creator_progress]. rewrite E.
      split; [auto|]. split; [exact Hdec|]. split; [congruence|]. left; lia.
    + do 2 eexists. split; [reflexivity|].
      cbn [db log with_db creator_good creator_progress object_state set_object_state].
      rewrite lookup_insert_eq.
      split; [intros x Hx; congruence|].
      split; [intros x [= <-]; eauto|]. split; [eauto|]. left; lia.
  - unfold bind at 1.
    destruct (object_state (db c) !! (objectid, name)) as [js|] eqn:E; [|congruence].
    rewrite (thdGetState_present _ _ _ _ _ _ E).
    destruct (Hdec js eq_refl) as [v Hv]. rewrite Hv.
    do 2 eexists. split; [reflexivity|].
    cbn [db log creator_good creator_progress]. rewrite E.
    split; [auto|]. split; [exact Hdec|]. split; [eauto|]. left; lia.
  - do 2 eexists. split; [reflexivity|]. cbn [creator_good creator_progress].
    split; [auto|]. split; [exact Hdec|]. split; [exact Hg|]. right; split; reflexivity.
  - contradiction.
Qed.

Lemma create_one_consistent i s :
  cconsistent s ->
  cconsistent (cone i s)
  /\ (forall x, row (db (shared s)) = Some x -> row (db (shared (cone i s))) = Some x)
  /\ (forall j, j <> i -> creators (cone i s) !! j = creators s !! j)
  /\ (forall value p, creators s !! i = Some (value, p) ->
        exists p', creators (cone i s) !! i = Some (value, p')
                   /\ (creator_progress p < creator_progress p'
                       \/ (creator_progress p = 3 /\ p' = p))%nat).
Proof.
  intros [Hdec Hc]. unfold create_one.
  destruct (creators s !! i) as [[value p]|] eqn:Ei.
  - destruct (Hc i value p Ei) as [Hrt Hg].
    destruct (creator_step_spec value p (shared s) Hdec Hrt Hg)
      as (p' & c' & H1 & H2 & H3 & H4 & H5).
    rewrite H1. cbn. split; [|split; [|split]].
    + split; [exact H3|]. cbn. intros j vj q Hq.
      destruct (decide (i = j)) as [->|Hne].
      * rewrite list_lookup_insert_eq in Hq by (eapply lookup_lt_Some; eauto).
        injection Hq as <- <-. split; [exact Hrt | exact H4].
      * rewrite list_lookup_insert_ne in Hq by assumption.
        destruct (Hc j vj q Hq) as [Hr Hgq]. split; [exact Hr|].
        eapply creator_good_mono; [exact H2 | exact Hgq].
    + exact H2.
    + intros j Hj. now rewrite list_lookup_insert_ne by congruence.
    + intros v0 q Hq. injection Hq as <- <-. exists p'. split.
      * rewrite list_lookup_insert_eq by (eapply lookup_lt_Some; eauto). reflexivity.
      * exact H5.
  - split; [split; assumption|]. split; [auto|]. split; [auto|].
    intros value p Hp. discriminate.
Qed.

Lemma create_schedule_consistent sched : forall s,
  cconsistent s ->
  cconsistent (csched sched s)
  /\ (forall x, row (db (shared s)) = Some x ->
                row (db (shared (csched sched s))) = Some x).
Proof.
  unfold create_schedule.
  induction sched as [|i sched IH]; intros s Hc; cbn; [auto|].
  destruct (create_one_consistent i s Hc) as (H1 & H2 & _).
  destruct (IH _ H1) as [H3 H4]. split; [exact H3 | auto].
Qed.

Lemma create_schedule_progress sched : forall s i value p,
  cconsistent s ->
  creators s !! i = Some (value, p) ->
  exists p', creators (csched sched s) !! i = Some (value, p')
    /\ (Nat.min 3 (creator_progress p + count_occ Nat.eq_dec sched i)
        <= creator_progress p')%nat.
Proof.
  unfold create_schedule.
  induction sched as [|j sched IH]; intros s i value p Hc Hp; cbn [fold_left count_occ].
  - exists p. split; [exact Hp | lia].
  - destruct (create_one_consistent j s Hc) as (H1 & _ & H4 & H5).
    destruct (Nat.eq_dec j i) as [->|Hne].
    + destruct (H5 value p Hp) as (p1 & Hp1 & Hpr).
      destruct (IH _ i value p1 H1 Hp1) as (p' & Hp' & Hle).
      exists p'. split; [exact Hp'|].
      destruct Hpr as [Hpr | [Hpr ->]]; lia.
    + assert (Hp1 : creators (cone j s) !! i = Some (value, p))
        by (rewrite H4 by congruence; exact Hp).
      destruct (IH _ i value p H1 Hp1) as (p' & Hp' & Hle).
      exists p'. split; [exact Hp' | exact Hle].
Qed.

Lemma creators_consistent_start c values :
  (forall js, row (db c) = Some js -> exists v, json_loads js = Some v) ->
  (forall v, In v values ->
     exists js, json_dumps v = Some js /\ json_loads js = Some v) ->
  cconsistent {| shared := c; creators := (fun v => (v, ToRead)) <$> values |}.
Proof.
  intros Hdec Hrt. split; [exact Hdec|]. cbn. intros i value p Hp.
  rewrite list_lookup_fmap in Hp.
  destruct (values !! i) as [v|] eqn:E; [|discriminate].
  cbn in Hp. injection Hp as <- <-. split; [|exact I].
  apply Hrt. apply list_elem_of_In. eapply list_elem_of_lookup_2. exact E.
Qed.

End Creators.

(** [creator_step] cuts [atomicCreateState] at its statements. *)
Lemma atomicCreateState_as_steps
    (json_loads : string -> option pyvalue) (json_dumps : pyvalue -> option string)
    (hook : DB -> DB) (objectid : Z) (name : string) (value : pyvalue) (c : Conn) :
  atomicCreateState json_loads json_dumps hook objectid name (ret value) c =
  match creator_step json_loads json_dumps objectid name value ToRead c with
  | (Ret (Got v), c1) => (Ret v, c1)
  | (Ret (ToInsert res value_json), c1) =>
      match creator_step json_loads json_dumps objectid name value
              (ToInsert res value_json) (with_db (hook (db c1)) c1) with
      | (Ret (Got v), c2) => (Ret v, c2)
      | (Ret _, c2) =>
          match creator_step json_loads json_dumps objectid name value ToReread c2 with
          | (Ret (Got v), c3) => (Ret v, c3)
          | (Ret _, c3) => (Raise KeyError, c3)
          | (Raise e, c3) => (Raise e, c3)
          end
      | (Raise e, c2) => (Raise e, c2)
      end
  | (Ret _, c1) => (Raise TypeError, c1)
  | (Raise e, c1) => (Raise e, c1)
  end.
Proof.
  unfold atomicCreateState, creator_step, bind, try_except, timing_hook,
    execute_insert_state, rollback, commit, ret, raise.
  destruct (thdGetState json_loads objectid name (Given PyNone) c) as [[v|e] c1];
    [|reflexivity].
  destruct (is_None v); [|reflexivity].
  destruct (json_dumps value) as [value_json|]; [|reflexivity].
  cbn [db log with_db].
  destruct (object_state (hook (db c1)) !! (objectid, name)) as [w|]; [|reflexivity].
  cbn [is_IntegrityError].
  destruct (thdGetState json_loads objectid name Thunk _) as [[v'|e] c3]; reflexivity.
Qed.

(** X16.  Callers of [atomicCreateState] agree.  Any number of callers
    work on the same connection, each with a callback value that
    survives the codec, their statements interleaved in any order; a
    row stored beforehand decodes.  Then no caller fails, every caller
    that has returned got the decoded content of the row, so all got the
    same value; a row stored beforehand is never replaced; and a caller
    has returned after three steps of its own. *)
Theorem atomicCreateState_callers_agree
    (json_loads : string -> option pyvalue) (json_dumps : pyvalue -> option string)
    (objectid : Z) (name : string) (c : Conn) (values : list pyvalue)
    (sched : list nat) :
  (forall value_json, object_state (db c) !! (objectid, name) = Some value_json ->
     exists v, json_loads value_json = Some v) ->
  (forall v, In v values ->
     exists value_json, json_dumps v = Some value_json
                        /\ json_loads value_json = Some v) ->
  let s := create_schedule json_loads json_dumps objectid name sched
             {| shared := c; creators := (fun v => (v, ToRead)) <$> values |} in
  (forall i value p, creators s !! i = Some (value, p) ->
     (forall e, p <> GaveUp e)
     /\ (forall x, p = Got x ->
           exists value_json,
             object_state (db (shared s)) !! (objectid, name) = Some value_json
             /\ json_loads value_json = Some x))
  /\ (forall i j vi vj x y,
        creators s !! i = Some (vi, Got x) ->
        creators s !! j = Some (vj, Got y) -> x = y)
  /\ (forall value_json,
        object_state (db c) !! (objectid, name) = Some value_json ->
        object_state (db (shared s)) !! (objectid, name) = Some value_json)
  /\ (forall i, (i < length values)%nat ->
        (3 <= count_occ Nat.eq_dec sched i)%nat ->
        exists value x, creators s !! i = Some (value, Got x)).
Proof.
  intros Hdec Hrt s.
  pose proof (creators_consistent_start json_loads json_dumps objectid name
                c values Hdec Hrt) as H0.
  destruct (create_schedule_consistent json_loads json_dumps objectid name sched _ H0)
    as [[_ Hc] Hkeep].
  fold s in Hc, Hkeep.
  assert (Hret : forall i value p, creators s !! i = Some (value, p) ->
            (forall e, p <> GaveUp e)
            /\ (forall x, p = Got x ->
                  exists value_json,
                    object_state (db (shared s)) !! (objectid, name) = Some value_json
                    /\ json_loads value_json = Some x)).
  { intros i value p Hp. destruct (Hc i value p Hp) as [_ Hg]. split.
    - intros e ->. exact Hg.
    - intros x ->. exact Hg. }
  split; [exact Hret|]. split; [|split].
  - intros i j vi vj x y Hi Hj.
    destruct (Hret i _ _ Hi) as [_ H1]. destruct (Hret j _ _ Hj) as [_ H2].
    destruct (H1 x eq_refl) as (js1 & Ha & Hb).
    destruct (H2 y eq_refl) as (js2 & Ha' & Hb'). congruence.
  - exact Hkeep.
  - intros i Hi Hcount.
    destruct (lookup_lt_is_Some_2 values i Hi) as [v Hv].
    assert (Hstart : creators {| shared := c;
                                 creators := (fun v => (v, ToRead)) <$> values |} !! i
                     = Some (v, ToRead)).
    { cbn. rewrite list_lookup_fmap, Hv. reflexivity. }
    destruct (create_schedule_progress json_loads json_dumps objectid name sched _ i v
                ToRead H0 Hstart) as (p' & Hp' & Hle).
    fold s in Hp'. cbn [creator_progress] in Hle.
    destruct (Hret i v p' Hp') as [Hnf _].
    destruct p' as [| | |x|e]; cbn [creator_progress] in Hle; try lia.
    + exists v, x. exact Hp'.
    + exfalso. now apply (Hnf e).
Qed.

Lemma atomicCreateState_callers_agree_witness :
  let s := create_schedule atom_loads atom_dumps 132 "k" [0; 1; 1; 0; 1; 0]%nat
             {| shared := connect empty_db;
                creators := (fun v => (v, ToRead)) <$> [PyInt 1; PyInt 2] |} in
  creators s = [(PyInt 1, Got (PyInt 2)); (PyInt 2, Got (PyInt 2))]
  /\ forall i j vi vj x y,
       creators s !! i = Some (vi, Got x) ->
       creators s !! j = Some (vj, Got y) -> x = y.
Proof.
  intros s. split; [reflexivity|].
  destruct (atomicCreateState_callers_agree atom_loads atom_dumps 132 "k"
              (connect empty_db) [PyInt 1; PyInt 2] [0; 1; 1; 0; 1; 0]%nat)
    as (_ & H & _).
  - intros js H. discriminate.
  - intros v [<-|[<-|[]]]; eexists; split; reflexivity.
  - exact H.
Defined.

End StateMore.

(* ===================================================================== *)
(** ** The poller hook *)
(* ===================================================================== *)

Module PollerFacts.
Import Poller.

Lemma mem_In n l : mem n l = true <-> In n l.
Proof.
  unfold mem. rewrite List.existsb_exists. split.
  - intros (x & Hx & He). apply String.eqb_eq in He. now subst.
  - intros H. exists n. split; [exact H | apply String.eqb_refl].
Qed.

Lemma In_names n l :
  In n (names l) <-> exists s, In s l /\ source_name s = Some n.
Proof.
  unfold names. rewrite <- list_elem_of_In, list_elem_of_omap.
  split; intros (s & H1 & H2); exists s; (split; [|exact H2]).
  - now apply list_elem_of_In.
  - now apply list_elem_of_In.
Qed.

Lemma keep_spec poller allowed s :
  keep poller allowed s = true <->
  is_polling_source s = true
  /\ exists n, source_name s = Some n
       /\ (forall requested, poller = Some requested -> In n requested)
       /\ (forall l, allowed = Some l -> In n l).
Proof.
  unfold keep. destruct (is_polling_source s); cbn; [|split; [discriminate | intros [? _]; discriminate]].
  destruct (source_name s) as [n|]; [|split; [discriminate | intros (_ & n & ? & _); discriminate]].
  rewrite andb_true_iff. split.
  - intros [H1 H2]. split; [reflexivity|]. exists n. split; [reflexivity|]. split.
    + intros requested ->. now apply mem_In.
    + intros l ->. now apply mem_In.
  - intros (_ & n' & [= <-] & H1 & H2). split.
    + destruct poller; [apply mem_In, H1; reflexivity | reflexivity].
    + destruct allowed; [apply mem_In, H2; reflexivity | reflexivity].
Qed.

(** X17.  [getChanges] forces only what it may.  When it returns, the
    sources it called [force()] on are, in the order of [change_svc],
    exactly the polling change sources with a name that the request
    asked for (if it named pollers) and that the option [allowed] lists
    (if it is set). *)
Theorem getChanges_forces_only_allowed
    (change_svc : list Source) (poller allowed : option (list string))
    (forced : list Source) :
  getChanges change_svc poller allowed = Forced forced ->
  forced = pollers change_svc poller allowed
  /\ forall s, In s forced <->
       In s change_svc
       /\ is_polling_source s = true
       /\ exists n, source_name s = Some n
            /\ (forall requested, poller = Some requested -> In n requested)
            /\ (forall l, allowed = Some l -> In n l).
Proof.
  intros H.
  assert (Hf : forced = pollers change_svc poller allowed).
  { unfold getChanges in H. destruct poller as [requested|].
    - destruct (missing requested _); [injection H as <-; reflexivity | discriminate].
    - injection H as <-. reflexivity. }
  split; [exact Hf|]. intros s. rewrite Hf. unfold pollers.
  rewrite List.filter_In, keep_spec. reflexivity.
Qed.

Lemma getChanges_forces_only_allowed_witness :
  let a := {| is_polling_source := true; source_name := Some "a"%string |} in
  let b := {| is_polling_source := true; source_name := Some "b"%string |} in
  let c := {| is_polling_source := false; source_name := Some "c"%string |} in
  getChanges [a; b; c] None (Some ["a"; "c"]%string) = Forced [a]
  /\ forall s, In s [a] <->
       In s [a; b; c]
       /\ is_polling_source s = true
       /\ exists n, source_name s = Some n
            /\ (forall requested, None = Some requested -> In n requested)
            /\ (forall l, Some ["a"; "c"]%string = Some l -> In n l).
Proof.
  intros a b c. split; [reflexivity|].
  apply (getChanges_forces_only_allowed [a; b; c] None (Some ["a"; "c"]%string) [a]).
  reflexivity.
Defined.

(** X18.  A request that names pollers is served in full or not at
    all.  If every name asked for belongs to a polling change source the
    options allow, every one of them is forced; otherwise ValueError is
    raised before any [force()], and it names exactly the requested
    pollers that are unknown or not allowed. *)
Theorem getChanges_all_or_nothing
    (change_svc : list Source) (requested : list string)
    (allowed : option (list string)) :
  let available n :=
    exists s, In s change_svc /\ is_polling_source s = true
              /\ source_name s = Some n
              /\ (forall l, allowed = Some l -> In n l) in
  match getChanges change_svc (Some requested) allowed with
  | Forced forced =>
      (forall n, In n requested -> available n)
      /\ (forall n, In n requested -> In n (names forced))
  | ValueError not_found =>
      not_found <> []
      /\ forall n, In n not_found <-> In n requested /\ ~ available n
  end.
Proof.
  intros available. unfold getChanges.
  assert (Hav : forall n, In n requested ->
            (In n (names (pollers change_svc (Some requested) allowed)) <-> available n)).
  { intros n Hn. rewrite In_names. unfold pollers, available. split.
    - intros (s & Hs & Hnm). apply List.filter_In in Hs as [Hin Hk].
      apply keep_spec in Hk as (Hp & n' & Hn' & _ & Ha).
      exists s. repeat split; try assumption. intros l Hl. specialize (Ha l Hl). congruence.
    - intros (s & Hin & Hp & Hnm & Ha). exists s. split; [|exact Hnm].
      apply List.filter_In. split; [exact Hin|]. apply keep_spec.
      split; [exact Hp|]. exists n. split; [exact Hnm|]. split; [|exact Ha].
      intros r [= <-]. exact Hn. }
  assert (Hm : forall n, In n (missing requested (pollers change_svc (Some requested) allowed))
                 <-> In n requested /\ ~ available n).
  { intros n. unfold missing. rewrite List.filter_In, negb_true_iff. split.
    - intros [Hn Hf]. split; [exact Hn|]. intros Ha. apply (Hav n Hn) in Ha.
      apply mem_In in Ha. congruence.
    - intros [Hn Hna]. split; [exact Hn|].
      destruct (mem n _) eqn:E; [|reflexivity].
      exfalso. apply Hna, (Hav n Hn), mem_In, E. }
  destruct (missing requested (pollers change_svc (Some requested) allowed)) as [|m ms] eqn:E.
  - assert (Hall : forall n, In n requested -> available n).
    { intros n Hn.
      destruct (mem n (names (pollers change_svc (Some requested) allowed))) eqn:Em.
      - apply (Hav n Hn), mem_In, Em.
      - exfalso. assert (Hin : In n []) by (rewrite <- E; unfold missing;
          apply List.filter_In; split; [exact Hn | now rewrite Em]).
        exact Hin. }
    split; [exact Hall|]. intros n Hn. apply (Hav n Hn), Hall, Hn.
  - split; [discriminate | exact Hm].
Qed.

End PollerFacts.

(* ===================================================================== *)
(** ** The clock of the Nightly tests *)
(* ===================================================================== *)

Module HarnessFacts.
Import Nightly.

(** The zone of one fixed offset among all zones. *)
Lemma localtime_fixed_offset (timezone t : Z) :
  localtime timezone t = localtime_at (fun _ => - timezone) t.
Proof. reflexivity. Qed.

(** X19.  Where the clock of the Nightly tests starts.  [time_offset]
    adds [time.timezone % 3600] to a whole number of days.  On a host
    whose zone is [utcoffset] seconds east of UTC at that time, the local
    time [t] seconds after [time_offset] is [t] plus the drift
    [utcoffset + time.timezone] past the hour.  So it is [t] past the
    hour whenever the drift is a whole number of hours (a zone whose
    offset then is the one it has now, or differs by daylight saving
    time), and the tests start at 0 minutes and 0 seconds past the hour
    if and only if the drift is a whole number of hours. *)
Theorem time_offset_local_minutes (utcoffset : Z -> Z) (timezone t : Z) :
  let tm := localtime_at utcoffset (time_offset timezone + t) in
  let drift := utcoffset (time_offset timezone + t) + timezone in
  (tm_min tm = ((t + drift) mod 3600) / 60 /\ tm_sec tm = (t + drift) mod 60)
  /\ ((3600 | drift) -> tm_min tm = (t mod 3600) / 60 /\ tm_sec tm = t mod 60)
  /\ (t = 0 -> (tm_min tm = 0 /\ tm_sec tm = 0 <-> (3600 | drift))).
Proof.
  intros tm drift.
  assert (Hgen : tm_min tm = ((t + drift) mod 3600) / 60
                 /\ tm_sec tm = (t + drift) mod 60).
  { unfold tm, localtime_at, time_offset, localtime_offset.
    rewrite NightlyFacts.tm_min_gmtime, NightlyFacts.tm_sec_gmtime.
    pose proof (Z.div_mod timezone 3600 ltac:(lia)) as Hd.
    fold drift.
    replace (86400 * 10 + timezone mod 3600 + t
             + utcoffset (86400 * 10 + timezone mod 3600 + t))
      with (t + drift + (240 - timezone / 3600) * 3600)
      by (unfold drift, time_offset, localtime_offset; lia).
    split.
    - now rewrite Z.mod_add by lia.
    - replace ((240 - timezone / 3600) * 3600)
        with ((240 - timezone / 3600) * 60 * 60) by lia.
      now rewrite Z.mod_add by lia. }
  split; [exact Hgen|]. destruct Hgen as [Hm Hs]. split.
  - intros [k Hk]. rewrite Hm, Hs, Hk. split.
    + now rewrite Z.mod_add by lia.
    + replace (k * 3600) with (k * 60 * 60) by lia. now rewrite Z.mod_add by lia.
  - intros ->. rewrite Hm, Hs, !Z.add_0_l. split.
    + intros [H1 H2].
      pose proof (Z.mod_pos_bound drift 3600 ltac:(lia)) as Hb.
      assert (Hlt : drift mod 3600 < 60).
      { pose proof (Z.div_mod (drift mod 3600) 60 ltac:(lia)) as Hd.
        pose proof (Z.mod_pos_bound (drift mod 3600) 60 ltac:(lia)). lia. }
      assert (H60 : (drift mod 3600) mod 60 = drift mod 60).
      { apply Z.mod_mod_divide. exists 60. reflexivity. }
      assert (H0 : drift mod 3600 = 0).
      { rewrite <- H60 in H2. rewrite Z.mod_small in H2 by lia. exact H2. }
      apply Z.mod_divide; [lia | exact H0].
    + intros [k Hk]. rewrite Hk. split.
      * rewrite Z.mod_mul by lia. reflexivity.
      * replace (k * 3600) with (k * 60 * 60) by lia. now rewrite Z.mod_mul by lia.
Qed.

(** Asia/Kathmandu is 5:45 east of UTC now and was 5:30 east in January
    1970: there the tests start at 45 minutes past the hour.  On a host
    that has always been 5:45 east they start on the hour. *)
Lemma time_offset_local_minutes_witness :
  let then_ := localtime_at (fun _ => 19800) (time_offset (-20700)) in
  let fixed := localtime (-20700) (time_offset (-20700)) in
  (tm_hour then_ = 5 /\ tm_min then_ = 45 /\ tm_sec then_ = 0)
  /\ (tm_min fixed = 0 /\ tm_sec fixed = 0).
Proof.
  intros then_ fixed. split.
  - destruct (time_offset_local_minutes (fun _ => 19800) (-20700) 0) as ([H1 H2] & _).
    unfold then_. change (time_offset (-20700)) with (time_offset (-20700) + 0).
    split; [reflexivity|]. split; [exact H1 | exact H2].
  - unfold fixed. rewrite localtime_fixed_offset.
    destruct (time_offset_local_minutes (fun _ => - -20700) (-20700) 0) as (_ & _ & H3).
    apply (H3 eq_refl). exists 0. reflexivity.
Defined.

End HarnessFacts.
